(** * brain-diffusion: trajectory filling, assembly and MSD statistics

    A shallow embedding of [brain_diffusion/Chad/msd.py]:
    [fillin2], [MSD_iteration] and [vectorized_MMSD_calcs].

    Conventions of the embedding.
    - A trajectory array (N x 5 float array: Track ID, frame, x, y, z) is a
      list of [row] records.  Track ids and frames are whole numbers in
      every input the program is meant for, so they are [Z]; under that
      reading [int(...)] is the identity and [np.linspace(a, b, b-a+1)]
      is the integer range [a..b].  Coordinates stay in an abstract
      scalar type with the float operations the code uses ([Float]).
    - A frames x particles matrix is the list of its rows.
    - A masked array cell is an [option]: [None] is a masked cell.
    - Python exceptions are values of [pyerror]; every function that can
      raise returns a [result]. *)

From Stdlib Require Import ZArith QArith Lia String.
From stdpp Require Import base list gmap.

Local Open Scope Z_scope.

(** ** Exceptions and the error monad *)

Inductive pyerror : Type :=
| AssertionError (msg : string)
| IndexError
| ValueError
| TypeError
| KeyError
| OSError
| UnboundLocalError.

Inductive result (A : Type) : Type :=
| Ok (a : A)
| Err (e : pyerror).
Arguments Ok {A} a.
Arguments Err {A} e.

#[global] Instance result_ret : MRet result := fun A a => Ok a.
#[global] Instance result_bind : MBind result := fun A B f m =>
  match m with
  | Ok a => f a
  | Err e => Err e
  end.

(** [for x in l: st = body st x], stopping at the first exception. *)
Fixpoint for_each {S A : Type} (body : S -> A -> result S) (l : list A) (st : S)
  : result S :=
  match l with
  | [] => Ok st
  | a :: l' =>
      match body st a with
      | Ok st' => for_each body l' st'
      | Err e => Err e
      end
  end.

(** ** Python and numpy primitives *)

(** [range(a, b)]. *)
Definition py_range (a b : Z) : list Z :=
  map (fun i => a + Z.of_nat i) (seq 0 (Z.to_nat (b - a))).

Definition len {A : Type} (l : list A) : Z := Z.of_nat (length l).

(** Normalisation of one integer index on an axis of size [n]: negative
    indices count from the end, anything outside [-n, n) raises. *)
Definition norm_index (n i : Z) : result nat :=
  let j := if i <? 0 then i + n else i in
  if (0 <=? j) && (j <? n) then Ok (Z.to_nat j) else Err IndexError.

(** [l[i]]. *)
Definition py_index {A : Type} (l : list A) (i : Z) : result A :=
  j ← norm_index (len l) i;
  match l !! j with
  | Some a => Ok a
  | None => Err IndexError
  end.

(** Builtin [max] and [min] of a sequence; [ValueError] on an empty one. *)
Definition py_max (l : list Z) : result Z :=
  match l with
  | [] => Err ValueError
  | a :: l' => Ok (foldl Z.max a l')
  end.

Definition py_min (l : list Z) : result Z :=
  match l with
  | [] => Err ValueError
  | a :: l' => Ok (foldl Z.min a l')
  end.

(** [np.diff] of a one-dimensional array. *)
Fixpoint np_diff (l : list Z) : list Z :=
  match l with
  | a :: (b :: _) as l' => (b - a) :: np_diff l'
  | _ => []
  end.

(** Normalisation of the slice [a:b] on an axis of size [n]. *)
Definition norm_bound (n i : Z) : Z :=
  if i <? 0 then Z.max (i + n) 0 else Z.min i n.

Definition slice_bounds (n a b : Z) : nat * nat :=
  let lo := norm_bound n a in
  let hi := norm_bound n b in
  (Z.to_nat lo, Z.to_nat (Z.max (hi - lo) 0)).

(** [l[a:b]]. *)
Definition py_slice {A : Type} (l : list A) (a b : Z) : list A :=
  let '(lo, k) := slice_bounds (len l) a b in
  take k (drop lo l).

(** [l[a:b] = v] on a one-dimensional array: the slice and the value must
    have the same length, except that a one-element value is broadcast. *)
Definition set_slice {A : Type} (l : list A) (a b : Z) (v : list A)
  : result (list A) :=
  let '(lo, k) := slice_bounds (len l) a b in
  if decide (length v = k) then Ok (take lo l ++ v ++ drop (lo + k) l)
  else
    match v with
    | [x] => Ok (take lo l ++ replicate k x ++ drop (lo + k) l)
    | _ => Err ValueError
    end.

(** A dict with integer keys; a missing key raises [KeyError]. *)
Definition dict_get {V : Type} (d : gmap Z V) (k : Z) : result V :=
  match d !! k with
  | Some v => Ok v
  | None => Err KeyError
  end.

(** ** Scalars *)

(** The float operations the program uses on coordinates. *)
Class Float (F : Type) : Type := {
  f0 : F;                   (* 0.0, the content of np.zeros *)
  fadd : F -> F -> F;
  fsub : F -> F -> F;
  fmul : F -> F -> F;
  fdiv : F -> F -> F;
  fofZ : Z -> F;            (* an integer count as a float *)
  feq0 : F -> bool;         (* x == 0 *)
  fpos : F -> bool          (* 0 < x *)
}.

(** Exact rationals, used to evaluate the model on concrete inputs. *)
#[global] Instance Q_Float : Float Q := {|
  f0 := 0%Q;
  fadd := Qplus;
  fsub := Qminus;
  fmul := Qmult;
  fdiv := fun a b => Qred (Qdiv a b);
  fofZ := inject_Z;
  feq0 := fun a => Qeq_bool a 0;
  fpos := fun a => negb (Qle_bool a 0)
|}.

(** ** Orders on a column of frames *)

Definition nondecreasing (l : list Z) : Prop :=
  forall (i : nat) (a b : Z), l !! i = Some a -> l !! S i = Some b -> a <= b.

Definition has_decreasing_pair (l : list Z) : Prop :=
  exists (i : nat) (a b : Z), l !! i = Some a /\ l !! S i = Some b /\ b < a.

Definition increasing (l : list Z) : Prop :=
  forall (i : nat) (a b : Z), l !! i = Some a -> l !! S i = Some b -> a < b.

(** No gap: every frame is the one before plus one. *)
Definition dense (l : list Z) : Prop :=
  forall (i : nat) (a b : Z), l !! i = Some a -> l !! S i = Some b -> b = a + 1.

(** [np.all(np.diff(frames) == abs(np.diff(frames)))]. *)
Definition frames_check (l : list Z) : bool :=
  forallb (fun d => d =? Z.abs d) (np_diff l).

(** ** Trajectory arrays *)

Record row (F : Type) : Type := Row {
  tid : Z;      (* column 0: Track ID *)
  frame : Z;    (* column 1: frame *)
  px : F;       (* column 2 *)
  py : F;       (* column 3 *)
  pz : F        (* column 4 *)
}.
Arguments Row {F} _ _ _ _ _.
Arguments tid {F} _.
Arguments frame {F} _.
Arguments px {F} _.
Arguments py {F} _.
Arguments pz {F} _.

Module Fill.
Section Fill.
Context {F : Type} `{Float F}.

Definition zero_row : row F := Row 0 0 f0 f0 f0.

(** State of the loop of [fillin2]: the four counters and the output. *)
Record state : Type := State {
  count : Z;
  new : Z;
  other : Z;
  tot : Z;
  filledin : list (row F)
}.

(** One iteration of [for num in range(1, newshap)]. *)
Definition step (data : list (row F)) (st : state) (num : Z) : result state :=
  cur ← py_index (filledin st) num;
  fr ← py_index data (num - new st - 1);
  let d := frame cur - frame fr in
  let count' := if d =? 0 then count st + 1 else count st in
  let new' := if d =? 0 then new st else if d <? 0 then new st + 1 else new st in
  let other' := if d =? 0 then other st else if d <? 0 then other st else other st + 1 in
  src ← py_index data (num - new' - 1);
  i ← norm_index (len (filledin st)) num;
  Ok (State count' new' other' (count' + new' + other')
        (<[i := Row (tid src) (frame cur) (px src) (py src) (pz src)]> (filledin st))).

(** [filledin[:, 1] = np.linspace(shape1, shap-1, newshap)]. *)
Definition set_frames (shape1 : Z) (l : list (row F)) : list (row F) :=
  imap (fun k r => Row (tid r) (shape1 + Z.of_nat k) (px r) (py r) (pz r)) l.

Definition fillin2 (data : list (row F)) : result (list (row F)) :=
  let fr := map frame data in
  if negb (frames_check fr)
  then Err (AssertionError "Frames must all increase.")
  else if negb (0 <? len data)
  then Err (AssertionError "Array must not be empty.")
  else
    mx ← py_max fr;
    mn ← py_min fr;
    let shap := mx + 1 in
    let shape1 := mn in
    let newshap := shap - shape1 in
    let zeros := replicate (Z.to_nat newshap) zero_row in
    first ← py_index data 0;
    i0 ← norm_index (len zeros) 0;
    let filled0 := set_frames shape1 (<[i0 := first]> zeros) in
    st ← for_each (step data) (py_range 1 newshap) (State 0 0 0 0 filled0);
    Ok (filledin st).

End Fill.
Arguments state : clear implicits.
End Fill.

(** What [fillin2] makes of a trajectory without gaps: the first row,
    then for every later frame the row before it under that frame's
    number. *)
Definition lagged {F : Type} (data : list (row F)) : list (row F) :=
  match data with
  | [] => []
  | r0 :: _ =>
      r0 :: zip_with (fun r k => Row (tid r) (frame r0 + k) (px r) (py r) (pz r))
              data (py_range 1 (len data))
  end.

(** What the loop keeps true of the output: its length and its frame
    column are those set before the loop. *)
Definition fill_inv (mn newshap : Z) {F : Type} (st : Fill.state F) : Prop :=
  map frame (Fill.filledin st) = py_range mn (mn + newshap).


Definition qrow (i f : Z) (x y z : Z) : row Q :=
  Row i f (inject_Z x) (inject_Z y) (inject_Z z).


(** ** Matrices: frames x particles arrays as lists of rows *)

Section Matrix.
Context {F : Type} `{Float F}.

(** [np.zeros((r, c))]. *)
Definition np_zeros (r c : Z) : result (list (list F)) :=
  if (r <? 0) || (c <? 0) then Err ValueError
  else Ok (replicate (Z.to_nat r) (replicate (Z.to_nat c) f0)).

Definition ncols (m : list (list F)) : Z :=
  match m with
  | [] => 0
  | r :: _ => len r
  end.

(** [m[:, j]]. *)
Definition column (j : nat) (m : list (list F)) : list F :=
  map (fun r => default f0 (r !! j)) m.

(** [m[a:b, c] = v]. *)
Definition set_col_slice (m : list (list F)) (a b c : Z) (v : list F)
  : result (list (list F)) :=
  j ← norm_index (ncols m) c;
  newcol ← set_slice (column j m) a b v;
  Ok (zip_with (fun r x => <[j := x]> r) m newcol).

(** Rows all of width [c], [r] of them. *)
Definition has_shape (r c : nat) (m : list (list F)) : Prop :=
  length m = r /\ Forall (fun row => length row = c) m.

End Matrix.

(** [np.where(particles == num)[0]]. *)
Definition where_eq (particles : list Z) (num : Z) : list Z :=
  omap (fun '(i, p) => if p =? num then Some (Z.of_nat i) else None)
       (imap pair particles).

(** ** The assembler *)

Module Assemble.
Section Assemble.
Context {F : Type} `{Float F}.

(** State of the first loop of [MSD_iteration]: [frames] and the dicts. *)
Record videos_state : Type := VideosState {
  frames : Z;
  trajectory : gmap Z (list (row F));
  tots : gmap Z Z;
  newtots : gmap Z Z;
  tlen : gmap Z Z;
  tlength : gmap Z Z
}.

(** [np.delete(np.genfromtxt(file num), 0, 1)]: the table of video [num],
    [videos] holding the tables of the files 1, 2, .. in order. *)
Definition read_video (videos : list (list (row F))) (num : Z)
  : result (list (row F)) :=
  match videos !! Z.to_nat (num - 1) with
  | Some t => Ok t
  | None => Err OSError
  end.

Definition video_step (videos : list (list (row F))) (st : videos_state) (num : Z)
  : result videos_state :=
  traj ← read_video videos num;
  lastrow ← py_index traj (-1);
  let tots_num := tid lastrow in
  prev ← dict_get (newtots st) (num - 1);
  let newtots_num := prev + tots_num in
  let tlen_num := len traj in
  prevlen ← dict_get (tlength st) (num - 1);
  let tlength_num := prevlen + tlen_num in
  mxf ← py_max (map frame traj);
  Ok (VideosState (if frames st <? mxf then mxf else frames st)
        (<[num := traj]> (trajectory st))
        (<[num := tots_num]> (tots st))
        (<[num := newtots_num]> (newtots st))
        (<[num := tlen_num]> (tlen st))
        (<[num := tlength_num]> (tlength st))).

Definition add_tid (off : Z) (r : row F) : row F :=
  Row (tid r + off) (frame r) (px r) (py r) (pz r).

(** One iteration of the second loop, which copies a table into
    [placeholder] and shifts its ids. *)
Definition place_step (st : videos_state) (placeholder : list (row F)) (num : Z)
  : result (list (row F)) :=
  a ← dict_get (tlength st) (num - 1);
  b ← dict_get (tlength st) num;
  traj ← dict_get (trajectory st) num;
  placed ← set_slice placeholder a b traj;
  off ← dict_get (newtots st) (num - 1);
  set_slice placed a b (map (add_tid off) (py_slice placed a b)).

(** The two loops over the videos: [frames] and [placeholder]. *)
Definition load (videos : list (list (row F))) : result (Z * list (row F)) :=
  let totvids := len videos in
  st ← for_each (video_step videos) (py_range 1 (totvids + 1))
         (VideosState 0 ∅ ∅ {[0 := 0]} ∅ {[0 := 0]});
  n ← dict_get (tlength st) totvids;
  placeholder ← for_each (place_step st) (py_range 1 (totvids + 1))
                  (replicate (Z.to_nat n) Fill.zero_row);
  Ok (frames st, placeholder).

(** [fixed]: the coordinates converted. *)
Definition convert (conversion : F * F * F) (r : row F) : row F :=
  let '(c0, _, c2) := conversion in
  Row (tid r) (frame r) (fmul c0 (px r)) (fmul c0 (py r)) (fmul c2 (pz r)).

(** State of the loop over the particles. *)
Record state : Type := State {
  nones : Z;
  x : list (list F);
  y : list (list F);
  xs : list (list F);
  ys : list (list F)
}.

(** The rows [int(hold[0, 1]) : int(hold[-1, 1]) + 1] of the absolute
    matrices and [0 : int(hold[-1, 1]) + 1 - int(hold[0, 1])] of the
    relative ones. *)
Definition abs_rows (hold : list (row F)) : result (Z * Z) :=
  h0 ← py_index hold 0;
  hl ← py_index hold (-1);
  Ok (frame h0, frame hl + 1).

Definition rel_rows (hold : list (row F)) : result (Z * Z) :=
  hl ← py_index hold (-1);
  h0 ← py_index hold 0;
  Ok (0, frame hl + 1 - frame h0).

(** [fillin2(fixed[min1:max1+1, 0:5])]. *)
Definition fill_particle (fixed : list (row F)) (min1 max1 : Z)
  : result (list (row F)) :=
  Fill.fillin2 (py_slice fixed min1 (max1 + 1)).

(** One iteration of [for num in range(1, total1)]. *)
Definition particle_step (fixed : list (row F)) (particles : list Z) (cutoff : Z)
    (st : state) (num : Z) : result state :=
  let itindex := where_eq particles num in
  min1 ← py_min itindex;
  max1 ← py_max itindex;
  if max1 - min1 <? cutoff then
    Ok (State (nones st + 1) (x st) (y st) (xs st) (ys st))
  else
    holdplease ← fill_particle fixed min1 max1;
    let col := num - nones st - 1 in
    ab ← abs_rows holdplease;
    x' ← set_col_slice (x st) ab.1 ab.2 col (map px holdplease);
    ab ← abs_rows holdplease;
    y' ← set_col_slice (y st) ab.1 ab.2 col (map py holdplease);
    ab ← rel_rows holdplease;
    xs' ← set_col_slice (xs st) ab.1 ab.2 col (map px holdplease);
    ab ← rel_rows holdplease;
    ys' ← set_col_slice (ys st) ab.1 ab.2 col (map py holdplease);
    Ok (State (nones st) x' y' xs' ys').

(** [m[:, :n]]. *)
Definition take_cols (n : Z) (m : list (list F)) : list (list F) :=
  map (fun r => py_slice r 0 n) m.

(** The part of [MSD_iteration] after the videos are loaded. *)
Definition assemble (frames : Z) (placeholder : list (row F)) (cut : Z)
    (conversion : F * F * F)
  : result (Z * list (list F) * list (list F) * list (list F) * list (list F)) :=
  let particles := map tid placeholder in
  total ← py_max particles;
  let total1 := total + 1 in
  let fixed := map (convert conversion) placeholder in
  x0 ← np_zeros (frames + 1) total1;
  y0 ← np_zeros (frames + 1) total1;
  xs0 ← np_zeros (frames + 1) total1;
  ys0 ← np_zeros (frames + 1) total1;
  let cutoff := cut in
  st ← for_each (particle_step fixed particles cutoff) (py_range 1 total1)
         (State 0 x0 y0 xs0 ys0);
  let total1 := total1 - nones st - 1 in
  Ok (total1, take_cols total1 (xs st), take_cols total1 (ys st),
      take_cols total1 (x st), take_cols total1 (y st)).

Definition MSD_iteration (videos : list (list (row F))) (cut : Z)
    (conversion : F * F * F)
  : result (Z * list (list F) * list (list F) * list (list F) * list (list F)) :=
  fp ← load videos;
  assemble fp.1 fp.2 cut conversion.

End Assemble.
Arguments state : clear implicits.
Arguments videos_state : clear implicits.
End Assemble.

(** ** Vocabulary for the assembler's claims *)

Section AssembleSpec.
Context {F : Type} `{Float F}.

(** The test of the loop over the particles: [num] is kept when the span
    of the indices of its records reaches the cutoff. *)
Definition survives (particles : list Z) (cutoff : Z) (num : Z) : bool :=
  match py_min (where_eq particles num), py_max (where_eq particles num) with
  | Ok min1, Ok max1 => negb (max1 - min1 <? cutoff)
  | _, _ => false
  end.

(** The ids in [1 .. num - 1] that are kept, in ascending order. *)
Definition survivors (particles : list Z) (cutoff : Z) (num : Z) : list Z :=
  filter (fun s => survives particles cutoff s = true) (py_range 1 num).

(** The column a kept particle [s] is given in a matrix of [nrows] rows:
    the zero column with the filled trajectory assigned to the rows
    [rows] selects. *)
Definition particle_column (fixed : list (row F)) (particles : list Z)
    (nrows : nat) (rows : list (row F) -> result (Z * Z)) (proj : row F -> F)
    (s : Z) : result (list F) :=
  min1 ← py_min (where_eq particles s);
  max1 ← py_max (where_eq particles s);
  hold ← Assemble.fill_particle fixed min1 max1;
  ab ← rows hold;
  set_slice (replicate nrows f0) ab.1 ab.2 (map proj hold).

(** What the loop over the particles keeps true of one matrix, [kept]
    being the particles kept so far: the shape, one column per kept
    particle in order, and zero columns after them. *)
Definition matrix_inv (fixed : list (row F)) (particles : list Z)
    (nrows nc : nat) (rows : list (row F) -> result (Z * Z)) (proj : row F -> F)
    (kept : list Z) (m : list (list F)) : Prop :=
  has_shape nrows nc m
  /\ (forall (k : nat) (s : Z), kept !! k = Some s ->
        particle_column fixed particles nrows rows proj s = Ok (column k m))
  /\ (forall j : nat, (length kept <= j)%nat -> column j m = replicate nrows f0).

Definition assemble_inv (fixed : list (row F)) (particles : list Z) (cutoff : Z)
    (nrows nc : nat) (num : Z) (st : Assemble.state F) : Prop :=
  let kept := survivors particles cutoff num in
  num - 1 - Assemble.nones st = len kept
  /\ 0 <= Assemble.nones st
  /\ matrix_inv fixed particles nrows nc Assemble.abs_rows px kept (Assemble.x st)
  /\ matrix_inv fixed particles nrows nc Assemble.abs_rows py kept (Assemble.y st)
  /\ matrix_inv fixed particles nrows nc Assemble.rel_rows px kept (Assemble.xs st)
  /\ matrix_inv fixed particles nrows nc Assemble.rel_rows py kept (Assemble.ys st).

End AssembleSpec.

Section AssembleClaims.
Context {F : Type} `{Float F}.

(** The ids in [1 .. total] that the loop drops. *)
Definition dropped (particles : list Z) (cutoff : Z) (total : Z) : list Z :=
  filter (fun s => survives particles cutoff s = false) (py_range 1 (total + 1)).

(** The span of a particle in the words of the specification: its last
    observed frame minus its first observed frame. *)
Definition frame_span (records : list (row F)) (num : Z) : result Z :=
  let observed := map frame (filter (fun r => tid r = num) records) in
  first ← py_min observed;
  last ← py_max observed;
  Ok (last - first).

End AssembleClaims.

Section AllocationSpec.
Context {F : Type} `{Float F}.

(** What one iteration of the loop over the particles does with particle
    [num], in terms of the span [max1 - min1] of the indices of its
    records: below the cutoff the particle is counted in [nones] and no
    matrix changes; otherwise [nones] is kept and the filled trajectory is
    assigned to column [num - nones - 1] of the four matrices. *)
Definition allocation (fixed : list (row F)) (particles : list Z) (cutoff : Z)
    (st st' : Assemble.state F) (num : Z) : Prop :=
  exists min1 max1 : Z,
    py_min (where_eq particles num) = Ok min1
    /\ py_max (where_eq particles num) = Ok max1
    /\ (Assemble.nones st' = Assemble.nones st + 1 <-> max1 - min1 < cutoff)
    /\ (Assemble.nones st' = Assemble.nones st <-> cutoff <= max1 - min1)
    /\ (max1 - min1 < cutoff ->
        Assemble.x st' = Assemble.x st /\ Assemble.y st' = Assemble.y st
        /\ Assemble.xs st' = Assemble.xs st /\ Assemble.ys st' = Assemble.ys st)
    /\ (cutoff <= max1 - min1 ->
        exists (hold : list (row F)) (ab rb : Z * Z),
          let col := num - Assemble.nones st - 1 in
          Assemble.fill_particle fixed min1 max1 = Ok hold
          /\ Assemble.abs_rows hold = Ok ab
          /\ Assemble.rel_rows hold = Ok rb
          /\ set_col_slice (Assemble.x st) ab.1 ab.2 col (map px hold)
             = Ok (Assemble.x st')
          /\ set_col_slice (Assemble.y st) ab.1 ab.2 col (map py hold)
             = Ok (Assemble.y st')
          /\ set_col_slice (Assemble.xs st) rb.1 rb.2 col (map px hold)
             = Ok (Assemble.xs st')
          /\ set_col_slice (Assemble.ys st) rb.1 rb.2 col (map py hold)
             = Ok (Assemble.ys st')).

End AllocationSpec.

Definition qone : Q * Q * Q := (1%Q, 1%Q, 1%Q).

(** ** The MSD engine *)

Module MMSD.
Section MMSD.
Context {F : Type} `{Float F}.

(** [np.zeros(n)]. *)
Definition np_zeros1 (n : Z) : result (list F) :=
  if n <? 0 then Err ValueError else Ok (replicate (Z.to_nat n) f0).

(** [np.log] on a float and [scipy.stats.sem(dist, axis=0)], taken as
    given. *)
Variable np_log : F -> F.
Variable stat_sem : list (option F) -> F.

(** [ma.masked_equal(m, 0)]: a copy of [m] with the zero cells masked. *)
Definition mask0 (v : F) : option F := if feq0 v then None else Some v.

Definition masked_equal0 (m : list (list F)) : list (list (option F)) :=
  map (map mask0) m.

(** [(b - c)**2] on masked cells: masked when either operand is. *)
Definition sqdiff (b c : option F) : option F :=
  match b, c with
  | Some b, Some c => Some (fmul (fsub b c) (fsub b c))
  | _, _ => None
  end.

(** The unmasked cells of column [p]. *)
Definition ma_column (p : nat) (M : list (list (option F))) : list F :=
  omap (fun r => mjoin (r !! p)) M.

(** The mean of a masked vector, given its unmasked cells: their sum
    over their count, masked when there is none. *)
Definition ma_mean (vals : list F) : option F :=
  match vals with
  | [] => None
  | _ => Some (fdiv (foldl fadd f0 vals) (fofZ (len vals)))
  end.

(** [np.mean(M, axis=0)] for a masked [M] of width [P]. *)
Definition ma_mean_axis0 (P : nat) (M : list (list (option F))) : list (option F) :=
  map (fun p => ma_mean (ma_column p M)) (seq 0 P).

(** The per-particle means of one lag, for one coordinate:
    [b = m[frame, :]; c = m[:-frame, :]; np.mean((b - c)**2, axis=0)]. *)
Definition lag_means (m : list (list (option F))) (frame : Z)
  : result (list (option F)) :=
  b ← py_index m frame;
  let c := py_slice m 0 (- frame) in
  let M := map (fun crow => zip_with sqdiff b crow) c in
  Ok (ma_mean_axis0 (length b) M).

(** The data of a masked vector, as stored into a plain array.  Under a
    masked mean lies the sum of the cells filled with zeros, which is 0. *)
Definition ma_data (v : list (option F)) : list F := map (default f0) v.

(** [SM[frame, :] = v] for a plain [SM]. *)
Definition set_row (SM : list (list F)) (frame : Z) (v : list F)
  : result (list (list F)) :=
  i ← norm_index (len SM) frame;
  match SM !! i with
  | None => Err IndexError
  | Some old =>
      if decide (length v = length old) then Ok (<[i := v]> SM)
      else
        match v with
        | [x] => Ok (<[i := replicate (length old) x]> SM)
        | _ => Err ValueError
        end
  end.

(** State of the loop over the lags: the two accumulators, and [Mxa] and
    [Mya], which are unbound until the first iteration. *)
Record state : Type := State {
  SM1x : list (list F);
  SM1y : list (list F);
  Mxa : option (list (option F));
  Mya : option (list (option F))
}.

(** One iteration of [for frame in range(1, frame_m)]. *)
Definition lag_step (xs_m ys_m : list (list (option F))) (st : state) (frame : Z)
  : result state :=
  mxa ← lag_means xs_m frame;
  mya ← lag_means ys_m frame;
  sm1x ← set_row (SM1x st) frame (ma_data mxa);
  sm1y ← set_row (SM1y st) frame (ma_data mya);
  Ok (State sm1x sm1y (Some mxa) (Some mya)).

(** Reading a local variable. *)
Definition local {A : Type} (v : option A) : result A :=
  match v with
  | Some a => Ok a
  | None => Err UnboundLocalError
  end.

(** Masked [a + b] of two vectors (a one-element vector is broadcast)
    and [np.log] of a masked vector (cells outside the domain of the
    logarithm become masked). *)
Definition add_cell (u v : option F) : option F :=
  match u, v with
  | Some u, Some v => Some (fadd u v)
  | _, _ => None
  end.

Definition ma_add (a b : list (option F)) : result (list (option F)) :=
  if decide (length a = length b) then Ok (zip_with add_cell a b)
  else
    match a, b with
    | [u], _ => Ok (map (add_cell u) b)
    | _, [v] => Ok (map (fun u => add_cell u v) a)
    | _, _ => Err ValueError
    end.

Definition ma_log (a : list (option F)) : list (option F) :=
  map (fun u => match u with
                | Some u => if fpos u then Some (np_log u) else None
                | None => None
                end) a.

(** [np.ma.mean(a, **kwargs)] of a masked vector: the call is forwarded
    to [MaskedArray.mean(axis, dtype, out, keepdims)], which rejects any
    other keyword. *)
Definition np_ma_mean (a : list (option F)) (kwargs : list string) : result (option F) :=
  if forallb (fun kw => bool_decide (kw ∈ ["axis"; "dtype"; "out"; "keepdims"]%string))
       kwargs
  then Ok (ma_mean (omap id a))
  else Err TypeError.

(** Elementwise [A + B] of two plain matrices of the same shape. *)
Definition mat_add (A B : list (list F)) : list (list F) :=
  zip_with (zip_with fadd) A B.

Definition vectorized_MMSD_calcs (frames total1 : Z)
    (xs_m ys_m x_m y_m : list (list F)) (frame_m : Z)
  : result (option F * F * list (list F) * list (list F) * list (list F)) :=
  SM1x0 ← np_zeros frames (total1 - 1);
  SM1y0 ← np_zeros frames (total1 - 1);
  SM2xy0 ← np_zeros frames (total1 - 1);
  let xs_m := masked_equal0 xs_m in
  let ys_m := masked_equal0 ys_m in
  let x_m := masked_equal0 x_m in
  let y_m := masked_equal0 y_m in
  geoM1x ← np_zeros1 frame_m;
  geoM1y ← np_zeros1 frame_m;
  st ← for_each (lag_step xs_m ys_m) (py_range 1 frame_m)
         (State SM1x0 SM1y0 None None);
  mya ← local (Mya st);
  mxa ← local (Mxa st);
  sum ← ma_add mya mxa;
  let dist := ma_log sum in
  geoM2xy ← np_ma_mean dist ["axix"%string];
  let gSEM := stat_sem dist in
  let SM2xy := mat_add (SM1x st) (SM1y st) in
  Ok (geoM2xy, gSEM, SM1x st, SM1y st, SM2xy).

End MMSD.
Arguments state : clear implicits.
End MMSD.

(** ** Vocabulary for the claims about the MSD engine *)

Section MMSDSpec.
Context {F : Type} `{Float F}.

(** The masked mean of one particle at one lag computed by hand: [b] is
    the cell the code subtracts from, [col] the cells it subtracts; zero
    cells are left out before anything is averaged. *)
Definition nonzero_mean (b : F) (col : list F) : option F :=
  if feq0 b then None
  else
    MMSD.ma_mean
      (map (fun c => fmul (fsub b c) (fsub b c))
           (filter (fun c => feq0 c = false) col)).

(** The mean squared displacement of one particle at lag [tau] in the
    words of the specification: the mean over the start frames [t] of
    [(pos[t + tau] - pos[t])^2], over the cells that are not masked. *)
Definition lagged_mean (pos : list (option F)) (tau : nat) : option F :=
  MMSD.ma_mean
    (omap (fun bc => MMSD.sqdiff bc.1 bc.2) (zip (drop tau pos) pos)).

End MMSDSpec.

Section MMSDClaims.
Context {F : Type} `{Float F}.

(** The per-particle means of one lag agree with the means computed by
    hand from the non-zero cells only. *)
Definition masked_means_spec (m : list (list F)) (frame : Z)
    (means : list (option F)) : Prop :=
  exists brow : list F,
    py_index m frame = Ok brow
    /\ length means = length brow
    /\ forall (p : nat) (b : F), brow !! p = Some b ->
         means !! p = Some (nonzero_mean b (column p (py_slice m 0 (- frame)))).

End MMSDClaims.

Definition qmat (m : list (list Z)) : list (list Q) := map (map inject_Z) m.

(** Stand-ins for [np.log] and [scipy.stats.sem] on rationals.  What
    [vectorized_MMSD_calcs] returns depends on neither function. *)
Definition any_log : Q -> Q := fun _ => 0%Q.
Definition any_sem : list (option Q) -> Q := fun _ => 0%Q.

(** ** The same functions over a store of arrays

    To state that a function leaves its arguments alone, arrays live in a
    store: an argument is a location, [np.zeros] and the other
    constructors allocate, and an indexed assignment replaces the content
    of a location.  A computation returns the store it leaves behind also
    when it raises. *)

Module Store.
Section Store.
Context {F : Type} `{Float F}.

Inductive obj : Type :=
| Table (t : list (row F))
| Matrix (m : list (list F))
| MaskedMatrix (m : list (list (option F)))
| Vector (v : list F)
| MaskedVector (v : list (option F)).

Definition M (A : Type) : Type := gmap nat obj -> result A * gmap nat obj.

Definition ret {A : Type} (a : A) : M A := fun h => (Ok a, h).

Definition bind {A B : Type} (m : M A) (f : A -> M B) : M B :=
  fun h =>
    match m h with
    | (Ok a, h') => f a h'
    | (Err e, h') => (Err e, h')
    end.

Definition raise {A : Type} (e : pyerror) : M A := fun h => (Err e, h).

Definition lift {A : Type} (r : result A) : M A := fun h => (r, h).

Definition alloc (o : obj) : M nat :=
  fun h => let l := fresh (dom h) in (Ok l, <[l := o]> h).

Definition write (l : nat) (o : obj) : M unit := fun h => (Ok tt, <[l := o]> h).

Definition read_table (l : nat) : M (list (row F)) :=
  fun h =>
    match h !! l with
    | Some (Table t) => (Ok t, h)
    | _ => (Err (AssertionError "Input array must have five columns."), h)
    end.

Definition read_matrix (l : nat) : M (list (list F)) :=
  fun h =>
    match h !! l with
    | Some (Matrix m) => (Ok m, h)
    | _ => (Err TypeError, h)
    end.

Definition read_masked (l : nat) : M (list (list (option F))) :=
  fun h =>
    match h !! l with
    | Some (MaskedMatrix m) => (Ok m, h)
    | _ => (Err TypeError, h)
    end.

Definition read_masked_vector (l : nat) : M (list (option F)) :=
  fun h =>
    match h !! l with
    | Some (MaskedVector v) => (Ok v, h)
    | _ => (Err TypeError, h)
    end.

Fixpoint for_each {S A : Type} (body : S -> A -> M S) (l : list A) (st : S) : M S :=
  match l with
  | [] => ret st
  | a :: l' => bind (body st a) (fun st' => for_each body l' st')
  end.

Notation "x <- c1 ;; c2" := (bind c1 (fun x => c2))
  (at level 100, c1 at next level, right associativity).

(** *** fillin2 *)

(** One iteration of the loop of [fillin2]: [frames] is a view of [data],
    read where it is used; the assignments go to [filledin]. *)
Definition fill_step (data filledin : nat) (c : Z * Z * Z * Z) (num : Z)
  : M (Z * Z * Z * Z) :=
  let '(count, new, other, tot) := c in
  f <- read_table filledin ;;
  d <- read_table data ;;
  st <- lift (Fill.step d (Fill.State count new other tot f) num) ;;
  _ <- write filledin (Table (Fill.filledin st)) ;;
  ret (Fill.count st, Fill.new st, Fill.other st, Fill.tot st).

Definition fillin2 (data : nat) : M nat :=
  d <- read_table data ;;
  let fr := map frame d in
  if negb (frames_check fr)
  then raise (AssertionError "Frames must all increase.")
  else if negb (0 <? len d)
  then raise (AssertionError "Array must not be empty.")
  else
    mx <- lift (py_max fr) ;;
    mn <- lift (py_min fr) ;;
    let shap := mx + 1 in
    let shape1 := mn in
    let newshap := shap - shape1 in
    filledin <- alloc (Table (replicate (Z.to_nat newshap) Fill.zero_row)) ;;
    d <- read_table data ;;
    first <- lift (py_index d 0) ;;
    f <- read_table filledin ;;
    i0 <- lift (norm_index (len f) 0) ;;
    _ <- write filledin (Table (<[i0 := first]> f)) ;;
    f <- read_table filledin ;;
    _ <- write filledin (Table (Fill.set_frames shape1 f)) ;;
    _ <- for_each (fill_step data filledin) (py_range 1 newshap) (0, 0, 0, 0) ;;
    ret filledin.

(** *** vectorized_MMSD_calcs *)

Variable np_log : F -> F.
Variable stat_sem : list (option F) -> F.

(** [np.zeros((r, c))] as a new array in the store. *)
Definition new_zeros (r c : Z) : M nat :=
  z <- lift (np_zeros r c) ;;
  alloc (Matrix z).

(** [ma.masked_equal(m, 0)]: a masked copy of the array at [m]. *)
Definition new_masked_equal0 (m : nat) : M nat :=
  a <- read_matrix m ;;
  alloc (MaskedMatrix (MMSD.masked_equal0 a)).

(** One iteration of the loop over the lags; the state is the binding of
    [Mxa] and [Mya]. *)
Definition lag_step (xs_m ys_m SM1x SM1y : nat) (st : option nat * option nat)
    (frame : Z) : M (option nat * option nat) :=
  xs <- read_masked xs_m ;;
  mxa <- lift (MMSD.lag_means xs frame) ;;
  Mxa <- alloc (MaskedVector mxa) ;;
  ys <- read_masked ys_m ;;
  mya <- lift (MMSD.lag_means ys frame) ;;
  Mya <- alloc (MaskedVector mya) ;;
  sx <- read_matrix SM1x ;;
  sx' <- lift (MMSD.set_row sx frame (MMSD.ma_data mxa)) ;;
  _ <- write SM1x (Matrix sx') ;;
  sy <- read_matrix SM1y ;;
  sy' <- lift (MMSD.set_row sy frame (MMSD.ma_data mya)) ;;
  _ <- write SM1y (Matrix sy') ;;
  ret (Some Mxa, Some Mya).

Definition vectorized_MMSD_calcs (frames total1 : Z) (xs_m ys_m x_m y_m : nat)
    (frame_m : Z) : M (option F * F * nat * nat * nat) :=
  SM1x <- new_zeros frames (total1 - 1) ;;
  SM1y <- new_zeros frames (total1 - 1) ;;
  SM2xy <- new_zeros frames (total1 - 1) ;;
  xs_m <- new_masked_equal0 xs_m ;;
  ys_m <- new_masked_equal0 ys_m ;;
  x_m <- new_masked_equal0 x_m ;;
  y_m <- new_masked_equal0 y_m ;;
  g1 <- lift (MMSD.np_zeros1 frame_m) ;;
  geoM1x <- alloc (Vector g1) ;;
  g2 <- lift (MMSD.np_zeros1 frame_m) ;;
  geoM1y <- alloc (Vector g2) ;;
  st <- for_each (lag_step xs_m ys_m SM1x SM1y) (py_range 1 frame_m) (None, None) ;;
  Mya <- lift (MMSD.local st.2) ;;
  Mxa <- lift (MMSD.local st.1) ;;
  mya <- read_masked_vector Mya ;;
  mxa <- read_masked_vector Mxa ;;
  sum <- lift (MMSD.ma_add mya mxa) ;;
  dist <- alloc (MaskedVector (MMSD.ma_log np_log sum)) ;;
  d <- read_masked_vector dist ;;
  geoM2xy <- lift (MMSD.np_ma_mean d ["axix"%string]) ;;
  let gSEM := stat_sem d in
  sx <- read_matrix SM1x ;;
  sy <- read_matrix SM1y ;;
  SM2xy <- alloc (Matrix (MMSD.mat_add sx sy)) ;;
  ret (geoM2xy, gSEM, SM1x, SM1y, SM2xy).

End Store.
Arguments obj : clear implicits.
End Store.

(** A computation started in a store that extends [h0] leaves every
    array of [h0] as it was, and what it returns satisfies [Q]. *)
Definition keeps {F A : Type} (h0 : gmap nat (Store.obj F)) (c : Store.M (F:=F) A)
    (Q : A -> Prop) : Prop :=
  forall h : gmap nat (Store.obj F),
    h0 ⊆ h -> h0 ⊆ (c h).2 /\ (forall a : A, (c h).1 = Ok a -> Q a).

(** [fillin2] and [vectorized_MMSD_calcs] leave the store they are
    started in as it was, and [fillin2] returns a location that was not in
    it, holding what the function on values returns. *)
Definition pure_calls {F : Type} `{Float F} (np_log : F -> F)
    (stat_sem : list (option F) -> F) : Prop :=
  (forall (h : gmap nat (Store.obj F)) (data : nat),
     h ⊆ (Store.fillin2 data h).2
     /\ (forall out : nat, (Store.fillin2 data h).1 = Ok out -> h !! out = None)
     /\ (forall d : list (row F), h !! data = Some (Store.Table d) ->
         match Fill.fillin2 d with
         | Ok t => exists out : nat,
             (Store.fillin2 data h).1 = Ok out
             /\ (Store.fillin2 data h).2 !! out = Some (Store.Table t)
         | Err e => (Store.fillin2 data h).1 = Err e
         end))
  /\ (forall (h : gmap nat (Store.obj F)) (frames total1 : Z)
        (xs_m ys_m x_m y_m : nat) (frame_m : Z),
        h ⊆ (Store.vectorized_MMSD_calcs np_log stat_sem frames total1
               xs_m ys_m x_m y_m frame_m h).2
        /\ (forall out,
              (Store.vectorized_MMSD_calcs np_log stat_sem frames total1
                 xs_m ys_m x_m y_m frame_m h).1 = Ok out ->
              h !! out.1.1.2 = None /\ h !! out.1.2 = None /\ h !! out.2 = None)).

(** ** Vocabulary for the behaviour of the filler *)

Section FillSpec.
Context {F : Type}.

(** The row [r] under the frame number [f]. *)
Definition relabel (r : row F) (f : Z) : row F :=
  Row (tid r) f (px r) (py r) (pz r).

(** [o] repeats a row of [data] observed at its frame or before. *)
Definition copied (data : list (row F)) (o : row F) : Prop :=
  exists r : row F, r ∈ data /\ o = relabel r (frame o) /\ frame r <= frame o.

(** [o] repeats the latest row of [data] observed at its frame or before:
    last observation carried forward. *)
Definition carried (data : list (row F)) (o : row F) : Prop :=
  exists r : row F,
    r ∈ data /\ o = relabel r (frame o) /\ frame r <= frame o
    /\ (forall r' : row F, r' ∈ data -> frame r' <= frame o -> frame r' <= frame r).

End FillSpec.

Section FillSpec2.
Context {F : Type} `{Float F}.

(** The shape of the output of [fillin2] on an input that starts with
    [g + 1] rows at consecutive frames: the first row is kept, the rows 1
    to [g] repeat the input row before them, the later rows carry the last
    observation forward. *)
Definition lag_then_carry (data : list (row F)) (r0 : row F) (g : nat)
    (out : list (row F)) : Prop :=
  out !! 0%nat = Some r0
  /\ (forall (k : nat) (src : row F), (1 <= k <= g)%nat ->
        data !! (k - 1)%nat = Some src ->
        out !! k = Some (relabel src (frame r0 + Z.of_nat k)))
  /\ (forall (k : nat) (o : row F), (g < k)%nat -> out !! k = Some o ->
        carried data o).

End FillSpec2.

(** ** Vocabulary for the loop of the MSD engine *)

Section LagSpec.
Context {F : Type} `{Float F}.

(** The accumulators after the lags [1 .. L - 1]: row [k] of each holds
    the means of lag [k]; row 0 and the rows from [L] on are still zero;
    [Mxa] and [Mya] are bound once a lag has run. *)
Definition lags_stored (xs_m ys_m : list (list F)) (nframes P : nat) (L : Z)
    (st : MMSD.state F) : Prop :=
  has_shape nframes P (MMSD.SM1x st)
  /\ has_shape nframes P (MMSD.SM1y st)
  /\ (forall k : nat, 1 <= Z.of_nat k < L ->
        exists mxa mya : list (option F),
          MMSD.lag_means (MMSD.masked_equal0 xs_m) (Z.of_nat k) = Ok mxa
          /\ MMSD.lag_means (MMSD.masked_equal0 ys_m) (Z.of_nat k) = Ok mya
          /\ MMSD.SM1x st !! k = Some (MMSD.ma_data mxa)
          /\ MMSD.SM1y st !! k = Some (MMSD.ma_data mya))
  /\ (forall k : nat, (k = 0%nat \/ L <= Z.of_nat k) -> (k < nframes)%nat ->
        MMSD.SM1x st !! k = Some (replicate P f0)
        /\ MMSD.SM1y st !! k = Some (replicate P f0))
  /\ (1 < L ->
        exists mxa mya : list (option F),
          MMSD.Mxa st = Some mxa /\ MMSD.Mya st = Some mya
          /\ length mxa = P /\ length mya = P).

End LagSpec.

(** ** Vocabulary for the records of a particle *)

(** The number of records of particle [num] in the id column. *)
Definition records (particles : list Z) (num : Z) : Z :=
  len (filter (fun p => p = num) particles).

(** ** Vocabulary for the loading of the videos *)

Section LoadSpec.
Context {F : Type} `{Float F}.

(** The id in the last row of a table. *)
Definition last_tid (t : list (row F)) : Z :=
  match last t with
  | Some r => tid r
  | None => 0
  end.

(** The sum of the last-row ids of the tables [vs]. *)
Definition ids_before (vs : list (list (row F))) : Z :=
  foldr (fun t s => last_tid t + s) 0 vs.

(** The tables one after the other, the ids of each shifted by [off] plus
    the last-row ids of the tables before it. *)
Fixpoint shifted_concat (off : Z) (vs : list (list (row F))) : list (row F) :=
  match vs with
  | [] => []
  | t :: vs' => map (Assemble.add_tid off) t ++ shifted_concat (off + last_tid t) vs'
  end.

(** The largest frame of the tables, and 0 when none is above 0. *)
Definition max_frame (vs : list (list (row F))) : Z :=
  foldl Z.max 0 (concat (map (map frame) vs)).

(** What the first loop over the videos keeps true after [k] videos. *)
Definition videos_loaded (videos : list (list (row F))) (k : Z)
    (st : Assemble.videos_state F) : Prop :=
  Assemble.frames st = max_frame (take (Z.to_nat k) videos)
  /\ (forall j : Z, 1 <= j <= k ->
        Assemble.trajectory st !! j = videos !! Z.to_nat (j - 1))
  /\ (forall j : Z, 0 <= j <= k ->
        Assemble.newtots st !! j = Some (ids_before (take (Z.to_nat j) videos)))
  /\ (forall j : Z, 0 <= j <= k ->
        Assemble.tlength st !! j = Some (len (concat (take (Z.to_nat j) videos)))).

(** What the second loop keeps true after [k] videos. *)
Definition videos_placed (videos : list (list (row F))) (k : Z)
    (placeholder : list (row F)) : Prop :=
  placeholder
  = shifted_concat 0 (take (Z.to_nat k) videos)
    ++ replicate (length (concat videos)
                  - length (concat (take (Z.to_nat k) videos))) Fill.zero_row.

End LoadSpec.

(** ** Vocabulary for the columns of the assembled matrices *)

Section ScatterSpec.
Context {F : Type} `{Float F}.

(** [holdplease] for particle [s]: [fillin2] on the rows of the converted
    record table from the first to the last record of [s]. *)
Definition holdplease (fixed : list (row F)) (particles : list Z) (s : Z)
  : result (list (row F)) :=
  min1 ← py_min (where_eq particles s);
  max1 ← py_max (where_eq particles s);
  Assemble.fill_particle fixed min1 max1.

(** How the filled trajectory [hold] of a particle lies in its four
    columns of [nrows] rows: its frames run from [first] on without a gap;
    its x and y coordinates stand at the top of the relative columns and
    from row [first] on in the absolute ones; every other cell is zero. *)
Definition scattered (nrows : nat) (hold : list (row F))
    (cxs cys cx cy : list F) : Prop :=
  exists first : nat,
    hold <> []
    /\ (first + length hold <= nrows)%nat
    /\ map frame hold = py_range (Z.of_nat first) (Z.of_nat first + len hold)
    /\ cxs = map px hold ++ replicate (nrows - length hold) f0
    /\ cys = map py hold ++ replicate (nrows - length hold) f0
    /\ cx = replicate first f0 ++ map px hold
            ++ replicate (nrows - first - length hold) f0
    /\ cy = replicate first f0 ++ map py hold
            ++ replicate (nrows - first - length hold) f0.

(** Column [k] of the four matrices in a run on [videos]: the particle
    [s] that owns it is the [k]-th kept id in ascending order, and the
    column holds [holdplease] of [s], the filled trajectory of its
    records in the converted record table. *)
Definition kth_column (videos : list (list (row F))) (cut : Z)
    (conversion : F * F * F) (xs_m ys_m x_m y_m : list (list F)) (k : nat) : Prop :=
  let placeholder := shifted_concat 0 videos in
  let particles := map tid placeholder in
  let fixed := map (Assemble.convert conversion) placeholder in
  exists (total s : Z) (hold : list (row F)),
    Assemble.load videos = Ok (max_frame videos, placeholder)
    /\ py_max particles = Ok total
    /\ survivors particles cut (total + 1) !! k = Some s
    /\ holdplease fixed particles s = Ok hold
    /\ scattered (Z.to_nat (max_frame videos + 1)) hold
         (column k xs_m) (column k ys_m) (column k x_m) (column k y_m).

End ScatterSpec.

(** ** Vocabulary for what the program discards *)

(** [m] with [f] applied to its value, exceptions kept. *)
Definition result_map {A B : Type} (f : A -> B) (m : result A) : result B :=
  x ← m; Ok (f x).

(** A record without its z coordinate. *)
Definition drop_z {F : Type} `{Float F} (r : row F) : row F :=
  Row (tid r) (frame r) (px r) (py r) f0.

(** The state of the loop of [fillin2] without the z column. *)
Definition drop_z_state {F : Type} `{Float F} (st : Fill.state F) : Fill.state F :=
  Fill.State (Fill.count st) (Fill.new st) (Fill.other st) (Fill.tot st)
    (map drop_z (Fill.filledin st)).

(** ** Vocabulary for the reductions of the MSD engine *)

Section EngineSpec.
Context {F : Type} `{Float F}.

(** The reductions [vectorized_MMSD_calcs] performs on [xs_m] and [ys_m],
    [SM0] being the zero array its accumulators start from.

    The means: whenever the loop over the lags has reached lag [k] and the
    iteration of lag [k] completes, [Mxa] and [Mya] are bound to the
    per-particle means of that lag, and each of them is the mean over the
    non-zero cells only (masked when none is left).

    The logarithm: when the loop has completed and [Mya + Mxa] is
    formed, [Mya] and [Mxa] are such means of the last lag, and every
    unmasked cell of [np.log(Mya + Mxa)] is the logarithm of the sum of
    two unmasked means: a masked mean never enters it as 0. *)
Definition zero_cells_masked (np_log : F -> F) (frames total1 : Z)
    (xs_m ys_m : list (list F)) (frame_m : Z) : Prop :=
  let lag_step := MMSD.lag_step (MMSD.masked_equal0 xs_m) (MMSD.masked_equal0 ys_m) in
  forall SM0 : list (list F),
    np_zeros frames (total1 - 1) = Ok SM0 ->
    (forall (k : Z) (st st' : MMSD.state F),
       1 <= k < frame_m ->
       for_each lag_step (py_range 1 k) (MMSD.State SM0 SM0 None None) = Ok st ->
       lag_step st k = Ok st' ->
       exists mxa mya : list (option F),
         MMSD.Mxa st' = Some mxa /\ MMSD.Mya st' = Some mya
         /\ masked_means_spec xs_m k mxa /\ masked_means_spec ys_m k mya)
    /\ (forall (st : MMSD.state F) (mya mxa sum : list (option F)),
          for_each lag_step (py_range 1 frame_m) (MMSD.State SM0 SM0 None None) = Ok st ->
          MMSD.local (MMSD.Mya st) = Ok mya ->
          MMSD.local (MMSD.Mxa st) = Ok mxa ->
          MMSD.ma_add mya mxa = Ok sum ->
          masked_means_spec ys_m (frame_m - 1) mya
          /\ masked_means_spec xs_m (frame_m - 1) mxa
          /\ forall (p : nat) (v : F),
               MMSD.ma_log np_log sum !! p = Some (Some v) ->
               exists a b : F,
                 mya !! p = Some (Some a) /\ mxa !! p = Some (Some b)
                 /\ v = np_log (fadd a b)).

(** No call takes a standard error, or the mean of the logarithms before
    it: the call raises, and the exception is the same whatever
    [np.log] and [scipy.stats.sem] compute. *)
Definition standard_error_unreached (frames total1 : Z)
    (xs_m ys_m x_m y_m : list (list F)) (frame_m : Z) : Prop :=
  exists e : pyerror,
    forall (np_log : F -> F) (stat_sem : list (option F) -> F),
      MMSD.vectorized_MMSD_calcs np_log stat_sem frames total1
        xs_m ys_m x_m y_m frame_m = Err e.

End EngineSpec.

(** ** Vocabulary for the count of the assembler *)

(** Larger ids stand later in the list. *)
Definition ascending (l : list Z) : Prop :=
  forall (i j : nat) (a b : Z),
    (i < j)%nat -> l !! i = Some a -> l !! j = Some b -> a < b.

(** The distinct ids of an id column, in ascending order. *)
Definition particle_ids (particles : list Z) : list Z :=
  match py_min particles, py_max particles with
  | Ok mn, Ok mx => filter (fun s => s ∈ particles) (py_range mn (mx + 1))
  | _, _ => []
  end.

Section CountSpec.
Context {F : Type} `{Float F}.

(** The number of particles of one session: its distinct track ids. *)
Definition session_particles (t : list (row F)) : Z :=
  len (particle_ids (map tid t)).

(** The total number of input particles, over all the sessions. *)
Definition input_particles (videos : list (list (row F))) : Z :=
  foldr (fun t s => session_particles t + s) 0 videos.

(** What a returned assembly looks like.  [ids] are the distinct global
    ids in ascending order, [kept] those of them that pass the test of the
    loop and [gone] those that fail it.  The count is the number of input
    particles minus the number of dropped ones, which is the number of
    kept ones; each matrix has one column per kept particle and no other;
    column [k] belongs to the [k]-th kept id. *)
Definition surviving (videos : list (list (row F))) (cut : Z) (conversion : F * F * F)
    (out : Z * list (list F) * list (list F) * list (list F) * list (list F))
  : Prop :=
  let '(total1, xs_m, ys_m, x_m, y_m) := out in
  exists (frames : Z) (placeholder : list (row F)),
    Assemble.load videos = Ok (frames, placeholder)
    /\ let particles := map tid placeholder in
       let fixed := map (Assemble.convert conversion) placeholder in
       let nrows := Z.to_nat (frames + 1) in
       let ids := particle_ids particles in
       let kept := filter (fun s => survives particles cut s = true) ids in
       let gone := filter (fun s => survives particles cut s = false) ids in
       len ids = input_particles videos
       /\ total1 = input_particles videos - len gone
       /\ total1 = len kept
       /\ ascending kept
       /\ has_shape nrows (length kept) xs_m
       /\ has_shape nrows (length kept) ys_m
       /\ has_shape nrows (length kept) x_m
       /\ has_shape nrows (length kept) y_m
       /\ (forall (k : nat) (s : Z), kept !! k = Some s ->
             particle_column fixed particles nrows Assemble.rel_rows px s
               = Ok (column k xs_m)
             /\ particle_column fixed particles nrows Assemble.rel_rows py s
               = Ok (column k ys_m)
             /\ particle_column fixed particles nrows Assemble.abs_rows px s
               = Ok (column k x_m)
             /\ particle_column fixed particles nrows Assemble.abs_rows py s
               = Ok (column k y_m)).

End CountSpec.

(** The docstring example (frames 0, 2, .., 10): every skipped frame
    repeats the previous observation. *)
Example fillin2_docstring :
  Fill.fillin2 [qrow 1 0 0 0 0; qrow 1 2 2 2 0; qrow 1 4 4 4 0;
                qrow 1 6 6 6 0; qrow 1 8 8 8 0; qrow 1 10 10 10 0]
  = Ok [qrow 1 0 0 0 0; qrow 1 1 0 0 0; qrow 1 2 2 2 0; qrow 1 3 2 2 0;
        qrow 1 4 4 4 0; qrow 1 5 4 4 0; qrow 1 6 6 6 0; qrow 1 7 6 6 0;
        qrow 1 8 8 8 0; qrow 1 9 8 8 0; qrow 1 10 10 10 0].
Proof. vm_compute. reflexivity. Qed.

(** ** Facts about the primitives *)

Lemma bind_Ok {A B : Type} (m : result A) (f : A -> result B) (b : B) :
  m ≫= f = Ok b -> exists a, m = Ok a /\ f a = Ok b.
Proof. destruct m as [a|e]; simpl; [eauto | discriminate]. Qed.

Lemma py_range_nil (a b : Z) : b <= a -> py_range a b = [].
Proof.
  intros Hle. unfold py_range.
  replace (Z.to_nat (b - a)) with 0%nat by lia. reflexivity.
Qed.

Lemma py_range_cons (a b : Z) : a < b -> py_range a b = a :: py_range (a + 1) b.
Proof.
  intros Hlt. unfold py_range.
  replace (Z.to_nat (b - a)) with (S (Z.to_nat (b - (a + 1)))) by lia.
  simpl. f_equal; [lia |].
  rewrite <- seq_shift, map_map. apply map_ext. intros i. lia.
Qed.

Lemma py_range_length (a b : Z) : length (py_range a b) = Z.to_nat (b - a).
Proof. unfold py_range. now rewrite length_map, length_seq. Qed.

Lemma py_range_lookup (a b : Z) (k : nat) :
  (k < Z.to_nat (b - a))%nat -> py_range a b !! k = Some (a + Z.of_nat k).
Proof.
  intros Hk. unfold py_range.
  rewrite list_lookup_fmap, lookup_seq_lt by exact Hk. reflexivity.
Qed.

Lemma norm_index_nonneg (n i : Z) :
  0 <= i < n -> norm_index n i = Ok (Z.to_nat i).
Proof.
  intros Hi. unfold norm_index.
  destruct (Z.ltb_spec i 0); [lia |].
  destruct (Z.leb_spec 0 i); [| lia].
  destruct (Z.ltb_spec i n); [| lia]. reflexivity.
Qed.

Lemma norm_index_Ok (n i : Z) (j : nat) :
  norm_index n i = Ok j ->
  Z.of_nat j = (if i <? 0 then i + n else i) /\ Z.of_nat j < n /\ -n <= i < n.
Proof.
  unfold norm_index. intros Hn.
  destruct (Z.ltb_spec i 0) as [Hi|Hi].
  - destruct (Z.leb_spec 0 (i + n)); [| discriminate].
    destruct (Z.ltb_spec (i + n) n); [| discriminate].
    inversion Hn; subst. lia.
  - destruct (Z.leb_spec 0 i); [| discriminate].
    destruct (Z.ltb_spec i n); [| discriminate].
    inversion Hn; subst. lia.
Qed.

Lemma py_index_nonneg {A : Type} (l : list A) (i : Z) (a : A) :
  0 <= i -> l !! Z.to_nat i = Some a -> py_index l i = Ok a.
Proof.
  intros Hi Hl. unfold py_index.
  apply lookup_lt_Some in Hl as Hlt.
  rewrite norm_index_nonneg by (unfold len; lia).
  simpl. now rewrite Hl.
Qed.

Lemma py_index_valid {A : Type} (l : list A) (i : Z) :
  - len l <= i < len l -> exists a, py_index l i = Ok a.
Proof.
  intros Hi. unfold py_index, norm_index.
  set (j := if i <? 0 then i + len l else i).
  assert (Hj : 0 <= j < len l) by (subst j; destruct (Z.ltb_spec i 0); lia).
  destruct (Z.leb_spec 0 j); [| lia].
  destruct (Z.ltb_spec j (len l)); [| lia]. simpl.
  destruct (l !! Z.to_nat j) as [a|] eqn:Hl; [eauto |].
  apply lookup_ge_None in Hl. unfold len in *. lia.
Qed.

Lemma frames_check_true (l : list Z) : frames_check l = true <-> nondecreasing l.
Proof.
  unfold frames_check. induction l as [|a [|b l'] IH]; simpl.
  - split; [| reflexivity]. intros _ i x y Hx. discriminate.
  - split; [| reflexivity]. intros _ [|i] x y Hx Hy; discriminate.
  - simpl in IH. rewrite andb_true_iff, IH, Z.eqb_eq. split.
    + intros [Hd Hnd] [|i] x y Hx Hy.
      * simpl in Hx, Hy. inversion Hx; inversion Hy; subst. lia.
      * exact (Hnd i x y Hx Hy).
    + intros Hnd. split.
      * specialize (Hnd 0%nat a b eq_refl eq_refl). lia.
      * intros i x y Hx Hy. exact (Hnd (S i) x y Hx Hy).
Qed.

Lemma frames_check_false (l : list Z) : frames_check l = false <-> has_decreasing_pair l.
Proof.
  unfold frames_check. induction l as [|a [|b l'] IH]; simpl.
  - split; [discriminate |]. intros (i & x & y & Hx & _). discriminate.
  - split; [discriminate |]. intros ([|i] & x & y & Hx & Hy & _); discriminate.
  - simpl in IH. rewrite andb_false_iff, IH, Z.eqb_neq. split.
    + intros [Hd | (i & x & y & Hx & Hy & Hlt)].
      * exists 0%nat, a, b. repeat split; [reflexivity.. | lia].
      * exists (S i), x, y. auto.
    + intros ([|i] & x & y & Hx & Hy & Hlt).
      * simpl in Hx, Hy. inversion Hx; inversion Hy; subst. left. lia.
      * right. exists i, x, y. auto.
Qed.

Lemma increasing_nondecreasing (l : list Z) : increasing l -> nondecreasing l.
Proof. intros Hi i a b Ha Hb. specialize (Hi i a b Ha Hb). lia. Qed.

Lemma nondecreasing_tail (a : Z) (l : list Z) :
  nondecreasing (a :: l) -> nondecreasing l.
Proof. intros Hnd i x y Hx Hy. exact (Hnd (S i) x y Hx Hy). Qed.

Lemma foldl_max_ge (l : list Z) (a : Z) : a <= foldl Z.max a l.
Proof.
  revert a. induction l as [|b l IH]; intros a; simpl; [lia |].
  specialize (IH (Z.max a b)). lia.
Qed.

Lemma foldl_min_le (l : list Z) (a : Z) : foldl Z.min a l <= a.
Proof.
  revert a. induction l as [|b l IH]; intros a; simpl; [lia |].
  specialize (IH (Z.min a b)). lia.
Qed.

(** In a non-decreasing sequence the maximum is the last element and the
    minimum the first. *)
Lemma foldl_max_last (l : list Z) (a : Z) :
  nondecreasing (a :: l) -> (a :: l) !! length l = Some (foldl Z.max a l).
Proof.
  revert a. induction l as [|b l IH]; intros a Hnd; [reflexivity |].
  change (foldl Z.max a (b :: l)) with (foldl Z.max (Z.max a b) l).
  assert (Hab : a <= b) by exact (Hnd 0%nat a b eq_refl eq_refl).
  rewrite Z.max_r by exact Hab.
  exact (IH b (nondecreasing_tail _ _ Hnd)).
Qed.

Lemma nondecreasing_head_le (l : list Z) (a : Z) (i : nat) (x : Z) :
  nondecreasing (a :: l) -> (a :: l) !! i = Some x -> a <= x.
Proof.
  revert a i. induction l as [|b l IH]; intros a i Hnd Hx.
  - destruct i as [|[|i]]; simpl in Hx; inversion Hx; subst; lia.
  - destruct i as [|i]; [simpl in Hx; inversion Hx; lia |].
    assert (Hab : a <= b) by exact (Hnd 0%nat a b eq_refl eq_refl).
    specialize (IH b i (nondecreasing_tail _ _ Hnd) Hx). lia.
Qed.

Lemma foldl_min_first (l : list Z) (a : Z) :
  nondecreasing (a :: l) -> foldl Z.min a l = a.
Proof.
  revert a. induction l as [|b l IH]; intros a Hnd; [reflexivity |].
  change (foldl Z.min a (b :: l)) with (foldl Z.min (Z.min a b) l).
  assert (Hab : a <= b) by exact (Hnd 0%nat a b eq_refl eq_refl).
  rewrite Z.min_l by exact Hab.
  assert (Hnd' : nondecreasing (a :: l)).
  { intros [|i] x y Hx Hy.
    - simpl in Hx. inversion Hx; subst.
      apply (nondecreasing_head_le (b :: l) x 2 y Hnd). exact Hy.
    - exact (Hnd (S (S i)) x y Hx Hy). }
  exact (IH a Hnd').
Qed.

(** ** The filler: the loop never leaves its arrays *)

Section FillFacts.
Context {F : Type} `{Float F}.

Lemma set_frames_length (s : Z) (l : list (row F)) :
  length (Fill.set_frames s l) = length l.
Proof. unfold Fill.set_frames. apply length_imap. Qed.

Lemma set_frames_frame (s : Z) (l : list (row F)) :
  map frame (Fill.set_frames s l) = py_range s (s + len l).
Proof.
  apply list_eq. intros k. unfold Fill.set_frames.
  rewrite list_lookup_fmap, list_lookup_imap.
  destruct (l !! k) as [r|] eqn:Hl; simpl.
  - apply lookup_lt_Some in Hl. rewrite py_range_lookup by (unfold len; lia).
    reflexivity.
  - apply lookup_ge_None in Hl. symmetry. apply lookup_ge_None.
    rewrite py_range_length. unfold len. lia.
Qed.

Lemma set_frames_lookup (s : Z) (l : list (row F)) (k : nat) (r : row F) :
  l !! k = Some r ->
  Fill.set_frames s l !! k = Some (Row (tid r) (s + Z.of_nat k) (px r) (py r) (pz r)).
Proof.
  intros Hl. unfold Fill.set_frames. rewrite list_lookup_imap, Hl. reflexivity.
Qed.

Lemma fill_inv_length (mn newshap : Z) (st : Fill.state F) :
  fill_inv mn newshap st -> length (Fill.filledin st) = Z.to_nat newshap.
Proof.
  intros Hinv. rewrite <- (length_map frame), Hinv, py_range_length. f_equal. lia.
Qed.

Lemma fill_inv_lookup (mn newshap : Z) (st : Fill.state F) (num : Z) :
  fill_inv mn newshap st -> 0 <= num < newshap ->
  exists r, Fill.filledin st !! Z.to_nat num = Some r /\ frame r = mn + num.
Proof.
  intros Hinv Hnum.
  assert (Hl : map frame (Fill.filledin st) !! Z.to_nat num = Some (mn + num)).
  { rewrite Hinv, py_range_lookup by lia. f_equal. lia. }
  rewrite list_lookup_fmap in Hl.
  destruct (Fill.filledin st !! Z.to_nat num) as [r|]; [| discriminate].
  exists r. split; [reflexivity |]. simpl in Hl. congruence.
Qed.

(** One iteration, with the cursor [num - new - 1] inside the input: the
    iteration raises nothing, keeps the frame column, and leaves the cursor
    inside the input for the next iteration. *)
Lemma step_ok (data : list (row F)) (mn mx : Z) (st : Fill.state F) (num : Z) :
  nondecreasing (map frame data) ->
  map frame data !! (length data - 1)%nat = Some mx ->
  fill_inv mn (mx + 1 - mn) st ->
  1 <= num < mx + 1 - mn ->
  0 <= num - Fill.new st - 1 < len data ->
  exists st', Fill.step data st num = Ok st'
    /\ fill_inv mn (mx + 1 - mn) st'
    /\ (num + 1 < mx + 1 - mn -> 0 <= num + 1 - Fill.new st' - 1 < len data).
Proof.
  intros Hnd Hlast Hinv Hnum Hcur.
  destruct (fill_inv_lookup _ _ _ num Hinv) as (cur & Hcurl & Hcurf); [lia |].
  pose proof (fill_inv_length _ _ _ Hinv) as Hlen.
  unfold Fill.step.
  rewrite (py_index_nonneg (Fill.filledin st) num cur) by (lia || exact Hcurl). simpl.
  destruct (py_index_valid data (num - Fill.new st - 1)) as (fr & Hfr); [lia |].
  rewrite Hfr. simpl.
  (* the cursor row lies on or before the last row *)
  assert (Hfrl : data !! Z.to_nat (num - Fill.new st - 1) = Some fr).
  { unfold py_index in Hfr. rewrite norm_index_nonneg in Hfr by lia. simpl in Hfr.
    destruct (data !! Z.to_nat (num - Fill.new st - 1)); congruence. }
  assert (Hnotlast : frame fr < mx -> num - Fill.new st - 1 + 1 < len data).
  { intros Hlt. unfold len in *.
    destruct (decide (Z.to_nat (num - Fill.new st - 1) = (length data - 1)%nat))
      as [Heq|Hne]; [| lia].
    rewrite Heq in Hfrl. rewrite list_lookup_fmap, Hfrl in Hlast.
    simpl in Hlast. inversion Hlast. lia. }
  set (d := frame cur - frame fr).
  assert (Hsrc : exists src,
    py_index data (num - (if d =? 0 then Fill.new st
                          else if d <? 0 then Fill.new st + 1 else Fill.new st) - 1)
    = Ok src).
  { apply py_index_valid.
    destruct (d =? 0); [lia |]. destruct (d <? 0); lia. }
  destruct Hsrc as (src & Hsrc). rewrite Hsrc. simpl.
  rewrite norm_index_nonneg by (unfold len; lia). simpl.
  eexists. split; [reflexivity |]. split.
  - unfold fill_inv in *. simpl.
    rewrite list_fmap_insert. simpl. rewrite list_insert_id; [exact Hinv |].
    rewrite list_lookup_fmap, Hcurl. reflexivity.
  - simpl. intros Hnext. subst d.
    destruct (Z.eqb_spec (frame cur - frame fr) 0) as [Hd|Hd].
    + assert (frame fr < mx) by lia. specialize (Hnotlast ltac:(assumption)). lia.
    + destruct (Z.ltb_spec (frame cur - frame fr) 0) as [Hd'|Hd'].
      * lia.
      * assert (frame fr < mx) by lia. specialize (Hnotlast ltac:(assumption)). lia.
Qed.

Lemma loop_ok (data : list (row F)) (mn mx : Z) :
  nondecreasing (map frame data) ->
  map frame data !! (length data - 1)%nat = Some mx ->
  forall (k : nat) (num : Z) (st : Fill.state F),
    num + Z.of_nat k = mx + 1 - mn ->
    1 <= num ->
    fill_inv mn (mx + 1 - mn) st ->
    (num < mx + 1 - mn -> 0 <= num - Fill.new st - 1 < len data) ->
    exists st', for_each (Fill.step data) (py_range num (mx + 1 - mn)) st = Ok st'
      /\ fill_inv mn (mx + 1 - mn) st'.
Proof.
  intros Hnd Hlast. induction k as [|k IH]; intros num st Hk Hnum Hinv Hcur.
  - rewrite py_range_nil by lia. simpl. eauto.
  - rewrite py_range_cons by lia. simpl.
    destruct (step_ok data mn mx st num Hnd Hlast Hinv) as (st1 & Hst & Hinv1 & Hcur1);
      [lia | apply Hcur; lia |].
    rewrite Hst.
    apply (IH (num + 1) st1); [lia | lia | exact Hinv1 |].
    intros Hlt. specialize (Hcur1 Hlt). lia.
Qed.

(** [fillin2] on a non-empty input with non-decreasing frames returns, and
    the frame column of what it returns is the range from the smallest to
    the largest input frame. *)
Lemma fillin2_ok (data : list (row F)) :
  data <> [] ->
  nondecreasing (map frame data) ->
  exists (out : list (row F)) (mn mx : Z),
    py_min (map frame data) = Ok mn /\ py_max (map frame data) = Ok mx
    /\ mn <= mx
    /\ Fill.fillin2 data = Ok out
    /\ map frame out = py_range mn (mx + 1).
Proof.
  intros Hne Hnd. destruct data as [|r0 data']; [congruence |].
  unfold Fill.fillin2.
  pose proof (proj2 (frames_check_true _) Hnd) as Hchk. rewrite Hchk.
  cbn [negb].
  destruct (Z.ltb_spec 0 (len (r0 :: data'))) as [Hlen|Hlen];
    [| unfold len in Hlen; simpl in Hlen; lia].
  cbn [negb map py_max py_min mbind result_bind].
  set (mx := foldl Z.max (frame r0) (map frame data')).
  set (mn := foldl Z.min (frame r0) (map frame data')).
  assert (Hmnmx : mn <= mx).
  { pose proof (foldl_max_ge (map frame data') (frame r0)).
    pose proof (foldl_min_le (map frame data') (frame r0)). subst mn mx. lia. }
  assert (Hmn : mn = frame r0) by (apply foldl_min_first; exact Hnd).
  assert (Hlast : map frame (r0 :: data') !! (length (r0 :: data') - 1)%nat = Some mx).
  { pose proof (foldl_max_last (map frame data') (frame r0) Hnd) as Hl.
    rewrite length_map in Hl.
    replace (length (r0 :: data') - 1)%nat with (length data') by (simpl; lia).
    exact Hl. }
  rewrite (py_index_nonneg (r0 :: data') 0 r0) by (lia || reflexivity).
  cbn [mbind result_bind].
  rewrite norm_index_nonneg by (unfold len; rewrite length_replicate; lia).
  cbn [mbind result_bind].
  match goal with
  | |- context [for_each _ _ ?s] => set (st0 := s)
  end.
  assert (Hinv0 : fill_inv mn (mx + 1 - mn) st0).
  { unfold fill_inv. subst st0. cbn [Fill.filledin].
    rewrite set_frames_frame. unfold len.
    rewrite length_insert, length_replicate. f_equal. lia. }
  destruct (loop_ok (r0 :: data') mn mx Hnd Hlast (Z.to_nat (mx - mn)) 1 st0)
    as (st' & Hloop & Hinv'); [lia | lia | exact Hinv0 | |].
  { intros _. subst st0. cbn [Fill.new]. lia. }
  rewrite Hloop. cbn [mbind result_bind].
  exists (Fill.filledin st'), mn, mx.
  repeat split; try reflexivity; [exact Hmnmx |].
  rewrite Hinv'. f_equal. lia.
Qed.

End FillFacts.

(** ** The filler: claims *)

(** C6.  For every non-empty trajectory whose frames pass the check of
    [fillin2] (non-decreasing, which covers every strictly increasing
    one), [fillin2] returns; the output has exactly
    [max_frame - min_frame + 1] rows and its frame column is the ascending
    integer range from [min_frame] to [max_frame], without duplicates or
    gaps. *)
Theorem fillin2_frames_contiguous {F : Type} `{Float F} (data : list (row F)) :
  data <> [] ->
  nondecreasing (map frame data) ->
  exists (out : list (row F)) (min_frame max_frame : Z),
    py_min (map frame data) = Ok min_frame
    /\ py_max (map frame data) = Ok max_frame
    /\ Fill.fillin2 data = Ok out
    /\ len out = max_frame - min_frame + 1
    /\ map frame out = py_range min_frame (max_frame + 1)
    /\ NoDup (map frame out).
Proof.
  intros Hne Hnd.
  destruct (fillin2_ok data Hne Hnd) as (out & mn & mx & Hmn & Hmx & Hle & Hout & Hfr).
  exists out, mn, mx. repeat split; try assumption.
  - unfold len. rewrite <- (length_map frame), Hfr, py_range_length. lia.
  - rewrite Hfr. unfold py_range. apply NoDup_fmap_2.
    + intros i j Hij. lia.
    + apply NoDup_seq.
Qed.

Lemma fillin2_frames_contiguous_witness :
  exists (out : list (row Q)) (min_frame max_frame : Z),
    py_min (map frame [qrow 1 3 1 1 0; qrow 1 5 2 2 0; qrow 1 6 3 3 0]) = Ok min_frame
    /\ py_max (map frame [qrow 1 3 1 1 0; qrow 1 5 2 2 0; qrow 1 6 3 3 0]) = Ok max_frame
    /\ Fill.fillin2 [qrow 1 3 1 1 0; qrow 1 5 2 2 0; qrow 1 6 3 3 0] = Ok out
    /\ len out = max_frame - min_frame + 1
    /\ map frame out = py_range min_frame (max_frame + 1)
    /\ NoDup (map frame out).
Proof.
  apply (fillin2_frames_contiguous [qrow 1 3 1 1 0; qrow 1 5 2 2 0; qrow 1 6 3 3 0]).
  - discriminate.
  - apply frames_check_true. reflexivity.
Defined.

(** C2 (fails on the code).  A dense three-frame trajectory is not
    returned unchanged: from the second row on, every output row carries
    the coordinates of the previous input row, and the last observation
    is lost. *)
Theorem fillin2_dense_not_identity :
  Fill.fillin2 [qrow 1 0 10 10 0; qrow 1 1 20 20 0; qrow 1 2 30 30 0]
  = Ok [qrow 1 0 10 10 0; qrow 1 1 10 10 0; qrow 1 2 20 20 0]
  /\ Fill.fillin2 [qrow 1 0 10 10 0; qrow 1 1 20 20 0; qrow 1 2 30 30 0]
     <> Ok [qrow 1 0 10 10 0; qrow 1 1 20 20 0; qrow 1 2 30 30 0].
Proof. split; [vm_compute; reflexivity | vm_compute; discriminate]. Qed.

(** C3 as stated fails: a trajectory with two particle ids and one with
    two equal consecutive frames are both accepted. *)
Lemma fillin2_accepts_mixed_ids :
  map tid [qrow 1 0 10 10 0; qrow 2 1 20 20 0] = [1; 2]
  /\ Fill.fillin2 [qrow 1 0 10 10 0; qrow 2 1 20 20 0]
     = Ok [qrow 1 0 10 10 0; qrow 1 1 10 10 0]
  /\ Fill.fillin2 [qrow 1 0 10 10 0; qrow 1 0 20 20 0]
     = Ok [qrow 1 0 10 10 0].
Proof. repeat split; vm_compute; reflexivity. Qed.

(** C3, amended.  [fillin2] raises an [AssertionError] when its input is
    empty and when two consecutive frames decrease; on every non-empty
    input with strictly increasing frames it returns, whatever the
    particle ids, and the frames of the output ascend from the first input
    frame to the last. *)
Theorem fillin2_validation {F : Type} `{Float F} (data : list (row F)) :
  (data = [] -> Fill.fillin2 data = Err (AssertionError "Array must not be empty."))
  /\ (has_decreasing_pair (map frame data) ->
      Fill.fillin2 data = Err (AssertionError "Frames must all increase."))
  /\ (data <> [] -> increasing (map frame data) ->
      exists (out : list (row F)) (first last : Z),
        map frame data !! 0%nat = Some first
        /\ map frame data !! (length data - 1)%nat = Some last
        /\ Fill.fillin2 data = Ok out
        /\ map frame out = py_range first (last + 1)).
Proof.
  split; [| split].
  - intros ->. reflexivity.
  - intros Hdec. apply frames_check_false in Hdec.
    unfold Fill.fillin2. rewrite Hdec. reflexivity.
  - intros Hne Hinc. apply increasing_nondecreasing in Hinc as Hnd.
    destruct (fillin2_ok data Hne Hnd)
      as (out & mn & mx & Hmn & Hmx & Hle & Hout & Hfr).
    destruct data as [|r0 data']; [congruence |].
    simpl in Hmn, Hmx. inversion Hmn; inversion Hmx; subst.
    exists out, (frame r0), (foldl Z.max (frame r0) (map frame data')).
    split; [reflexivity |]. split.
    + pose proof (foldl_max_last (map frame data') (frame r0) Hnd) as Hl.
      rewrite length_map in Hl.
      replace (length (r0 :: data') - 1)%nat with (length data') by (simpl; lia).
      exact Hl.
    + split; [exact Hout |].
      rewrite Hfr. f_equal. apply foldl_min_first. exact Hnd.
Qed.

Lemma fillin2_validation_witness :
  Fill.fillin2 (F:=Q) [] = Err (AssertionError "Array must not be empty.")
  /\ Fill.fillin2 [qrow 1 3 10 10 0; qrow 1 2 20 20 0]
     = Err (AssertionError "Frames must all increase.")
  /\ exists (out : list (row Q)) (first last : Z),
       map frame [qrow 1 0 10 10 0; qrow 2 4 20 20 0] !! 0%nat = Some first
       /\ map frame [qrow 1 0 10 10 0; qrow 2 4 20 20 0] !! 1%nat = Some last
       /\ Fill.fillin2 [qrow 1 0 10 10 0; qrow 2 4 20 20 0] = Ok out
       /\ map frame out = py_range first (last + 1).
Proof.
  split; [| split].
  - apply (proj1 (fillin2_validation (F:=Q) [])). reflexivity.
  - apply (proj1 (proj2 (fillin2_validation [qrow 1 3 10 10 0; qrow 1 2 20 20 0]))).
    exists 0%nat, 3, 2. repeat split.
  - apply (proj2 (proj2 (fillin2_validation [qrow 1 0 10 10 0; qrow 2 4 20 20 0]))).
    + discriminate.
    + intros [|[|i]] a b Ha Hb; simpl in Ha, Hb; inversion Ha; inversion Hb; lia.
Defined.

(** ** The filler on a trajectory without gaps *)

Section FillDense.
Context {F : Type} `{Float F}.

Lemma dense_nondecreasing (l : list Z) : dense l -> nondecreasing l.
Proof. intros Hd i a b Ha Hb. specialize (Hd i a b Ha Hb). lia. Qed.

Lemma dense_lookup (l : list Z) (a : Z) (k : nat) (x : Z) :
  dense (a :: l) -> (a :: l) !! k = Some x -> x = a + Z.of_nat k.
Proof.
  intros Hd. revert x. induction k as [|k IH]; intros x Hx.
  - simpl in Hx. inversion Hx. lia.
  - destruct ((a :: l) !! k) as [y|] eqn:Hy.
    + specialize (IH y eq_refl). specialize (Hd k y x Hy Hx). lia.
    + apply lookup_ge_None in Hy. apply lookup_lt_Some in Hx. lia.
Qed.

(** The rows the loop has written after the iterations [1 .. m - 1] on a
    trajectory without gaps. *)
Lemma dense_step (data : list (row F)) (f0 : Z) (st : Fill.state F) (m : nat) :
  (forall (k : nat) (r : row F), data !! k = Some r -> frame r = f0 + Z.of_nat k) ->
  fill_inv f0 (len data) st ->
  Fill.new st = 0 ->
  (1 <= m < length data)%nat ->
  exists (st' : Fill.state F) (src cur : row F),
    Fill.step data st (Z.of_nat m) = Ok st'
    /\ data !! (m - 1)%nat = Some src
    /\ Fill.new st' = 0
    /\ fill_inv f0 (len data) st'
    /\ Fill.filledin st'
       = <[m := Row (tid src) (f0 + Z.of_nat m) (px src) (py src) (pz src)]>
           (Fill.filledin st).
Proof.
  intros Hframes Hinv Hnew Hm.
  destruct (fill_inv_lookup _ _ _ (Z.of_nat m) Hinv) as (cur & Hcur & Hcurf);
    [unfold len; lia |].
  rewrite Nat2Z.id in Hcur.
  pose proof (fill_inv_length _ _ _ Hinv) as Hlen. unfold len in Hlen.
  rewrite Nat2Z.id in Hlen.
  destruct (lookup_lt_is_Some_2 data (m - 1)%nat ltac:(lia)) as (src & Hsrc).
  pose proof (Hframes _ _ Hsrc) as Hsrcf.
  unfold Fill.step.
  rewrite (py_index_nonneg (Fill.filledin st) (Z.of_nat m) cur)
    by (lia || (rewrite Nat2Z.id; exact Hcur)).
  cbn [mbind result_bind]. rewrite Hnew.
  replace (Z.of_nat m - 0 - 1) with (Z.of_nat (m - 1)) by lia.
  rewrite (py_index_nonneg data (Z.of_nat (m - 1)) src)
    by (lia || (rewrite Nat2Z.id; exact Hsrc)).
  cbn [mbind result_bind].
  replace (frame cur - frame src) with 1 by lia.
  change (1 =? 0) with false. change (1 <? 0) with false. cbv iota.
  replace (Z.of_nat m - 0 - 1) with (Z.of_nat (m - 1)) by lia.
  rewrite (py_index_nonneg data (Z.of_nat (m - 1)) src)
    by (lia || (rewrite Nat2Z.id; exact Hsrc)).
  cbn [mbind result_bind].
  rewrite norm_index_nonneg by (unfold len; lia).
  cbn [mbind result_bind]. rewrite Nat2Z.id.
  eexists _, src, cur. split; [reflexivity |].
  split; [exact Hsrc |]. split; [reflexivity |]. split.
  - unfold fill_inv in *. cbn [Fill.filledin].
    change (map frame ?l) with (frame <$> l).
    rewrite list_fmap_insert. cbn [frame].
    rewrite list_insert_id; [exact Hinv |].
    rewrite list_lookup_fmap, Hcur. reflexivity.
  - cbn [Fill.filledin]. rewrite Hcurf. reflexivity.
Qed.

Lemma dense_loop (data : list (row F)) (f0 : Z) :
  (forall (k : nat) (r : row F), data !! k = Some r -> frame r = f0 + Z.of_nat k) ->
  forall (j m : nat) (st : Fill.state F),
    (m + j = length data)%nat -> (1 <= m)%nat ->
    fill_inv f0 (len data) st ->
    Fill.new st = 0 ->
    exists st' : Fill.state F,
      for_each (Fill.step data) (py_range (Z.of_nat m) (len data)) st = Ok st'
      /\ length (Fill.filledin st') = length data
      /\ (forall k : nat, (k < m)%nat ->
            Fill.filledin st' !! k = Fill.filledin st !! k)
      /\ (forall (k : nat) (src : row F), (m <= k)%nat -> data !! (k - 1)%nat = Some src ->
            (k < length data)%nat ->
            Fill.filledin st' !! k
            = Some (Row (tid src) (f0 + Z.of_nat k) (px src) (py src) (pz src))).
Proof.
  intros Hframes. induction j as [|j IH]; intros m st Hmj Hm Hinv Hnew.
  - rewrite py_range_nil by (unfold len; lia). simpl. exists st.
    split; [reflexivity |]. split.
    + rewrite (fill_inv_length _ _ _ Hinv). unfold len. lia.
    + split; [reflexivity |]. intros k src Hk _ Hlt. lia.
  - rewrite py_range_cons by (unfold len; lia). cbn [for_each].
    destruct (dense_step data f0 st m Hframes Hinv Hnew ltac:(lia))
      as (st1 & src & cur & Hstep & Hsrc & Hnew1 & Hinv1 & Hfilled).
    rewrite Hstep.
    replace (Z.of_nat m + 1) with (Z.of_nat (S m)) by lia.
    destruct (IH (S m) st1 ltac:(lia) ltac:(lia) Hinv1 Hnew1)
      as (st' & Hloop & Hlen & Hbelow & Habove).
    exists st'. split; [exact Hloop |]. split; [exact Hlen |].
    pose proof (fill_inv_length _ _ _ Hinv) as Hlen0. unfold len in Hlen0.
    rewrite Nat2Z.id in Hlen0. split.
    + intros k Hk. rewrite Hbelow by lia. rewrite Hfilled.
      apply list_lookup_insert_ne. lia.
    + intros k src' Hk Hsrc' Hlt.
      destruct (decide (k = m)) as [->|Hne].
      * rewrite Hbelow by lia. rewrite Hfilled.
        rewrite list_lookup_insert_eq by lia. congruence.
      * apply Habove; [lia | exact Hsrc' | exact Hlt].
Qed.

(** On every trajectory without gaps, [fillin2] returns the trajectory
    lagged by one row. *)
Lemma fillin2_dense (data : list (row F)) :
  data <> [] -> dense (map frame data) -> Fill.fillin2 data = Ok (lagged data).
Proof.
  intros Hne Hdense. destruct data as [|r0 data']; [congruence |].
  pose proof (dense_nondecreasing _ Hdense) as Hnd.
  assert (Hframes : forall (k : nat) (r : row F),
            (r0 :: data') !! k = Some r -> frame r = frame r0 + Z.of_nat k).
  { intros k r Hr. apply (dense_lookup (map frame data') (frame r0) k).
    - exact Hdense.
    - change (frame r0 :: map frame data') with (frame <$> (r0 :: data')).
      rewrite list_lookup_fmap, Hr. reflexivity. }
  unfold Fill.fillin2.
  rewrite (proj2 (frames_check_true _) Hnd). cbn [negb].
  destruct (Z.ltb_spec 0 (len (r0 :: data'))) as [Hlen|Hlen];
    [| unfold len in Hlen; simpl in Hlen; lia].
  cbn [negb map py_max py_min mbind result_bind].
  rewrite (foldl_min_first (map frame data') (frame r0) Hnd).
  assert (Hmx : foldl Z.max (frame r0) (map frame data')
                = frame r0 + Z.of_nat (length data')).
  { pose proof (foldl_max_last (map frame data') (frame r0) Hnd) as Hl.
    rewrite length_map in Hl.
    apply (dense_lookup (map frame data') (frame r0) (length data') _ Hdense Hl). }
  rewrite Hmx.
  replace (frame r0 + Z.of_nat (length data') + 1 - frame r0)
    with (len (r0 :: data')) by (unfold len; cbn [length]; lia).
  rewrite (py_index_nonneg (r0 :: data') 0 r0) by (lia || reflexivity).
  cbn [mbind result_bind].
  rewrite norm_index_nonneg
    by (unfold len; rewrite length_replicate; cbn [length]; lia).
  cbn [mbind result_bind].
  match goal with
  | |- context [for_each _ _ ?s] => set (st0 := s)
  end.
  assert (Hinv0 : fill_inv (frame r0) (len (r0 :: data')) st0).
  { unfold fill_inv. subst st0. cbn [Fill.filledin].
    rewrite set_frames_frame. unfold len.
    rewrite length_insert, length_replicate. f_equal. lia. }
  destruct (dense_loop (r0 :: data') (frame r0) Hframes (length data') 1 st0)
    as (st' & Hloop & Hlen' & Hbelow & Habove);
    [simpl; lia | lia | exact Hinv0 | reflexivity |].
  change (Z.of_nat 1) with 1 in Hloop. rewrite Hloop. cbn [mbind result_bind].
  f_equal. apply list_eq. intros k.
  destruct k as [|k].
  - rewrite Hbelow by lia. subst st0. cbn [Fill.filledin].
    change (Z.to_nat 0) with 0%nat.
    erewrite set_frames_lookup.
    2:{ apply list_lookup_insert_eq. rewrite length_replicate.
        unfold len. simpl. lia. }
    simpl. destruct r0; simpl. do 2 f_equal. lia.
  - unfold lagged. rewrite lookup_cons_ne_0 by lia. simpl Nat.pred.
    rewrite lookup_zip_with.
    destruct ((r0 :: data') !! k) as [src|] eqn:Hsrc.
    + cbn [mbind option_bind].
      destruct (decide (S k < length (r0 :: data'))%nat) as [Hlt|Hge].
      * rewrite py_range_lookup by (unfold len; simpl in *; lia).
        cbn [mbind option_bind].
        rewrite (Habove (S k) src) by (simpl; try rewrite Nat.sub_0_r; assumption || lia).
        do 2 f_equal. lia.
      * rewrite (proj2 (lookup_ge_None _ _)) by (rewrite Hlen'; lia).
        rewrite (proj2 (lookup_ge_None _ _))
          by (rewrite py_range_length; unfold len; simpl in *; lia).
        reflexivity.
    + cbn [mbind option_bind]. apply lookup_ge_None in Hsrc.
      apply lookup_ge_None. rewrite Hlen'. simpl in *. lia.
Qed.

End FillDense.

(** ** Slices and columns *)

Lemma norm_bound_range (n i : Z) : 0 <= n -> 0 <= norm_bound n i <= n.
Proof. intros Hn. unfold norm_bound. destruct (Z.ltb_spec i 0); lia. Qed.

Lemma slice_bounds_le (n a b : Z) (lo k : nat) :
  0 <= n -> slice_bounds n a b = (lo, k) -> (lo + k <= Z.to_nat n)%nat.
Proof.
  intros Hn Hs. unfold slice_bounds in Hs. inversion Hs; subst; clear Hs.
  pose proof (norm_bound_range n a Hn). pose proof (norm_bound_range n b Hn). lia.
Qed.

Lemma set_slice_length {A : Type} (l l' : list A) (a b : Z) (v : list A) :
  set_slice l a b v = Ok l' -> length l' = length l.
Proof.
  unfold set_slice. destruct (slice_bounds (len l) a b) as [lo k] eqn:Hs.
  apply slice_bounds_le in Hs; [| unfold len; lia]. unfold len in Hs.
  intros Hset.
  assert (Hgen : forall w : list A, length w = k ->
            length (take lo l ++ w ++ drop (lo + k) l) = length l).
  { intros w Hw. rewrite !length_app, length_take, length_drop, Hw. lia. }
  destruct (decide (length v = k)) as [Hv|Hv].
  - inversion Hset; subst l'. apply Hgen. exact Hv.
  - destruct v as [|x0 [|? ?]]; try discriminate.
    inversion Hset; subst l'. apply Hgen. apply length_replicate.
Qed.

Section MatrixFacts.
Context {F : Type} `{Float F}.

Lemma column_length (j : nat) (m : list (list F)) : length (column j m) = length m.
Proof. unfold column. apply length_map. Qed.

Lemma column_zeros (j r c : nat) :
  column j (replicate r (replicate c f0)) = replicate r f0.
Proof.
  unfold column. induction r as [|r IH]; [reflexivity |].
  simpl. rewrite IH. f_equal.
  destruct (replicate c f0 !! j) as [z|] eqn:Hl; [| reflexivity].
  apply lookup_replicate in Hl. simpl. tauto.
Qed.

Lemma column_write_eq (j : nat) (m : list (list F)) (newcol : list F) :
  length newcol = length m ->
  Forall (fun r => (j < length r)%nat) m ->
  column j (zip_with (fun r x => <[j := x]> r) m newcol) = newcol.
Proof.
  revert newcol. induction m as [|r m IH]; intros [|x newcol] Hlen Hall;
    try discriminate; [reflexivity |].
  inversion Hall; subst. simpl.
  rewrite list_lookup_insert_eq by assumption. simpl. f_equal.
  unfold column in IH. apply IH; [simpl in Hlen; lia | assumption].
Qed.

Lemma column_write_ne (j j' : nat) (m : list (list F)) (newcol : list F) :
  j' <> j ->
  length newcol = length m ->
  column j' (zip_with (fun r x => <[j := x]> r) m newcol) = column j' m.
Proof.
  intros Hne. revert newcol. induction m as [|r m IH]; intros [|x newcol] Hlen;
    try discriminate; [reflexivity |].
  simpl. rewrite list_lookup_insert_ne by congruence. f_equal.
  unfold column in IH. apply IH. simpl in Hlen. lia.
Qed.

Lemma write_shape (j r c : nat) (m : list (list F)) (newcol : list F) :
  length newcol = length m ->
  has_shape r c m ->
  has_shape r c (zip_with (fun r x => <[j := x]> r) m newcol).
Proof.
  intros Hlen [Hr Hc]. split.
  - rewrite length_zip_with. lia.
  - clear Hr. revert newcol Hlen. induction m as [|row m IH]; intros [|x newcol] Hlen;
      try discriminate; [constructor |].
    inversion Hc; subst. simpl. constructor.
    + rewrite length_insert. reflexivity.
    + apply IH; [assumption | simpl in Hlen; lia].
Qed.

Lemma has_shape_ncols (r c : nat) (m : list (list F)) :
  has_shape r c m -> (0 < r)%nat -> ncols m = Z.of_nat c.
Proof.
  intros [Hr Hc] Hpos. destruct m as [|row m]; [simpl in Hr; lia |].
  inversion Hc; subst. reflexivity.
Qed.

(** The effect of [m[a:b, c] = v] when it raises nothing: column [c] is
    the old column with the slice assigned, every other column and the
    shape are kept. *)
Lemma set_col_slice_Ok (r c : nat) (m m' : list (list F)) (a b i : Z) (v : list F) :
  has_shape r c m ->
  set_col_slice m a b i v = Ok m' ->
  exists j : nat,
    norm_index (ncols m) i = Ok j
    /\ set_slice (column j m) a b v = Ok (column j m')
    /\ (forall j' : nat, j' <> j -> column j' m' = column j' m)
    /\ has_shape r c m'.
Proof.
  intros Hshape Hset. unfold set_col_slice in Hset.
  apply bind_Ok in Hset as (j & Hj & Hset).
  apply bind_Ok in Hset as (newcol & Hnew & Hset).
  inversion Hset; subst m'; clear Hset.
  pose proof (set_slice_length _ _ _ _ _ Hnew) as Hlen.
  rewrite column_length in Hlen.
  exists j. split; [exact Hj |].
  assert (Hwidth : Forall (fun row => (j < length row)%nat) m).
  { apply norm_index_Ok in Hj as (_ & Hjn & _).
    destruct Hshape as [Hr Hc].
    destruct m as [|row m]; [simpl in Hjn; lia |].
    inversion Hc as [|? ? Hrow Hrest]; subst. simpl in Hjn. unfold len in Hjn.
    eapply Forall_impl; [exact Hc |]. simpl. intros row' Hrow'. lia. }
  split; [| split].
  - rewrite column_write_eq by assumption. exact Hnew.
  - intros j' Hne. apply column_write_ne; assumption.
  - apply write_shape; assumption.
Qed.

End MatrixFacts.

(** ** The assembler: the loop over the particles *)

Lemma py_range_snoc (a b : Z) : a <= b -> py_range a (b + 1) = py_range a b ++ [b].
Proof.
  intros Hle. unfold py_range.
  replace (Z.to_nat (b + 1 - a)) with (Z.to_nat (b - a) + 1)%nat by lia.
  rewrite seq_app, map_app. simpl. do 2 f_equal. lia.
Qed.

Lemma survivors_snoc (particles : list Z) (cutoff num : Z) :
  1 <= num ->
  survivors particles cutoff (num + 1)
  = survivors particles cutoff num
    ++ (if survives particles cutoff num then [num] else []).
Proof.
  intros Hnum. unfold survivors. rewrite py_range_snoc by exact Hnum.
  rewrite filter_app. f_equal.
  rewrite filter_cons, filter_nil.
  destruct (survives particles cutoff num); simpl.
  - destruct (decide (true = true)); [reflexivity | congruence].
  - destruct (decide (false = true)); [discriminate | reflexivity].
Qed.

Section AssembleFacts.
Context {F : Type} `{Float F}.
Variables (fixed : list (row F)) (particles : list Z) (cutoff : Z).
Variables (nrows nc : nat).

Lemma matrix_inv_zeros (r c : Z) (m : list (list F))
    (rows : list (row F) -> result (Z * Z)) (proj : row F -> F) :
  np_zeros r c = Ok m ->
  matrix_inv fixed particles (Z.to_nat r) (Z.to_nat c) rows proj [] m.
Proof.
  unfold np_zeros. destruct ((r <? 0) || (c <? 0)); [discriminate |].
  intros Hm. inversion Hm; subst m; clear Hm. split; [| split].
  - split; [apply length_replicate |].
    apply Forall_replicate. apply length_replicate.
  - intros k s Hk. discriminate.
  - intros j _. apply column_zeros.
Qed.

Lemma matrix_inv_keep (rows : list (row F) -> result (Z * Z)) (proj : row F -> F)
    (kept : list Z) (m : list (list F)) :
  matrix_inv fixed particles nrows nc rows proj kept m ->
  matrix_inv fixed particles nrows nc rows proj (kept ++ []) m.
Proof. now rewrite app_nil_r. Qed.

(** Writing the column of a newly kept particle [s] into the first free
    column. *)
Lemma matrix_inv_write (rows : list (row F) -> result (Z * Z)) (proj : row F -> F)
    (kept : list Z) (m m' : list (list F)) (s min1 max1 : Z)
    (hold : list (row F)) (ab : Z * Z) :
  matrix_inv fixed particles nrows nc rows proj kept m ->
  py_min (where_eq particles s) = Ok min1 ->
  py_max (where_eq particles s) = Ok max1 ->
  Assemble.fill_particle fixed min1 max1 = Ok hold ->
  rows hold = Ok ab ->
  set_col_slice m ab.1 ab.2 (len kept) (map proj hold) = Ok m' ->
  matrix_inv fixed particles nrows nc rows proj (kept ++ [s]) m'.
Proof.
  intros (Hshape & Hcols & Hfree) Hmin Hmax Hfill Hrows Hset.
  destruct (set_col_slice_Ok _ _ _ _ _ _ _ _ Hshape Hset)
    as (j & Hj & Hcol & Hother & Hshape').
  assert (Hjk : j = length kept).
  { apply norm_index_Ok in Hj as (Hj & _). unfold len in Hj.
    destruct (Z.ltb_spec (Z.of_nat (length kept)) 0); lia. }
  subst j. split; [exact Hshape' | split].
  - intros k s' Hk.
    destruct (decide (k = length kept)) as [->|Hne].
    + rewrite list_lookup_middle in Hk by reflexivity. inversion Hk; subst s'.
      unfold particle_column. rewrite Hmin, Hmax. simpl. rewrite Hfill. simpl.
      rewrite Hrows. simpl. rewrite <- (Hfree (length kept)) by lia. exact Hcol.
    + assert (Hlt : (k < length kept)%nat).
      { apply lookup_lt_Some in Hk. rewrite length_app in Hk. simpl in Hk. lia. }
      rewrite lookup_app_l in Hk by exact Hlt.
      rewrite Hother by exact Hne. apply Hcols. exact Hk.
  - intros j Hj'. rewrite length_app in Hj'. simpl in Hj'.
    rewrite Hother by lia. apply Hfree. lia.
Qed.

Lemma particle_step_inv (st st' : Assemble.state F) (num : Z) :
  1 <= num ->
  assemble_inv fixed particles cutoff nrows nc num st ->
  Assemble.particle_step fixed particles cutoff st num = Ok st' ->
  assemble_inv fixed particles cutoff nrows nc (num + 1) st'.
Proof.
  intros Hnum (Hcount & Hnones & Hx & Hy & Hxs & Hys) Hstep.
  unfold assemble_inv. rewrite survivors_snoc by exact Hnum.
  unfold Assemble.particle_step in Hstep.
  apply bind_Ok in Hstep as (min1 & Hmin & Hstep).
  apply bind_Ok in Hstep as (max1 & Hmax & Hstep).
  unfold survives. rewrite Hmin, Hmax.
  destruct (max1 - min1 <? cutoff) eqn:Hcut; simpl negb; cbv iota.
  - inversion Hstep; subst st'; clear Hstep. simpl.
    rewrite app_nil_r. repeat split; try assumption; try lia;
      first [apply Hx | apply Hy | apply Hxs | apply Hys].
  - apply bind_Ok in Hstep as (hold & Hfill & Hstep).
    apply bind_Ok in Hstep as (ab1 & Hab1 & Hstep).
    apply bind_Ok in Hstep as (x' & Hx' & Hstep).
    apply bind_Ok in Hstep as (ab2 & Hab2 & Hstep).
    apply bind_Ok in Hstep as (y' & Hy' & Hstep).
    apply bind_Ok in Hstep as (ab3 & Hab3 & Hstep).
    apply bind_Ok in Hstep as (xs' & Hxs' & Hstep).
    apply bind_Ok in Hstep as (ab4 & Hab4 & Hstep).
    apply bind_Ok in Hstep as (ys' & Hys' & Hstep).
    inversion Hstep; subst st'; clear Hstep. simpl.
    replace (num - Assemble.nones st - 1)
      with (len (survivors particles cutoff num)) in * by lia.
    split; [unfold len in *; rewrite length_app; simpl; lia |].
    split; [exact Hnones |].
    split; [| split; [| split]].
    + exact (matrix_inv_write _ _ _ _ _ _ _ _ _ _ Hx Hmin Hmax Hfill Hab1 Hx').
    + exact (matrix_inv_write _ _ _ _ _ _ _ _ _ _ Hy Hmin Hmax Hfill Hab2 Hy').
    + exact (matrix_inv_write _ _ _ _ _ _ _ _ _ _ Hxs Hmin Hmax Hfill Hab3 Hxs').
    + exact (matrix_inv_write _ _ _ _ _ _ _ _ _ _ Hys Hmin Hmax Hfill Hab4 Hys').
Qed.

Lemma particle_loop_inv (k : nat) (num : Z) (st st' : Assemble.state F) :
  1 <= num ->
  assemble_inv fixed particles cutoff nrows nc num st ->
  for_each (Assemble.particle_step fixed particles cutoff)
    (py_range num (num + Z.of_nat k)) st = Ok st' ->
  assemble_inv fixed particles cutoff nrows nc (num + Z.of_nat k) st'.
Proof.
  revert num st. induction k as [|k IH]; intros num st Hnum Hinv Hloop.
  - rewrite py_range_nil in Hloop by lia. simpl in Hloop. inversion Hloop; subst.
    replace (num + Z.of_nat 0) with num by lia. exact Hinv.
  - rewrite py_range_cons in Hloop by lia. simpl in Hloop.
    destruct (Assemble.particle_step fixed particles cutoff st num) as [st1|e] eqn:Hstep;
      [| discriminate].
    replace (num + Z.of_nat (S k)) with (num + 1 + Z.of_nat k) in * by lia.
    apply (IH (num + 1) st1); [lia | | exact Hloop].
    apply (particle_step_inv st st1 num); assumption.
Qed.

End AssembleFacts.

(** ** The assembler: from the loop to the returned matrices *)

Lemma for_each_elem {S A : Type} (body : S -> A -> result S) (l : list A)
    (st st' : S) (a : A) :
  for_each body l st = Ok st' -> a ∈ l ->
  exists s1 s2, body s1 a = Ok s2.
Proof.
  revert st. induction l as [|b l IH]; intros st Hloop Hin.
  - apply elem_of_nil in Hin. contradiction.
  - simpl in Hloop. destruct (body st b) as [st1|e] eqn:Hb; [| discriminate].
    apply elem_of_cons in Hin as [->|Hin]; [eauto |].
    exact (IH st1 Hloop Hin).
Qed.

Lemma elem_of_py_range (a b i : Z) : a <= i < b -> i ∈ py_range a b.
Proof.
  intros Hi. unfold py_range. apply list_elem_of_fmap.
  exists (Z.to_nat (i - a)). split; [lia |].
  apply elem_of_seq. lia.
Qed.

Lemma where_eq_elem (particles : list Z) (num i : Z) :
  i ∈ where_eq particles num -> num ∈ particles.
Proof.
  unfold where_eq. intros Hin.
  apply list_elem_of_omap in Hin as ([k p] & Hkp & Hsome).
  apply list_elem_of_lookup in Hkp as (n & Hn).
  rewrite list_lookup_imap in Hn.
  destruct (particles !! n) as [q|] eqn:Hq; [| discriminate].
  simpl in Hn. inversion Hn; subst.
  destruct (Z.eqb_spec p num) as [->|]; [| discriminate].
  apply list_elem_of_lookup. eauto.
Qed.

Lemma py_min_Ok_elem (l : list Z) (m : Z) : py_min l = Ok m -> exists i, i ∈ l.
Proof.
  destruct l as [|a l]; [discriminate |]. intros _. exists a. apply elem_of_cons. auto.
Qed.

Lemma kept_dropped_length (particles : list Z) (cutoff : Z) (l : list Z) :
  (length (filter (fun s => survives particles cutoff s = true) l)
   + length (filter (fun s => survives particles cutoff s = false) l)
   = length l)%nat.
Proof.
  induction l as [|a l IH]; [reflexivity |].
  rewrite !filter_cons.
  destruct (survives particles cutoff a); simpl;
    repeat case_decide; try congruence; simpl; lia.
Qed.

Section TakeCols.
Context {F : Type} `{Float F}.

Lemma py_slice_prefix (r : list F) (n : Z) :
  0 <= n <= len r -> py_slice r 0 n = take (Z.to_nat n) r.
Proof.
  intros Hn. unfold py_slice, slice_bounds, norm_bound. unfold len in *.
  destruct (Z.ltb_spec 0 0); [lia |]. destruct (Z.ltb_spec n 0); [lia |].
  rewrite (Z.min_l 0) by lia. rewrite (Z.min_l n) by lia.
  rewrite drop_0. f_equal. lia.
Qed.

Lemma take_cols_shape (nrows nc : nat) (n : Z) (m : list (list F)) :
  has_shape nrows nc m -> 0 <= n <= Z.of_nat nc ->
  has_shape nrows (Z.to_nat n) (Assemble.take_cols n m).
Proof.
  intros [Hr Hc] Hn. unfold Assemble.take_cols. split; [now rewrite length_map |].
  apply Forall_fmap. eapply Forall_impl; [exact Hc |].
  intros r Hlen. simpl in Hlen |- *. rewrite py_slice_prefix by (unfold len; lia).
  rewrite length_take. lia.
Qed.

Lemma take_cols_column (nrows nc : nat) (n : Z) (m : list (list F)) (k : nat) :
  has_shape nrows nc m -> 0 <= n <= Z.of_nat nc -> Z.of_nat k < n ->
  column k (Assemble.take_cols n m) = column k m.
Proof.
  intros [Hr Hc] Hn Hk. unfold Assemble.take_cols, column.
  rewrite map_map. apply Forall_fmap_ext_1.
  eapply Forall_impl; [exact Hc |].
  intros r Hlen. simpl in Hlen |- *. rewrite py_slice_prefix by (unfold len; lia).
  rewrite lookup_take_lt by lia. reflexivity.
Qed.

Lemma take_cols_empty (nrows : nat) (n : Z) (m : list (list F)) :
  has_shape nrows 0 m -> has_shape nrows 0 (Assemble.take_cols n m).
Proof.
  intros [Hr Hc]. unfold Assemble.take_cols. split; [now rewrite length_map |].
  apply Forall_fmap. eapply Forall_impl; [exact Hc |].
  intros r Hlen. simpl in Hlen |- *. destruct r; [| discriminate].
  unfold py_slice. destruct (slice_bounds (len []) 0 n) as [lo k].
  rewrite drop_nil, take_nil. reflexivity.
Qed.

End TakeCols.

Lemma foldl_max_elem (l : list Z) (a x : Z) : x ∈ a :: l -> x <= foldl Z.max a l.
Proof.
  revert a. induction l as [|b l IH]; intros a Hx.
  - apply list_elem_of_singleton in Hx. simpl. lia.
  - simpl. pose proof (foldl_max_ge l (Z.max a b)) as Hge.
    apply elem_of_cons in Hx as [Hx|Hx]; [lia |].
    apply elem_of_cons in Hx as [Hx|Hx]; [lia |].
    apply IH. apply elem_of_cons. right. exact Hx.
Qed.

Lemma py_max_ge (l : list Z) (m x : Z) : py_max l = Ok m -> x ∈ l -> x <= m.
Proof.
  destruct l as [|a l]; [discriminate |]. simpl. intros [= <-].
  apply foldl_max_elem.
Qed.

Lemma py_range_elem (a b i : Z) : i ∈ py_range a b -> a <= i < b.
Proof.
  unfold py_range. intros Hi. apply list_elem_of_fmap in Hi as (k & -> & Hk).
  apply elem_of_seq in Hk. lia.
Qed.

Lemma py_range_NoDup (a b : Z) : NoDup (py_range a b).
Proof.
  unfold py_range. apply NoDup_fmap_2; [| apply NoDup_seq].
  intros i j Hij. lia.
Qed.

(** When the ids start at 1 and every id up to the largest occurs, the
    largest id is the number of distinct ids. *)
Lemma distinct_ids (particles : list Z) (total : Z) :
  py_max particles = Ok total ->
  (forall num : Z, 1 <= num <= total -> num ∈ particles) ->
  Forall (fun p => 1 <= p) particles ->
  Z.of_nat (size (list_to_set (C:=gset Z) particles)) = total.
Proof.
  intros Hmax Hall Hpos.
  assert (Heq : list_to_set (C:=gset Z) particles
                = list_to_set (py_range 1 (total + 1))).
  { apply set_eq. intros x. rewrite !elem_of_list_to_set. split.
    - intros Hx. apply elem_of_py_range.
      pose proof (py_max_ge _ _ _ Hmax Hx).
      rewrite Forall_forall in Hpos. specialize (Hpos x Hx). simpl in Hpos. lia.
    - intros Hx. apply py_range_elem in Hx. apply Hall. lia. }
  rewrite Heq, size_list_to_set by apply py_range_NoDup.
  rewrite py_range_length.
  destruct particles as [|p particles]; [discriminate |].
  assert (Hp : p ∈ p :: particles) by (apply elem_of_cons; left; reflexivity).
  pose proof (py_max_ge _ _ _ Hmax Hp).
  rewrite Forall_forall in Hpos. specialize (Hpos p Hp). simpl in Hpos. lia.
Qed.

Section AssembleRun.
Context {F : Type} `{Float F}.

Lemma np_zeros_Ok (r c : Z) (m : list (list F)) :
  np_zeros r c = Ok m -> 0 <= r /\ 0 <= c.
Proof.
  unfold np_zeros. destruct (Z.ltb_spec r 0); [discriminate |].
  destruct (Z.ltb_spec c 0); [discriminate |]. lia.
Qed.

Lemma assemble_inv_init (fixed : list (row F)) (particles : list Z) (cutoff : Z)
    (r c : Z) (x0 y0 xs0 ys0 : list (list F)) :
  np_zeros r c = Ok x0 -> np_zeros r c = Ok y0 ->
  np_zeros r c = Ok xs0 -> np_zeros r c = Ok ys0 ->
  assemble_inv fixed particles cutoff (Z.to_nat r) (Z.to_nat c) 1
    (Assemble.State 0 x0 y0 xs0 ys0).
Proof.
  intros Hx Hy Hxs Hys. unfold assemble_inv.
  change (survivors particles cutoff 1) with (@nil Z). cbv zeta.
  split; [reflexivity |]. split; [simpl; lia |].
  split; [exact (matrix_inv_zeros fixed particles r c x0 _ _ Hx) |].
  split; [exact (matrix_inv_zeros fixed particles r c y0 _ _ Hy) |].
  split; [exact (matrix_inv_zeros fixed particles r c xs0 _ _ Hxs) |].
  exact (matrix_inv_zeros fixed particles r c ys0 _ _ Hys).
Qed.

Lemma assemble_assembled (frames : Z) (placeholder : list (row F)) (cut : Z)
    (conversion : F * F * F) (total1 : Z) (xs_m ys_m x_m y_m : list (list F)) :
  Assemble.assemble frames placeholder cut conversion
  = Ok (total1, xs_m, ys_m, x_m, y_m) ->
  exists total : Z,
    py_max (map tid placeholder) = Ok total
    /\ let particles := map tid placeholder in
       let fixed := map (Assemble.convert conversion) placeholder in
       let nrows := Z.to_nat (frames + 1) in
       let kept := survivors particles cut (total + 1) in
       (forall num : Z, 1 <= num <= total -> num ∈ particles)
       /\ (Forall (fun p => 1 <= p) particles ->
           Z.of_nat (size (list_to_set (C:=gset Z) particles)) = total)
       /\ total1 = total - len (dropped particles cut total)
       /\ (0 <= total -> total1 = len kept)
       /\ has_shape nrows (Z.to_nat total1) xs_m
       /\ has_shape nrows (Z.to_nat total1) ys_m
       /\ has_shape nrows (Z.to_nat total1) x_m
       /\ has_shape nrows (Z.to_nat total1) y_m
       /\ (forall (k : nat) (s : Z), kept !! k = Some s ->
             particle_column fixed particles nrows Assemble.rel_rows px s
               = Ok (column k xs_m)
             /\ particle_column fixed particles nrows Assemble.rel_rows py s
               = Ok (column k ys_m)
             /\ particle_column fixed particles nrows Assemble.abs_rows px s
               = Ok (column k x_m)
             /\ particle_column fixed particles nrows Assemble.abs_rows py s
               = Ok (column k y_m)).
Proof.
  intros Hasm. unfold Assemble.assemble in Hasm.
  apply bind_Ok in Hasm as (total & Htotal & Hasm).
  apply bind_Ok in Hasm as (x0 & Hx0 & Hasm).
  apply bind_Ok in Hasm as (y0 & Hy0 & Hasm).
  apply bind_Ok in Hasm as (xs0 & Hxs0 & Hasm).
  apply bind_Ok in Hasm as (ys0 & Hys0 & Hasm).
  apply bind_Ok in Hasm as (st & Hloop & Hasm).
  inversion Hasm; subst; clear Hasm.
  exists total. split; [exact Htotal |].
  set (particles := map tid placeholder).
  set (fixed := map (Assemble.convert conversion) placeholder).
  fold particles fixed in Hloop.
  pose proof (np_zeros_Ok _ _ _ Hx0) as [Hr Hc].
  pose proof (assemble_inv_init fixed particles cut _ _ _ _ _ _ Hx0 Hy0 Hxs0 Hys0)
    as Hinit.
  cbv zeta.
  assert (Hids : forall num : Z, 1 <= num <= total -> num ∈ particles).
  { intros num Hnum.
    destruct (for_each_elem _ _ _ _ num Hloop) as (s1 & s2 & Hstep);
      [apply elem_of_py_range; lia |].
    unfold Assemble.particle_step in Hstep.
    apply bind_Ok in Hstep as (min1 & Hmin & _).
    apply py_min_Ok_elem in Hmin as (i & Hi).
    exact (where_eq_elem _ _ _ Hi). }
  split; [exact Hids |].
  split; [exact (distinct_ids particles total Htotal Hids) |].
  assert (Hkd : len (survivors particles cut (total + 1))
                + len (dropped particles cut total) = Z.of_nat (Z.to_nat total)).
  { unfold survivors, dropped, len.
    pose proof (kept_dropped_length particles cut (py_range 1 (total + 1))) as Hl.
    rewrite py_range_length in Hl. lia. }
  destruct (Z.eq_dec total (-1)) as [->|Hpos].
  - (* no id above zero: the loop body never runs *)
    simpl in Hloop. inversion Hloop; subst st; clear Hloop. simpl.
    destruct Hinit as (_ & _ & (Hsx & _) & (Hsy & _) & (Hsxs & _) & (Hsys & _)).
    change (Z.to_nat (-1 + 1)) with 0%nat in *.
    change (-1 + 1 - 0 - 1) with (-1).
    change (survivors particles cut (-1 + 1)) with (@nil Z).
    change (dropped particles cut (-1)) with (@nil Z).
    split; [reflexivity |]. split; [intros Hneg; lia |].
    change (Z.to_nat (-1)) with 0%nat.
    split; [apply take_cols_empty; assumption |].
    split; [apply take_cols_empty; assumption |].
    split; [apply take_cols_empty; assumption |].
    split; [apply take_cols_empty; assumption |].
    intros k s Hk. discriminate.
  - assert (Hloop' : for_each (Assemble.particle_step fixed particles cut)
                       (py_range 1 (1 + Z.of_nat (Z.to_nat total)))
                       (Assemble.State 0 x0 y0 xs0 ys0) = Ok st).
    { replace (1 + Z.of_nat (Z.to_nat total)) with (total + 1) by lia. exact Hloop. }
    apply (particle_loop_inv fixed particles cut _ _ (Z.to_nat total) 1 _ _ ltac:(lia) Hinit)
      in Hloop'.
    replace (1 + Z.of_nat (Z.to_nat total)) with (total + 1) in Hloop' by lia.
    destruct Hloop' as (Hcount & Hnones & Hx & Hy & Hxs & Hys).
    set (kept := survivors particles cut (total + 1)) in *.
    assert (Htot1 : total + 1 - Assemble.nones st - 1 = len kept) by lia.
    rewrite Htot1.
    assert (Hbound : 0 <= len kept <= Z.of_nat (Z.to_nat (total + 1))).
    { unfold len in *. lia. }
    split; [lia |]. split; [reflexivity |].
    destruct Hx as (Hsx & Hcx & _). destruct Hy as (Hsy & Hcy & _).
    destruct Hxs as (Hsxs & Hcxs & _). destruct Hys as (Hsys & Hcys & _).
    split; [eapply take_cols_shape; eassumption |].
    split; [eapply take_cols_shape; eassumption |].
    split; [eapply take_cols_shape; eassumption |].
    split; [eapply take_cols_shape; eassumption |].
    intros k s Hk.
    assert (Hklt : Z.of_nat k < len kept).
    { apply lookup_lt_Some in Hk. unfold len. lia. }
    repeat split.
    + rewrite (take_cols_column _ _ _ _ _ Hsxs Hbound Hklt). exact (Hcxs k s Hk).
    + rewrite (take_cols_column _ _ _ _ _ Hsys Hbound Hklt). exact (Hcys k s Hk).
    + rewrite (take_cols_column _ _ _ _ _ Hsx Hbound Hklt). exact (Hcx k s Hk).
    + rewrite (take_cols_column _ _ _ _ _ Hsy Hbound Hklt). exact (Hcy k s Hk).
Qed.

End AssembleRun.

(** ** The assembler: claims *)

(** C4 (fails on the code).  One particle with two records, at frames 0
    and 5, and a cutoff of 2.  Its frame span is 5, which reaches the
    cutoff, and it has the two records the docstring of [cut] asks for;
    the code compares the span of the row indices of its records, which is
    1, with the cutoff and drops it: the assembly returns no particle and
    matrices without columns. *)
Theorem MSD_iteration_drops_frame_span :
  Assemble.load [[qrow 1 0 10 10 0; qrow 1 5 20 20 0]]
  = Ok (5, [qrow 1 0 10 10 0; qrow 1 5 20 20 0])
  /\ frame_span [qrow 1 0 10 10 0; qrow 1 5 20 20 0] 1 = Ok 5
  /\ records (map tid [qrow 1 0 10 10 0; qrow 1 5 20 20 0]) 1 = 2
  /\ survives (map tid [qrow 1 0 10 10 0; qrow 1 5 20 20 0]) 2 1 = false
  /\ Assemble.MSD_iteration [[qrow 1 0 10 10 0; qrow 1 5 20 20 0]] 2 qone
     = Ok (0, [[]; []; []; []; []; []], [[]; []; []; []; []; []],
              [[]; []; []; []; []; []], [[]; []; []; []; []; []]).
Proof. repeat split; vm_compute; reflexivity. Qed.

(** One iteration of the loop over the particles, read off its code. *)
Lemma particle_step_allocation {F : Type} `{Float F}
    (fixed : list (row F)) (particles : list Z) (cutoff : Z)
    (st st' : Assemble.state F) (num : Z) :
  Assemble.particle_step fixed particles cutoff st num = Ok st' ->
  allocation fixed particles cutoff st st' num.
Proof.
  intros Hstep. unfold Assemble.particle_step in Hstep.
  apply bind_Ok in Hstep as (min1 & Hmin & Hstep).
  apply bind_Ok in Hstep as (max1 & Hmax & Hstep).
  exists min1, max1. split; [exact Hmin |]. split; [exact Hmax |].
  destruct (Z.ltb_spec (max1 - min1) cutoff) as [Hlt|Hge].
  - inversion Hstep; subst st'; clear Hstep. simpl.
    split; [split; [intros _; exact Hlt | reflexivity] |].
    split; [split; lia |].
    split; [intros _; repeat split | intros Hle; lia].
  - apply bind_Ok in Hstep as (hold & Hfill & Hstep).
    apply bind_Ok in Hstep as (ab1 & Hab1 & Hstep).
    apply bind_Ok in Hstep as (x' & Hx' & Hstep).
    apply bind_Ok in Hstep as (ab2 & Hab2 & Hstep).
    apply bind_Ok in Hstep as (y' & Hy' & Hstep).
    apply bind_Ok in Hstep as (rb1 & Hrb1 & Hstep).
    apply bind_Ok in Hstep as (xs' & Hxs' & Hstep).
    apply bind_Ok in Hstep as (rb2 & Hrb2 & Hstep).
    apply bind_Ok in Hstep as (ys' & Hys' & Hstep).
    inversion Hstep; subst st'; clear Hstep. simpl.
    assert (ab2 = ab1) by congruence. assert (rb2 = rb1) by congruence. subst.
    split; [split; lia |].
    split; [split; [intros _; exact Hge | reflexivity] |].
    split; [intros Hlt; lia |].
    intros _. exists hold, ab1, rb1. cbv zeta. repeat split; assumption.
Qed.

Example particle_step_allocation_example :
  allocation [qrow 1 0 10 10 0; qrow 1 2 20 20 0; qrow 2 1 5 5 0] [1; 1; 2] 1
    (Assemble.State 0 [[0%Q; 0%Q]; [0%Q; 0%Q]; [0%Q; 0%Q]]
       [[0%Q; 0%Q]; [0%Q; 0%Q]; [0%Q; 0%Q]] [[0%Q; 0%Q]; [0%Q; 0%Q]; [0%Q; 0%Q]]
       [[0%Q; 0%Q]; [0%Q; 0%Q]; [0%Q; 0%Q]])
    (Assemble.State 0 [[10%Q; 0%Q]; [10%Q; 0%Q]; [20%Q; 0%Q]]
       [[10%Q; 0%Q]; [10%Q; 0%Q]; [20%Q; 0%Q]] [[10%Q; 0%Q]; [10%Q; 0%Q]; [20%Q; 0%Q]]
       [[10%Q; 0%Q]; [10%Q; 0%Q]; [20%Q; 0%Q]])
    1.
Proof. apply particle_step_allocation. vm_compute. reflexivity. Qed.

Lemma py_range_split (a m b : Z) :
  a <= m <= b -> py_range a b = py_range a m ++ py_range m b.
Proof.
  intros Hm. apply list_eq. intros k.
  destruct (decide (k < Z.to_nat (m - a))%nat) as [Hk|Hk].
  - rewrite lookup_app_l by (rewrite py_range_length; exact Hk).
    rewrite !py_range_lookup by lia. reflexivity.
  - rewrite lookup_app_r by (rewrite py_range_length; lia).
    rewrite py_range_length.
    destruct (decide (k < Z.to_nat (b - a))%nat) as [Hkb|Hkb].
    + rewrite !py_range_lookup by lia. f_equal. lia.
    + rewrite (proj2 (lookup_ge_None _ _)) by (rewrite py_range_length; lia).
      rewrite (proj2 (lookup_ge_None _ _)) by (rewrite py_range_length; lia).
      reflexivity.
Qed.

Lemma for_each_app {S A : Type} (body : S -> A -> result S) (l1 l2 : list A)
    (st st' : S) :
  for_each body (l1 ++ l2) st = Ok st' ->
  exists s1 : S, for_each body l1 st = Ok s1 /\ for_each body l2 s1 = Ok st'.
Proof.
  revert st. induction l1 as [|a l1 IH]; intros st Hrun.
  - exists st. split; [reflexivity | exact Hrun].
  - simpl in Hrun |- *. destruct (body st a) as [s|e]; [| discriminate].
    exact (IH s Hrun).
Qed.


(** ** The MSD engine: masked means *)

Lemma py_index_map {A B : Type} (f : A -> B) (l : list A) (i : Z) (y : B) :
  py_index (map f l) i = Ok y -> exists x, py_index l i = Ok x /\ y = f x.
Proof.
  unfold py_index, len. rewrite length_map. intros Hy.
  apply bind_Ok in Hy as (j & Hj & Hy). rewrite Hj. simpl.
  change (map f l) with (f <$> l) in Hy. rewrite list_lookup_fmap in Hy.
  destruct (l !! j) as [x|]; simpl in Hy; [| discriminate].
  exists x. split; [reflexivity | congruence].
Qed.

Lemma py_slice_map {A B : Type} (f : A -> B) (l : list A) (a b : Z) :
  py_slice (map f l) a b = map f (py_slice l a b).
Proof.
  unfold py_slice, len. rewrite length_map.
  destruct (slice_bounds (Z.of_nat (length l)) a b) as [lo k].
  change (map f) with (fmap (M:=list) f). now rewrite fmap_take, fmap_drop.
Qed.

Lemma py_slice_Forall {A : Type} (P : A -> Prop) (l : list A) (a b : Z) :
  Forall P l -> Forall P (py_slice l a b).
Proof.
  intros Hl. unfold py_slice. destruct (slice_bounds (len l) a b) as [lo k].
  apply Forall_take, Forall_drop, Hl.
Qed.

Lemma py_index_elem {A : Type} (l : list A) (i : Z) (x : A) :
  py_index l i = Ok x -> x ∈ l.
Proof.
  unfold py_index. intros Hx. apply bind_Ok in Hx as (j & _ & Hx).
  destruct (l !! j) as [y|] eqn:Hl; [| discriminate].
  inversion Hx; subst. apply list_elem_of_lookup. eauto.
Qed.

Section MaskedMeans.
Context {F : Type} `{Float F}.

(** The unmasked squared differences of one column are those of its
    non-zero cells, and there is none when the subtracted-from cell is
    itself zero. *)
Lemma ma_column_sqdiff (P p : nat) (brow : list F) (b : F) (rows : list (list F)) :
  brow !! p = Some b ->
  Forall (fun r => length r = P) rows ->
  (p < P)%nat ->
  MMSD.ma_column p
    (map (fun crow => zip_with MMSD.sqdiff (map MMSD.mask0 brow) crow)
         (map (map MMSD.mask0) rows))
  = if feq0 b then []
    else map (fun c => fmul (fsub b c) (fsub b c))
             (filter (fun c => feq0 c = false) (column p rows)).
Proof.
  intros Hb Hrows Hp. unfold MMSD.ma_column, column.
  induction Hrows as [|r rows Hr Hrows IH].
  - simpl. destruct (feq0 b); reflexivity.
  - simpl map. rewrite filter_cons.
    change (omap ?f (?a :: ?l)) with
      (match f a with Some y => y :: omap f l | None => omap f l end).
    rewrite IH.
    destruct (lookup_lt_is_Some_2 r p ltac:(lia)) as (c & Hc).
    rewrite lookup_zip_with.
    change (map MMSD.mask0 brow) with (MMSD.mask0 <$> brow).
    change (map MMSD.mask0 r) with (MMSD.mask0 <$> r).
    rewrite !list_lookup_fmap, Hb, Hc. simpl.
    unfold MMSD.mask0.
    destruct (feq0 b) eqn:Eb; simpl; [reflexivity |].
    destruct (feq0 c) eqn:Ec; simpl.
    + destruct (decide (true = false)); [discriminate | reflexivity].
    + destruct (decide (false = false)); [reflexivity | congruence].
Qed.

Lemma ma_mean_axis0_lookup (P p : nat) (M : list (list (option F))) :
  (p < P)%nat ->
  MMSD.ma_mean_axis0 P M !! p = Some (MMSD.ma_mean (MMSD.ma_column p M)).
Proof.
  intros Hp. unfold MMSD.ma_mean_axis0.
  change (map ?f ?l) with (f <$> l).
  rewrite list_lookup_fmap, lookup_seq_lt by exact Hp. reflexivity.
Qed.

Lemma ma_mean_axis0_length (P : nat) (M : list (list (option F))) :
  length (MMSD.ma_mean_axis0 P M) = P.
Proof. unfold MMSD.ma_mean_axis0. now rewrite length_map, length_seq. Qed.

Lemma lag_means_spec (m : list (list F)) (frame : Z) (n P : nat)
    (means : list (option F)) :
  has_shape n P m ->
  MMSD.lag_means (MMSD.masked_equal0 m) frame = Ok means ->
  exists brow : list F,
    py_index m frame = Ok brow
    /\ length means = P
    /\ forall (p : nat) (b : F), brow !! p = Some b ->
         means !! p = Some (nonzero_mean b (column p (py_slice m 0 (- frame)))).
Proof.
  intros [Hn HP] Hmeans. unfold MMSD.lag_means, MMSD.masked_equal0 in Hmeans.
  apply bind_Ok in Hmeans as (b' & Hb' & Hmeans).
  apply py_index_map in Hb' as (brow & Hbrow & ->).
  inversion Hmeans; subst means; clear Hmeans.
  assert (Hlen : length brow = P).
  { apply py_index_elem in Hbrow. rewrite Forall_forall in HP. exact (HP _ Hbrow). }
  exists brow. split; [exact Hbrow |]. rewrite length_map, Hlen.
  split; [apply ma_mean_axis0_length |].
  intros p b Hb.
  assert (Hp : (p < P)%nat) by (apply lookup_lt_Some in Hb; lia).
  rewrite ma_mean_axis0_lookup by exact Hp. f_equal.
  rewrite py_slice_map.
  rewrite (ma_column_sqdiff P p brow b _ Hb (py_slice_Forall _ _ _ _ HP) Hp).
  unfold nonzero_mean. destruct (feq0 b); reflexivity.
Qed.

(** A cell of [np.log(Mya + Mxa)] that is not masked is the logarithm of
    the sum of two means that are not masked. *)
Lemma ma_log_add_unmasked (np_log : F -> F) (mya mxa sum : list (option F))
    (p : nat) (v : F) :
  length mya = length mxa ->
  MMSD.ma_add mya mxa = Ok sum ->
  MMSD.ma_log np_log sum !! p = Some (Some v) ->
  exists a b : F,
    mya !! p = Some (Some a) /\ mxa !! p = Some (Some b) /\ v = np_log (fadd a b).
Proof.
  intros Hlen Hsum Hv. unfold MMSD.ma_add in Hsum.
  destruct (decide (length mya = length mxa)); [| contradiction].
  inversion Hsum; subst sum; clear Hsum.
  unfold MMSD.ma_log in Hv. change (map ?f ?l) with (f <$> l) in Hv.
  rewrite list_lookup_fmap, lookup_zip_with in Hv.
  destruct (mya !! p) as [[a|]|]; simpl in Hv; try discriminate;
    destruct (mxa !! p) as [[b|]|]; simpl in Hv; try discriminate.
  destruct (fpos (fadd a b)); [| discriminate].
  exists a, b. repeat split. congruence.
Qed.

End MaskedMeans.

(** ** The MSD engine: claims *)

(** C1 (fails on the code).  Three frames of one particle at positions 1,
    2, 4.  At lag 1 the code subtracts every start frame from the single
    row [pos[1]], giving the mean of (2-1)^2 and (2-2)^2, that is 1/2, and
    stores it as the lag's entry; the mean of (pos[t+1] - pos[t])^2 over
    the start frames is 5/2. *)
Theorem lag_means_single_row :
  MMSD.lag_means (MMSD.masked_equal0 (qmat [[1]; [2]; [4]])) 1 = Ok [Some (1 # 2)%Q]
  /\ lagged_mean (map MMSD.mask0 [1%Q; 2%Q; 4%Q]) 1 = Some (5 # 2)%Q
  /\ for_each (MMSD.lag_step (MMSD.masked_equal0 (qmat [[1]; [2]; [4]]))
                             (MMSD.masked_equal0 (qmat [[1]; [2]; [4]])))
       (py_range 1 3)
       (MMSD.State [[0%Q]; [0%Q]; [0%Q]] [[0%Q]; [0%Q]; [0%Q]] None None)
     = Ok (MMSD.State [[0%Q]; [(1 # 2)%Q]; [9%Q]] [[0%Q]; [(1 # 2)%Q]; [9%Q]]
             (Some [Some 9%Q]) (Some [Some 9%Q])).
Proof. repeat split; vm_compute; reflexivity. Qed.

Lemma np_ma_mean_axix {F : Type} `{Float F} (a : list (option F)) :
  MMSD.np_ma_mean a ["axix"%string] = Err TypeError.
Proof. reflexivity. Qed.

(** C7 (fails on the code).  [vectorized_MMSD_calcs] returns on no input
    at all: a call that gets through the loop stops at
    [np.ma.mean(dist, axix=0)]. *)
Theorem vectorized_MMSD_calcs_raises {F : Type} `{Float F}
    (np_log : F -> F) (stat_sem : list (option F) -> F) (frames total1 : Z)
    (xs_m ys_m x_m y_m : list (list F)) (frame_m : Z) :
  exists e : pyerror,
    MMSD.vectorized_MMSD_calcs np_log stat_sem frames total1 xs_m ys_m x_m y_m frame_m
    = Err e.
Proof.
  unfold MMSD.vectorized_MMSD_calcs.
  destruct (np_zeros frames (total1 - 1)) as [SM|e]; cbn [mbind result_bind]; [| eauto].
  destruct (MMSD.np_zeros1 frame_m) as [g|e]; cbn [mbind result_bind]; [| eauto].
  destruct (for_each _ _ _) as [st|e]; cbn [mbind result_bind]; [| eauto].
  destruct (MMSD.local (MMSD.Mya st)) as [mya|e]; cbn [mbind result_bind]; [| eauto].
  destruct (MMSD.local (MMSD.Mxa st)) as [mxa|e]; cbn [mbind result_bind]; [| eauto].
  destruct (MMSD.ma_add mya mxa) as [sum|e]; cbn [mbind result_bind]; [| eauto].
  rewrite np_ma_mean_axix. cbn [mbind result_bind]. eauto.
Qed.

(** What the function does depends neither on [np.log] nor on
    [scipy.stats.sem]. *)
Lemma vectorized_MMSD_calcs_independent {F : Type} `{Float F}
    (np_log np_log' : F -> F) (stat_sem stat_sem' : list (option F) -> F)
    (frames total1 : Z) (xs_m ys_m x_m y_m : list (list F)) (frame_m : Z) :
  MMSD.vectorized_MMSD_calcs np_log stat_sem frames total1 xs_m ys_m x_m y_m frame_m
  = MMSD.vectorized_MMSD_calcs np_log' stat_sem' frames total1 xs_m ys_m x_m y_m frame_m.
Proof.
  unfold MMSD.vectorized_MMSD_calcs.
  destruct (np_zeros frames (total1 - 1)) as [SM|e]; cbn [mbind result_bind];
    [| reflexivity].
  destruct (MMSD.np_zeros1 frame_m) as [g|e]; cbn [mbind result_bind]; [| reflexivity].
  destruct (for_each _ _ _) as [st|e]; cbn [mbind result_bind]; [| reflexivity].
  destruct (MMSD.local (MMSD.Mya st)) as [mya|e]; cbn [mbind result_bind];
    [| reflexivity].
  destruct (MMSD.local (MMSD.Mxa st)) as [mxa|e]; cbn [mbind result_bind];
    [| reflexivity].
  destruct (MMSD.ma_add mya mxa) as [sum|e]; cbn [mbind result_bind]; [| reflexivity].
  rewrite !np_ma_mean_axix. reflexivity.
Qed.

(** The same on one input: three frames, two particles, no zero cell. *)
Example vectorized_MMSD_calcs_TypeError :
  MMSD.vectorized_MMSD_calcs any_log any_sem 3 3
    (qmat [[1; 1]; [2; 3]; [4; 9]]) (qmat [[1; 1]; [2; 3]; [4; 9]])
    (qmat [[1; 1]; [2; 3]; [4; 9]]) (qmat [[1; 1]; [2; 3]; [4; 9]]) 3
  = Err TypeError.
Proof. vm_compute. reflexivity. Qed.

Section RowAssignment.
Context {F : Type} `{Float F}.

Lemma lag_means_Ok (m : list (list F)) (frame : Z) (n P : nat) :
  has_shape n P m -> 0 <= frame < Z.of_nat n ->
  exists means : list (option F),
    MMSD.lag_means (MMSD.masked_equal0 m) frame = Ok means /\ length means = P.
Proof.
  intros Hshape Hframe.
  destruct (py_index_valid (MMSD.masked_equal0 m) frame) as (b & Hb).
  { unfold len, MMSD.masked_equal0. rewrite length_map.
    destruct Hshape as [Hn _]. lia. }
  unfold MMSD.lag_means. rewrite Hb. cbn [mbind result_bind].
  eexists. split; [reflexivity |].
  rewrite ma_mean_axis0_length.
  apply py_index_map in Hb as (brow & Hbrow & ->). rewrite length_map.
  apply py_index_elem in Hbrow. destruct Hshape as [_ HP].
  rewrite Forall_forall in HP. exact (HP _ Hbrow).
Qed.

Lemma set_row_mismatch (SM : list (list F)) (r c : nat) (frame : Z) (v : list F) :
  has_shape r c SM -> 0 <= frame < Z.of_nat r ->
  length v <> c -> length v <> 1%nat ->
  MMSD.set_row SM frame v = Err ValueError.
Proof.
  intros [Hr Hc] Hframe Hne Hne1. unfold MMSD.set_row.
  rewrite norm_index_nonneg by (unfold len; lia). cbn [mbind result_bind].
  destruct (lookup_lt_is_Some_2 SM (Z.to_nat frame) ltac:(lia)) as (old & Hold).
  rewrite Hold.
  assert (Hlen : length old = c).
  { rewrite Forall_forall in Hc. apply Hc. apply list_elem_of_lookup. eauto. }
  rewrite Hlen. destruct (decide (length v = c)); [contradiction |].
  destruct v as [|a [|b v]]; simpl in Hne1; try reflexivity. congruence.
Qed.

Lemma np_zeros_shape (r c : Z) :
  0 <= r -> 0 <= c ->
  exists m : list (list F),
    np_zeros r c = Ok m /\ has_shape (Z.to_nat r) (Z.to_nat c) m.
Proof.
  intros Hr Hc. unfold np_zeros.
  destruct (Z.ltb_spec r 0); [lia |]. destruct (Z.ltb_spec c 0); [lia |].
  eexists. split; [reflexivity |]. split; [apply length_replicate |].
  apply Forall_replicate. apply length_replicate.
Qed.

End RowAssignment.

(** C10 as stated fails: with one particle ([total1] equal to the column
    count 1) and [frame_m = 3], every row assignment of the loop goes
    through, the one-element row being broadcast into the zero-width
    accumulator; the call fails later, with a [TypeError]. *)
Lemma row_assignment_broadcast :
  ncols (qmat [[1]; [2]; [4]]) = 1
  /\ np_zeros (F:=Q) 3 (1 - 1) = Ok [[]; []; []]
  /\ for_each (MMSD.lag_step (MMSD.masked_equal0 (qmat [[1]; [2]; [4]]))
                             (MMSD.masked_equal0 (qmat [[1]; [2]; [4]])))
       (py_range 1 3) (MMSD.State [[]; []; []] [[]; []; []] None None)
     = Ok (MMSD.State [[]; []; []] [[]; []; []] (Some [Some 9%Q]) (Some [Some 9%Q]))
  /\ MMSD.vectorized_MMSD_calcs any_log any_sem 3 1
       (qmat [[1]; [2]; [4]]) (qmat [[1]; [2]; [4]])
       (qmat [[1]; [2]; [4]]) (qmat [[1]; [2]; [4]]) 3
     = Err TypeError.
Proof. repeat split; vm_compute; reflexivity. Qed.

(** C10, amended.  The accumulators have [total1 - 1] columns and each
    per-lag row has as many cells as the position matrices have columns.
    When [total1] is that number of columns and is at least 2, both
    relative matrices have at least two rows, and [frames] and [frame_m]
    are at least 2, the first row assignment [SM1x[1, :] = Mxa] raises a
    [ValueError] for the mismatch of shapes, and so does the call. *)
Theorem row_assignment_shape_error {F : Type} `{Float F}
    (np_log : F -> F) (stat_sem : list (option F) -> F) (frames total1 : Z)
    (xs_m ys_m x_m y_m : list (list F)) (frame_m : Z) (n ny P Py : nat) :
  has_shape n P xs_m ->
  has_shape ny Py ys_m ->
  (2 <= n)%nat -> (2 <= ny)%nat -> (2 <= P)%nat ->
  total1 = Z.of_nat P ->
  2 <= frames -> 2 <= frame_m ->
  exists (SM : list (list F)) (mxa mya : list (option F)),
    np_zeros frames (total1 - 1) = Ok SM
    /\ has_shape (Z.to_nat frames) (P - 1) SM
    /\ MMSD.lag_means (MMSD.masked_equal0 xs_m) 1 = Ok mxa
    /\ MMSD.lag_means (MMSD.masked_equal0 ys_m) 1 = Ok mya
    /\ length mxa = P
    /\ MMSD.set_row SM 1 (MMSD.ma_data mxa) = Err ValueError
    /\ MMSD.vectorized_MMSD_calcs np_log stat_sem frames total1 xs_m ys_m x_m y_m frame_m
       = Err ValueError.
Proof.
  intros Hxs Hys Hn Hny HP -> Hframes Hframe_m.
  destruct (np_zeros_shape (F:=F) frames (Z.of_nat P - 1)) as (SM & HSM & Hshape);
    [lia | lia |].
  replace (Z.to_nat (Z.of_nat P - 1)) with (P - 1)%nat in Hshape by lia.
  destruct (lag_means_Ok xs_m 1 n P Hxs) as (mxa & Hmxa & Hlx); [lia |].
  destruct (lag_means_Ok ys_m 1 ny Py Hys) as (mya & Hmya & Hly); [lia |].
  assert (Hset : MMSD.set_row SM 1 (MMSD.ma_data mxa) = Err ValueError).
  { apply (set_row_mismatch SM (Z.to_nat frames) (P - 1)); [exact Hshape | lia | |];
      unfold MMSD.ma_data; rewrite length_map; lia. }
  exists SM, mxa, mya. repeat split; try assumption; try (apply Hshape).
  unfold MMSD.vectorized_MMSD_calcs. rewrite HSM. cbn [mbind result_bind].
  unfold MMSD.np_zeros1. destruct (Z.ltb_spec frame_m 0); [lia |].
  cbn [mbind result_bind].
  rewrite py_range_cons by lia. cbn [for_each].
  unfold MMSD.lag_step at 1. cbn [MMSD.SM1x MMSD.SM1y].
  rewrite Hmxa. cbn [mbind result_bind]. rewrite Hmya. cbn [mbind result_bind].
  rewrite Hset. reflexivity.
Qed.

Lemma row_assignment_shape_error_witness :
  exists (SM : list (list Q)) (mxa mya : list (option Q)),
    np_zeros 3 (2 - 1) = Ok SM
    /\ has_shape (Z.to_nat 3) (2 - 1) SM
    /\ MMSD.lag_means (MMSD.masked_equal0 (qmat [[1; 1]; [2; 3]; [4; 9]])) 1 = Ok mxa
    /\ MMSD.lag_means (MMSD.masked_equal0 (qmat [[1; 1]; [2; 3]; [4; 9]])) 1 = Ok mya
    /\ length mxa = 2%nat
    /\ MMSD.set_row SM 1 (MMSD.ma_data mxa) = Err ValueError
    /\ MMSD.vectorized_MMSD_calcs any_log any_sem 3 2
         (qmat [[1; 1]; [2; 3]; [4; 9]]) (qmat [[1; 1]; [2; 3]; [4; 9]])
         (qmat [[1; 1]; [2; 3]; [4; 9]]) (qmat [[1; 1]; [2; 3]; [4; 9]]) 3
       = Err ValueError.
Proof.
  apply (row_assignment_shape_error any_log any_sem 3 2
           (qmat [[1; 1]; [2; 3]; [4; 9]]) (qmat [[1; 1]; [2; 3]; [4; 9]])
           (qmat [[1; 1]; [2; 3]; [4; 9]]) (qmat [[1; 1]; [2; 3]; [4; 9]])
           3 3 3 2 2).
  - split; [reflexivity |]. repeat constructor.
  - split; [reflexivity |]. repeat constructor.
  - lia.
  - lia.
  - lia.
  - reflexivity.
  - lia.
  - lia.
Defined.

(** ** The store: what a computation leaves untouched *)

Section Keeps.
Context {F : Type} `{Float F}.

Lemma keeps_ret {A : Type} (h0 : gmap nat (Store.obj F)) (a : A) (Q : A -> Prop) :
  Q a -> keeps h0 (Store.ret a) Q.
Proof. intros HQ h Hsub. simpl. split; [exact Hsub |]. intros a' [= <-]. exact HQ. Qed.

Lemma keeps_raise {A : Type} (h0 : gmap nat (Store.obj F)) (e : pyerror) (Q : A -> Prop) :
  keeps h0 (Store.raise e) Q.
Proof. intros h Hsub. simpl. split; [exact Hsub |]. intros a' [=]. Qed.

Lemma keeps_lift {A : Type} (h0 : gmap nat (Store.obj F)) (r : result A) :
  keeps h0 (Store.lift r) (fun _ => True).
Proof. intros h Hsub. simpl. split; [exact Hsub | auto]. Qed.

Lemma keeps_read_table (h0 : gmap nat (Store.obj F)) (l : nat) : keeps h0 (Store.read_table l) (fun _ => True).
Proof.
  intros h Hsub. unfold Store.read_table.
  destruct (h !! l) as [[]|]; simpl; auto.
Qed.

Lemma keeps_read_matrix (h0 : gmap nat (Store.obj F)) (l : nat) : keeps h0 (Store.read_matrix l) (fun _ => True).
Proof.
  intros h Hsub. unfold Store.read_matrix.
  destruct (h !! l) as [[]|]; simpl; auto.
Qed.

Lemma keeps_read_masked (h0 : gmap nat (Store.obj F)) (l : nat) : keeps h0 (Store.read_masked l) (fun _ => True).
Proof.
  intros h Hsub. unfold Store.read_masked.
  destruct (h !! l) as [[]|]; simpl; auto.
Qed.

Lemma keeps_read_masked_vector (h0 : gmap nat (Store.obj F)) (l : nat) :
  keeps h0 (Store.read_masked_vector l) (fun _ => True).
Proof.
  intros h Hsub. unfold Store.read_masked_vector.
  destruct (h !! l) as [[]|]; simpl; auto.
Qed.

(** A new array gets a location outside the store the call started in. *)
Lemma keeps_alloc (h0 : gmap nat (Store.obj F)) (o : Store.obj F) :
  keeps h0 (Store.alloc o) (fun l => h0 !! l = None).
Proof.
  intros h Hsub. unfold Store.alloc. simpl.
  assert (Hfresh : h !! fresh (dom h) = None).
  { apply not_elem_of_dom. apply is_fresh. }
  assert (Hfresh0 : h0 !! fresh (dom h) = None).
  { destruct (h0 !! fresh (dom h)) as [o'|] eqn:Ho; [| reflexivity].
    rewrite (lookup_weaken _ _ _ _ Ho Hsub) in Hfresh. discriminate. }
  split.
  - apply insert_subseteq_r; assumption.
  - intros l [= <-]. exact Hfresh0.
Qed.

(** An assignment into an array allocated by the call touches nothing of
    the store the call started in. *)
Lemma keeps_write (h0 : gmap nat (Store.obj F)) (l : nat) (o : Store.obj F) :
  h0 !! l = None -> keeps h0 (Store.write l o) (fun _ => True).
Proof.
  intros Hl h Hsub. unfold Store.write. simpl. split; [| auto].
  apply insert_subseteq_r; assumption.
Qed.

Lemma keeps_bind {A B : Type} (h0 : gmap nat (Store.obj F)) (m : Store.M A) (f : A -> Store.M B)
    (Q : A -> Prop) (R : B -> Prop) :
  keeps h0 m Q -> (forall a, Q a -> keeps h0 (f a) R) -> keeps h0 (Store.bind m f) R.
Proof.
  intros Hm Hf h Hsub. unfold Store.bind.
  destruct (Hm h Hsub) as [Hsub' HQ].
  destruct (m h) as [[a|e] h'] eqn:Hmh; simpl in *.
  - exact (Hf a (HQ a eq_refl) h' Hsub').
  - split; [exact Hsub' |]. intros b [=].
Qed.

Lemma keeps_weaken {A : Type} (h0 : gmap nat (Store.obj F)) (c : Store.M A) (Q R : A -> Prop) :
  keeps h0 c Q -> (forall a, Q a -> R a) -> keeps h0 c R.
Proof.
  intros Hc HQR h Hsub. destruct (Hc h Hsub) as [Hsub' HQ].
  split; [exact Hsub' |]. intros a Ha. apply HQR, HQ, Ha.
Qed.

Lemma keeps_for_each {S A : Type} (h0 : gmap nat (Store.obj F)) (body : S -> A -> Store.M S) (l : list A) (st : S) :
  (forall s a, keeps h0 (body s a) (fun _ => True)) ->
  keeps h0 (Store.for_each body l st) (fun _ => True).
Proof.
  intros Hbody. revert st. induction l as [|a l IH]; intros st; simpl.
  - apply keeps_ret. exact I.
  - eapply keeps_bind; [apply Hbody |]. intros st' _. apply IH.
Qed.

End Keeps.

Ltac keeps_step :=
  eapply keeps_bind;
  [ first [ apply keeps_lift | apply keeps_read_table | apply keeps_read_matrix
          | apply keeps_read_masked | apply keeps_read_masked_vector
          | apply keeps_alloc
          | apply keeps_write; assumption ]
  | intros ? ? ].

Section StoreFacts.
Context {F : Type} `{Float F}.

Lemma fill_step_keeps (h0 : gmap nat (Store.obj F)) (data filledin : nat) (c : Z * Z * Z * Z) (num : Z) :
  h0 !! filledin = None ->
  keeps h0 (Store.fill_step data filledin c num) (fun _ => True).
Proof.
  intros Hfresh. destruct c as [[[count new] other] tot]. unfold Store.fill_step.
  repeat keeps_step. apply keeps_ret. exact I.
Qed.

Lemma fillin2_keeps (h0 : gmap nat (Store.obj F)) (data : nat) :
  keeps h0 (Store.fillin2 data) (fun out => h0 !! out = None).
Proof.
  unfold Store.fillin2. keeps_step.
  destruct (negb (frames_check (map frame a))); [apply keeps_raise |].
  destruct (negb (0 <? len a)); [apply keeps_raise |].
  do 10 keeps_step.
  eapply keeps_bind.
  { apply keeps_for_each. intros s n. apply fill_step_keeps. assumption. }
  intros ? _. apply keeps_ret. assumption.
Qed.

Lemma new_zeros_keeps (h0 : gmap nat (Store.obj F)) (r c : Z) :
  keeps h0 (Store.new_zeros r c) (fun l => h0 !! l = None).
Proof. unfold Store.new_zeros. keeps_step. apply keeps_alloc. Qed.

Lemma new_masked_equal0_keeps (h0 : gmap nat (Store.obj F)) (m : nat) :
  keeps h0 (Store.new_masked_equal0 m) (fun l => h0 !! l = None).
Proof. unfold Store.new_masked_equal0. keeps_step. apply keeps_alloc. Qed.

Lemma lag_step_keeps (h0 : gmap nat (Store.obj F)) (xs_m ys_m SM1x SM1y : nat) (st : option nat * option nat)
    (frame : Z) :
  h0 !! SM1x = None -> h0 !! SM1y = None ->
  keeps h0 (Store.lag_step xs_m ys_m SM1x SM1y st frame) (fun _ => True).
Proof.
  intros Hx Hy. unfold Store.lag_step.
  repeat keeps_step. apply keeps_ret. exact I.
Qed.

Lemma vectorized_MMSD_calcs_keeps (h0 : gmap nat (Store.obj F))
    (np_log : F -> F) (stat_sem : list (option F) -> F)
    (frames total1 : Z) (xs_m ys_m x_m y_m : nat) (frame_m : Z) :
  keeps h0 (Store.vectorized_MMSD_calcs np_log stat_sem frames total1 xs_m ys_m x_m y_m frame_m)
    (fun out => h0 !! out.1.1.2 = None /\ h0 !! out.1.2 = None /\ h0 !! out.2 = None).
Proof.
  unfold Store.vectorized_MMSD_calcs.
  eapply keeps_bind; [apply new_zeros_keeps |]. intros SM1x HSM1x.
  eapply keeps_bind; [apply new_zeros_keeps |]. intros SM1y HSM1y.
  eapply keeps_bind; [apply new_zeros_keeps |]. intros SM2xy0 _.
  eapply keeps_bind; [apply new_masked_equal0_keeps |]. intros xs _.
  eapply keeps_bind; [apply new_masked_equal0_keeps |]. intros ys _.
  eapply keeps_bind; [apply new_masked_equal0_keeps |]. intros x _.
  eapply keeps_bind; [apply new_masked_equal0_keeps |]. intros y _.
  do 4 keeps_step.
  eapply keeps_bind.
  { apply keeps_for_each. intros s n. apply lag_step_keeps; assumption. }
  intros st _.
  do 5 keeps_step.
  eapply keeps_bind; [apply keeps_alloc |]. intros dist _.
  do 4 keeps_step.
  eapply keeps_bind; [apply keeps_alloc |]. intros SM2xy HSM2xy.
  apply keeps_ret. simpl. auto.
Qed.

End StoreFacts.

(** ** The store: [fillin2] computes what the function on values computes *)

Section StoreSim.
Context {F : Type} `{Float F}.

Lemma read_table_Some (h : gmap nat (Store.obj F)) (l : nat) (t : list (row F)) :
  h !! l = Some (Store.Table t) -> Store.read_table l h = (Ok t, h).
Proof. intros Hl. unfold Store.read_table. now rewrite Hl. Qed.

Lemma fill_step_sim (data filledin : nat) (d : list (row F))
    (h : gmap nat (Store.obj F)) (count new other tot : Z) (t : list (row F))
    (num : Z) :
  h !! data = Some (Store.Table d) ->
  h !! filledin = Some (Store.Table t) ->
  Store.fill_step data filledin (count, new, other, tot) num h
  = match Fill.step d (Fill.State count new other tot t) num with
    | Ok st => (Ok (Fill.count st, Fill.new st, Fill.other st, Fill.tot st),
                <[filledin := Store.Table (Fill.filledin st)]> h)
    | Err e => (Err e, h)
    end.
Proof.
  intros Hd Hf. unfold Store.fill_step, Store.bind.
  rewrite (read_table_Some _ _ _ Hf), (read_table_Some _ _ _ Hd).
  unfold Store.lift.
  destruct (Fill.step d (Fill.State count new other tot t) num); reflexivity.
Qed.

Lemma fill_loop_sim (data filledin : nat) (d : list (row F)) (l : list Z) :
  data <> filledin ->
  forall (h : gmap nat (Store.obj F)) (count new other tot : Z) (t : list (row F)),
    h !! data = Some (Store.Table d) ->
    h !! filledin = Some (Store.Table t) ->
    match for_each (Fill.step d) l (Fill.State count new other tot t) with
    | Ok st' =>
        Store.for_each (Store.fill_step data filledin) l (count, new, other, tot) h
        = (Ok (Fill.count st', Fill.new st', Fill.other st', Fill.tot st'),
           <[filledin := Store.Table (Fill.filledin st')]> h)
    | Err e =>
        (Store.for_each (Store.fill_step data filledin) l (count, new, other, tot) h).1
        = Err e
    end.
Proof.
  intros Hne. induction l as [|num l IH]; intros h count new other tot t Hd Hf.
  - simpl. unfold Store.ret. f_equal. symmetry. apply insert_id. exact Hf.
  - cbn [for_each Store.for_each]. unfold Store.bind.
    rewrite (fill_step_sim data filledin d h count new other tot t num Hd Hf).
    destruct (Fill.step d (Fill.State count new other tot t) num) as [st1|e] eqn:Hstep;
      [| reflexivity].
    set (h1 := <[filledin := Store.Table (Fill.filledin st1)]> h).
    assert (Hd1 : h1 !! data = Some (Store.Table d)).
    { subst h1. rewrite lookup_insert_ne by congruence. exact Hd. }
    assert (Hf1 : h1 !! filledin = Some (Store.Table (Fill.filledin st1))).
    { subst h1. apply lookup_insert_eq. }
    specialize (IH h1 (Fill.count st1) (Fill.new st1) (Fill.other st1) (Fill.tot st1)
                  (Fill.filledin st1) Hd1 Hf1).
    destruct st1 as [c1 n1 o1 t1 f1].
    cbn [Fill.count Fill.new Fill.other Fill.tot Fill.filledin] in *.
    destruct (for_each (Fill.step d) l (Fill.State c1 n1 o1 t1 f1)) as [st'|e].
    + rewrite IH. subst h1. now rewrite insert_insert_eq.
    + exact IH.
Qed.

Lemma fillin2_sim (h : gmap nat (Store.obj F)) (data : nat) (d : list (row F)) :
  h !! data = Some (Store.Table d) ->
  match Fill.fillin2 d with
  | Ok t => exists out : nat,
      (Store.fillin2 data h).1 = Ok out
      /\ (Store.fillin2 data h).2 !! out = Some (Store.Table t)
  | Err e => (Store.fillin2 data h).1 = Err e
  end.
Proof.
  intros Hd. remember (Store.fillin2 data h) as r eqn:Hr. revert Hr.
  unfold Store.fillin2. unfold Store.bind at 1.
  rewrite (read_table_Some _ _ _ Hd). cbv beta iota.
  unfold Fill.fillin2.
  destruct (negb (frames_check (map frame d))); [intros ->; reflexivity |].
  destruct (negb (0 <? len d)); [intros ->; reflexivity |].
  unfold Store.bind at 1. unfold Store.lift at 1.
  destruct (py_max (map frame d)) as [mx|e]; cbn [mbind result_bind]; cbv beta iota;
    [| intros ->; reflexivity].
  unfold Store.bind at 1. unfold Store.lift at 1.
  destruct (py_min (map frame d)) as [mn|e]; cbn [mbind result_bind]; cbv beta iota;
    [| intros ->; reflexivity].
  unfold Store.bind at 1. unfold Store.alloc at 1. cbv zeta beta iota.
  set (filledin := fresh (dom h)).
  assert (Hne : data <> filledin).
  { intros Heq. apply (is_fresh (dom h)). fold filledin. rewrite <- Heq.
    apply elem_of_dom. eauto. }
  set (zeros := replicate (Z.to_nat (mx + 1 - mn)) Fill.zero_row).
  set (h1 := <[filledin := Store.Table zeros]> h).
  assert (Hd1 : h1 !! data = Some (Store.Table d)).
  { subst h1. rewrite lookup_insert_ne by congruence. exact Hd. }
  unfold Store.bind at 1. rewrite (read_table_Some _ _ _ Hd1). cbv beta iota.
  unfold Store.bind at 1. unfold Store.lift at 1.
  destruct (py_index d 0) as [first|e]; cbn [mbind result_bind]; cbv beta iota;
    [| intros ->; reflexivity].
  unfold Store.bind at 1.
  rewrite (read_table_Some h1 filledin zeros) by (subst h1; apply lookup_insert_eq).
  cbv beta iota.
  unfold Store.bind at 1. unfold Store.lift at 1.
  destruct (norm_index (len zeros) 0) as [i0|e]; cbn [mbind result_bind];
    cbv beta iota; [| intros ->; reflexivity].
  unfold Store.bind at 1. unfold Store.write at 1. cbv beta iota.
  set (h2 := <[filledin := Store.Table (<[i0 := first]> zeros)]> h1).
  unfold Store.bind at 1.
  rewrite (read_table_Some h2 filledin (<[i0 := first]> zeros))
    by (subst h2; apply lookup_insert_eq).
  cbv beta iota.
  unfold Store.bind at 1. unfold Store.write at 1. cbv beta iota.
  set (t0 := Fill.set_frames mn (<[i0 := first]> zeros)).
  set (h3 := <[filledin := Store.Table t0]> h2).
  assert (Hd3 : h3 !! data = Some (Store.Table d)).
  { subst h3 h2. rewrite !lookup_insert_ne by congruence. exact Hd1. }
  assert (Hf3 : h3 !! filledin = Some (Store.Table t0)).
  { subst h3. apply lookup_insert_eq. }
  pose proof (fill_loop_sim data filledin d (py_range 1 (mx + 1 - mn)) Hne
                h3 0 0 0 0 t0 Hd3 Hf3) as Hsim.
  unfold Store.bind at 1.
  destruct (for_each (Fill.step d) (py_range 1 (mx + 1 - mn))
              (Fill.State 0 0 0 0 t0)) as [st'|e]; cbn [mbind result_bind].
  - rewrite Hsim. unfold Store.ret. intros ->. cbn [fst snd].
    exists filledin. split; [reflexivity |]. apply lookup_insert_eq.
  - destruct (Store.for_each _ _ _ h3) as [[c|e'] h4]; cbn [fst] in Hsim;
      [discriminate |]. intros ->. cbn [fst]. congruence.
Qed.

End StoreSim.

(** A run in a store holding one table: the table stays, the result is a
    new location. *)
Example store_fillin2_run :
  let h : gmap nat (Store.obj Q) :=
    {[ 0%nat := Store.Table [qrow 1 0 10 10 0; qrow 1 2 20 20 0] ]} in
  (Store.fillin2 0%nat h).1 = Ok 1%nat
  /\ (Store.fillin2 0%nat h).2 !! 0%nat
     = Some (Store.Table [qrow 1 0 10 10 0; qrow 1 2 20 20 0])
  /\ (Store.fillin2 0%nat h).2 !! 1%nat
     = Some (Store.Table [qrow 1 0 10 10 0; qrow 1 1 10 10 0; qrow 1 2 20 20 0]).
Proof. repeat split; vm_compute; reflexivity. Qed.

(** ** The store: claims *)

(** C9.  [fillin2] and [vectorized_MMSD_calcs] change no array of the
    store they are called in, their arguments included, whether they return
    or raise; the arrays they return are new; and the array [fillin2]
    returns holds what the function on values computes. *)
Theorem calls_are_pure {F : Type} `{Float F}
    (np_log : F -> F) (stat_sem : list (option F) -> F) :
  pure_calls np_log stat_sem.
Proof.
  split.
  - intros h data.
    destruct (fillin2_keeps h data h (reflexivity h)) as [Hsub Hfresh].
    split; [exact Hsub |]. split; [exact Hfresh |].
    intros d Hd. exact (fillin2_sim h data d Hd).
  - intros h frames total1 xs_m ys_m x_m y_m frame_m.
    exact (vectorized_MMSD_calcs_keeps h np_log stat_sem frames total1 xs_m ys_m x_m y_m
             frame_m h (reflexivity h)).
Qed.

(** ** The filler: what each row of the output holds *)

Lemma for_each_range_inv {S : Type} (body : S -> Z -> result S)
    (I : Z -> S -> Prop) (a b : Z) (st : S) :
  a <= b ->
  I a st ->
  (forall (num : Z) (s : S), a <= num < b -> I num s ->
     exists s' : S, body s num = Ok s' /\ I (num + 1) s') ->
  exists st' : S, for_each body (py_range a b) st = Ok st' /\ I b st'.
Proof.
  intros Hab Hinit Hstep.
  remember (Z.to_nat (b - a)) as k eqn:Hk.
  revert a st Hab Hinit Hstep Hk. induction k as [|k IH]; intros a st Hab Hinit Hstep Hk.
  - rewrite py_range_nil by lia. simpl. exists st. split; [reflexivity |].
    replace b with a by lia. exact Hinit.
  - rewrite py_range_cons by lia. simpl.
    destruct (Hstep a st ltac:(lia) Hinit) as (s1 & Hs1 & Hinv1). rewrite Hs1.
    apply (IH (a + 1) s1); [lia | exact Hinv1 | | lia].
    intros num s Hnum. apply Hstep. lia.
Qed.

Lemma nondecreasing_le (l : list Z) (i j : nat) (a b : Z) :
  nondecreasing l -> (i <= j)%nat -> l !! i = Some a -> l !! j = Some b -> a <= b.
Proof.
  intros Hnd Hij Ha. revert b. induction Hij as [|j Hij IH]; intros b Hb.
  - assert (a = b) by congruence. lia.
  - destruct (l !! j) as [c|] eqn:Hc.
    + specialize (IH c eq_refl). specialize (Hnd j c b Hc Hb). lia.
    + apply lookup_ge_None in Hc. apply lookup_lt_Some in Hb. lia.
Qed.

Lemma increasing_lt (l : list Z) (i j : nat) (a b : Z) :
  increasing l -> (i < j)%nat -> l !! i = Some a -> l !! j = Some b -> a < b.
Proof.
  intros Hinc Hij Ha Hb.
  destruct (l !! S i) as [c|] eqn:Hc.
  - pose proof (Hinc i a c Ha Hc).
    pose proof (nondecreasing_le l (S i) j c b (increasing_nondecreasing l Hinc)
                  ltac:(lia) Hc Hb). lia.
  - apply lookup_ge_None in Hc. apply lookup_lt_Some in Hb. lia.
Qed.

Section FillRows.
Context {F : Type} `{Float F}.

Lemma frame_lookup (data : list (row F)) (i : nat) (r : row F) :
  data !! i = Some r -> map frame data !! i = Some (frame r).
Proof.
  intros Hr. change (map frame data) with (frame <$> data).
  rewrite list_lookup_fmap, Hr. reflexivity.
Qed.

(** One iteration with the cursor on [fr]: when [fr] is not after the
    current frame its row is copied and the cursor moves on; when it is
    still ahead the row before it is copied and the cursor waits. *)
Lemma step_copy (data : list (row F)) (st : Fill.state F) (num : Z) (cur fr : row F) :
  0 <= num ->
  Fill.filledin st !! Z.to_nat num = Some cur ->
  0 <= num - Fill.new st - 1 ->
  data !! Z.to_nat (num - Fill.new st - 1) = Some fr ->
  frame fr <= frame cur ->
  exists st' : Fill.state F,
    Fill.step data st num = Ok st'
    /\ Fill.new st' = Fill.new st
    /\ Fill.filledin st' = <[Z.to_nat num := relabel fr (frame cur)]> (Fill.filledin st).
Proof.
  intros Hnum Hcur Hj Hfr Hle. unfold Fill.step.
  rewrite (py_index_nonneg (Fill.filledin st) num cur) by assumption.
  cbn [mbind result_bind].
  rewrite (py_index_nonneg data (num - Fill.new st - 1) fr) by assumption.
  cbn [mbind result_bind].
  assert (Hlen : 0 <= num < len (Fill.filledin st)).
  { apply lookup_lt_Some in Hcur. unfold len. lia. }
  destruct (Z.eqb_spec (frame cur - frame fr) 0) as [Hd|Hd].
  - rewrite (py_index_nonneg data (num - Fill.new st - 1) fr) by assumption.
    cbn [mbind result_bind]. rewrite norm_index_nonneg by exact Hlen.
    cbn [mbind result_bind]. eexists. split; [reflexivity |]. split; reflexivity.
  - destruct (Z.ltb_spec (frame cur - frame fr) 0) as [Hd'|Hd']; [lia |].
    rewrite (py_index_nonneg data (num - Fill.new st - 1) fr) by assumption.
    cbn [mbind result_bind]. rewrite norm_index_nonneg by exact Hlen.
    cbn [mbind result_bind]. eexists. split; [reflexivity |]. split; reflexivity.
Qed.

Lemma step_wait (data : list (row F)) (st : Fill.state F) (num : Z)
    (cur fr src : row F) :
  0 <= num ->
  Fill.filledin st !! Z.to_nat num = Some cur ->
  1 <= num - Fill.new st - 1 ->
  data !! Z.to_nat (num - Fill.new st - 1) = Some fr ->
  data !! Z.to_nat (num - Fill.new st - 2) = Some src ->
  frame cur < frame fr ->
  exists st' : Fill.state F,
    Fill.step data st num = Ok st'
    /\ Fill.new st' = Fill.new st + 1
    /\ Fill.filledin st' = <[Z.to_nat num := relabel src (frame cur)]> (Fill.filledin st).
Proof.
  intros Hnum Hcur Hj Hfr Hsrc Hlt. unfold Fill.step.
  rewrite (py_index_nonneg (Fill.filledin st) num cur) by assumption.
  cbn [mbind result_bind].
  rewrite (py_index_nonneg data (num - Fill.new st - 1) fr) by (lia || assumption).
  cbn [mbind result_bind].
  assert (Hlen : 0 <= num < len (Fill.filledin st)).
  { apply lookup_lt_Some in Hcur. unfold len. lia. }
  destruct (Z.eqb_spec (frame cur - frame fr) 0) as [Hd|Hd]; [lia |].
  destruct (Z.ltb_spec (frame cur - frame fr) 0) as [Hd'|Hd']; [| lia].
  replace (num - (Fill.new st + 1) - 1) with (num - Fill.new st - 2) by lia.
  rewrite (py_index_nonneg data (num - Fill.new st - 2) src) by (lia || assumption).
  cbn [mbind result_bind]. rewrite norm_index_nonneg by exact Hlen.
  cbn [mbind result_bind]. eexists. split; [reflexivity |]. split; reflexivity.
Qed.

Lemma fill_inv_relabel (mn newshap : Z) (st st' : Fill.state F) (num : Z)
    (cur r : row F) :
  fill_inv mn newshap st ->
  Fill.filledin st !! Z.to_nat num = Some cur ->
  Fill.filledin st' = <[Z.to_nat num := relabel r (frame cur)]> (Fill.filledin st) ->
  fill_inv mn newshap st'.
Proof.
  unfold fill_inv. intros Hinv Hcur ->.
  change (map frame ?l) with (frame <$> l).
  rewrite list_fmap_insert. cbn [frame relabel].
  rewrite list_insert_id; [exact Hinv |].
  rewrite list_lookup_fmap, Hcur. reflexivity.
Qed.

End FillRows.

Section FillBehaviour.
Context {F : Type} `{Float F}.

(** [fillin2] up to its loop, on an input that passes its assertions. *)
Lemma fillin2_unfold (r0 : row F) (data' : list (row F)) :
  nondecreasing (map frame (r0 :: data')) ->
  exists (mx : Z) (st0 : Fill.state F),
    map frame (r0 :: data') !! length data' = Some mx
    /\ frame r0 <= mx
    /\ fill_inv (frame r0) (mx + 1 - frame r0) st0
    /\ Fill.new st0 = 0
    /\ Fill.filledin st0 !! 0%nat = Some r0
    /\ Fill.fillin2 (r0 :: data')
       = for_each (Fill.step (r0 :: data')) (py_range 1 (mx + 1 - frame r0)) st0
         ≫= fun st => Ok (Fill.filledin st).
Proof.
  intros Hnd.
  set (mx := foldl Z.max (frame r0) (map frame data')).
  assert (Hmn : foldl Z.min (frame r0) (map frame data') = frame r0)
    by (apply foldl_min_first; exact Hnd).
  assert (Hle : frame r0 <= mx) by apply foldl_max_ge.
  assert (Hlast : map frame (r0 :: data') !! length data' = Some mx).
  { pose proof (foldl_max_last (map frame data') (frame r0) Hnd) as Hl.
    rewrite length_map in Hl. exact Hl. }
  exists mx.
  unfold Fill.fillin2.
  rewrite (proj2 (frames_check_true _) Hnd). cbn [negb].
  destruct (Z.ltb_spec 0 (len (r0 :: data'))) as [Hlen|Hlen];
    [| unfold len in Hlen; cbn [length] in Hlen; lia].
  cbn [negb map py_max py_min mbind result_bind]. rewrite Hmn. fold mx.
  rewrite (py_index_nonneg (r0 :: data') 0 r0) by (lia || reflexivity).
  cbn [mbind result_bind].
  rewrite norm_index_nonneg by (unfold len; rewrite length_replicate; lia).
  cbn [mbind result_bind].
  match goal with
  | |- context [for_each _ _ ?s] => exists s
  end.
  split; [exact Hlast |]. split; [exact Hle |]. split.
  { unfold fill_inv. cbn [Fill.filledin].
    rewrite set_frames_frame. unfold len.
    rewrite length_insert, length_replicate. f_equal. lia. }
  split; [reflexivity |]. split; [| reflexivity].
  cbn [Fill.filledin]. change (Z.to_nat 0) with 0%nat.
  erewrite set_frames_lookup.
  2:{ apply list_lookup_insert_eq. rewrite length_replicate. lia. }
  destruct r0; simpl. do 2 f_equal. lia.
Qed.

Lemma not_last_row (data : list (row F)) (mx : Z) (j : nat) (r : row F) :
  data <> [] ->
  map frame data !! (length data - 1)%nat = Some mx ->
  data !! j = Some r -> frame r < mx -> (S j < length data)%nat.
Proof.
  intros Hne Hlast Hr Hlt. apply lookup_lt_Some in Hr as Hj.
  destruct (decide (j = (length data - 1)%nat)) as [->|Hneq]; [| lia].
  rewrite (frame_lookup _ _ _ Hr) in Hlast. inversion Hlast. lia.
Qed.

(** No look-ahead.  On every input that passes the assertions, each row
    of the output repeats an input row observed at its frame or before,
    and the first row is the first input row. *)
Lemma fillin2_copies (data : list (row F)) :
  data <> [] -> nondecreasing (map frame data) ->
  exists out : list (row F),
    Fill.fillin2 data = Ok out
    /\ out !! 0%nat = data !! 0%nat
    /\ (forall o : row F, o ∈ out -> copied data o).
Proof.
  intros Hne Hnd. destruct data as [|r0 data']; [congruence |].
  destruct (fillin2_unfold r0 data' Hnd)
    as (mx & st0 & Hlast & Hle & Hinv0 & Hnew0 & Hrow0 & Hrun).
  set (data := r0 :: data') in *. set (mn := frame r0) in *.
  set (N := mx + 1 - mn) in *.
  assert (Hlast' : map frame data !! (length data - 1)%nat = Some mx).
  { subst data. cbn [length]. rewrite Nat.sub_succ, Nat.sub_0_r. exact Hlast. }
  set (I := fun (num : Z) (st : Fill.state F) =>
    fill_inv mn N st
    /\ Fill.filledin st !! 0%nat = Some r0
    /\ (forall (k : nat) (o : row F), Z.of_nat k < num ->
          Fill.filledin st !! k = Some o -> copied data o)
    /\ (num < N -> exists fr rp : row F,
          0 <= num - Fill.new st - 1
          /\ data !! Z.to_nat (num - Fill.new st - 1) = Some fr
          /\ data !! Z.to_nat (Z.max (num - Fill.new st - 2) 0) = Some rp
          /\ frame rp <= mn + num - 1)).
  destruct (for_each_range_inv (Fill.step data) I 1 N st0) as (st' & Hloop & HI).
  - subst N. lia.
  - split; [exact Hinv0 |]. split; [exact Hrow0 |]. split.
    + intros k o Hk Ho. assert (k = 0%nat) by lia. subst k.
      rewrite Hrow0 in Ho. inversion Ho; subst o.
      exists r0. split; [apply elem_of_cons; left; reflexivity |].
      split; [destruct r0; reflexivity | lia].
    + intros _. exists r0, r0. rewrite Hnew0.
      repeat split; try reflexivity; subst mn; lia.
  - intros num st Hnum (Hinv & Hr0 & Hrows & Hcursor).
    destruct (Hcursor ltac:(lia)) as (fr & rp & Hj & Hfr & Hrp & Hrpf).
    destruct (fill_inv_lookup _ _ _ num Hinv) as (cur & Hcur & Hcurf); [lia |].
    assert (Hin : forall (j : nat) (r : row F), data !! j = Some r -> r ∈ data).
    { intros j r Hr. apply list_elem_of_lookup. eauto. }
    destruct (Z_le_gt_dec (frame fr) (frame cur)) as [Hle'|Hgt].
    + destruct (step_copy data st num cur fr ltac:(lia) Hcur Hj Hfr Hle')
        as (st1 & Hstep & Hnew1 & Hfilled).
      exists st1. split; [exact Hstep |].
      split; [exact (fill_inv_relabel _ _ _ _ _ _ _ Hinv Hcur Hfilled) |].
      split; [rewrite Hfilled, list_lookup_insert_ne by lia; exact Hr0 |].
      split.
      * intros k o Hk Ho. rewrite Hfilled in Ho.
        destruct (decide (k = Z.to_nat num)) as [->|Hneq].
        -- rewrite list_lookup_insert_eq in Ho
             by (apply lookup_lt_Some in Hcur; exact Hcur).
           inversion Ho; subst o. exists fr.
           split; [exact (Hin _ _ Hfr) |]. split; [reflexivity | exact Hle'].
        -- rewrite list_lookup_insert_ne in Ho by congruence.
           apply (Hrows k o); [lia | exact Ho].
      * intros Hnext. rewrite Hnew1.
        assert (Hnl : (S (Z.to_nat (num - Fill.new st - 1)) < length data)%nat).
        { apply (not_last_row data mx _ fr); [discriminate | exact Hlast' | exact Hfr |].
          subst N. lia. }
        destruct (lookup_lt_is_Some_2 data _ Hnl) as (fr' & Hfr').
        exists fr', fr. split; [lia |].
        replace (Z.to_nat (num + 1 - Fill.new st - 1))
          with (S (Z.to_nat (num - Fill.new st - 1))) by lia.
        split; [exact Hfr' |].
        replace (Z.to_nat (Z.max (num + 1 - Fill.new st - 2) 0))
          with (Z.to_nat (num - Fill.new st - 1)) by lia.
        split; [exact Hfr | lia].
    + assert (Hj1 : 1 <= num - Fill.new st - 1).
      { destruct (Z_le_gt_dec 1 (num - Fill.new st - 1)) as [|Hz]; [assumption |].
        replace (Z.to_nat (Z.max (num - Fill.new st - 2) 0))
          with (Z.to_nat (num - Fill.new st - 1)) in Hrp by lia.
        assert (rp = fr) by congruence. subst rp. lia. }
      replace (Z.to_nat (Z.max (num - Fill.new st - 2) 0))
        with (Z.to_nat (num - Fill.new st - 2)) in Hrp by lia.
      destruct (step_wait data st num cur fr rp ltac:(lia) Hcur Hj1 Hfr Hrp ltac:(lia))
        as (st1 & Hstep & Hnew1 & Hfilled).
      exists st1. split; [exact Hstep |].
      split; [exact (fill_inv_relabel _ _ _ _ _ _ _ Hinv Hcur Hfilled) |].
      split; [rewrite Hfilled, list_lookup_insert_ne by lia; exact Hr0 |].
      split.
      * intros k o Hk Ho. rewrite Hfilled in Ho.
        destruct (decide (k = Z.to_nat num)) as [->|Hneq].
        -- rewrite list_lookup_insert_eq in Ho
             by (apply lookup_lt_Some in Hcur; exact Hcur).
           inversion Ho; subst o. exists rp.
           split; [exact (Hin _ _ Hrp) |]. split; [reflexivity |].
           cbn [frame relabel]. lia.
        -- rewrite list_lookup_insert_ne in Ho by congruence.
           apply (Hrows k o); [lia | exact Ho].
      * intros Hnext. rewrite Hnew1. exists fr, rp. split; [lia |].
        replace (num + 1 - (Fill.new st + 1) - 1) with (num - Fill.new st - 1) by lia.
        split; [exact Hfr |].
        replace (Z.to_nat (Z.max (num + 1 - (Fill.new st + 1) - 2) 0))
          with (Z.to_nat (num - Fill.new st - 2)) by lia.
        split; [exact Hrp | lia].
  - destruct HI as (Hinv & Hr0 & Hrows & _).
    exists (Fill.filledin st'). rewrite Hrun, Hloop. cbn [mbind result_bind].
    split; [reflexivity |]. split; [exact Hr0 |].
    intros o Ho. apply list_elem_of_lookup in Ho as (k & Hk).
    apply (Hrows k o); [| exact Hk].
    apply lookup_lt_Some in Hk. rewrite (fill_inv_length _ _ _ Hinv) in Hk. lia.
Qed.

End FillBehaviour.

Section FillCarry.
Context {F : Type} `{Float F}.

Lemma frames_lt (data : list (row F)) (i j : nat) (ri rj : row F) :
  increasing (map frame data) -> (i < j)%nat ->
  data !! i = Some ri -> data !! j = Some rj -> frame ri < frame rj.
Proof.
  intros Hinc Hij Hi Hj.
  exact (increasing_lt _ i j _ _ Hinc Hij (frame_lookup _ _ _ Hi) (frame_lookup _ _ _ Hj)).
Qed.

(** The row at index [i], under a frame number that the next row has
    not reached, is the last observation carried forward. *)
Lemma carried_intro (data : list (row F)) (i : nat) (r : row F) (f : Z) :
  increasing (map frame data) ->
  data !! i = Some r ->
  frame r <= f ->
  (forall r' : row F, data !! S i = Some r' -> f < frame r') ->
  carried data (relabel r f).
Proof.
  intros Hinc Hr Hle Hnext. exists r.
  split; [apply list_elem_of_lookup; eauto |]. split; [reflexivity |].
  split; [exact Hle |]. cbn [frame relabel].
  intros r' Hin Hle'. apply list_elem_of_lookup in Hin as (i' & Hr').
  destruct (decide (i' <= i)%nat) as [Hi|Hi].
  - exact (nondecreasing_le _ i' i _ _ (increasing_nondecreasing _ Hinc) Hi
             (frame_lookup _ _ _ Hr') (frame_lookup _ _ _ Hr)).
  - assert (HSi : (S i < length data)%nat) by (apply lookup_lt_Some in Hr'; lia).
    destruct (lookup_lt_is_Some_2 data (S i) HSi) as (r'' & Hr'').
    pose proof (Hnext r'' Hr'') as Hlt.
    pose proof (nondecreasing_le _ (S i) i' _ _ (increasing_nondecreasing _ Hinc)
                  ltac:(lia) (frame_lookup _ _ _ Hr'') (frame_lookup _ _ _ Hr')).
    lia.
Qed.

(** What [fillin2] returns on strictly increasing frames.  Let the input
    start with a run of [g + 1] rows at consecutive frames, followed by a
    gap (or by nothing).  The output keeps the first row; the rows 1 to
    [g] repeat the input row before them; every row after that carries
    the last observation forward. *)
Lemma fillin2_rows (data : list (row F)) (r0 : row F) (g : nat) :
  increasing (map frame data) ->
  data !! 0%nat = Some r0 ->
  (g < length data)%nat ->
  (forall (k : nat) (r : row F), (k <= g)%nat -> data !! k = Some r ->
     frame r = frame r0 + Z.of_nat k) ->
  (forall r : row F, data !! S g = Some r -> frame r0 + Z.of_nat g + 2 <= frame r) ->
  exists out : list (row F),
    Fill.fillin2 data = Ok out
    /\ out !! 0%nat = Some r0
    /\ (forall (k : nat) (src : row F), (1 <= k <= g)%nat ->
          data !! (k - 1)%nat = Some src ->
          out !! k = Some (relabel src (frame r0 + Z.of_nat k)))
    /\ (forall (k : nat) (o : row F), (g < k)%nat -> out !! k = Some o ->
          carried data o).
Proof.
  intros Hinc Hr0 Hg Hrun Hgap.
  pose proof (increasing_nondecreasing _ Hinc) as Hnd.
  destruct data as [|r0' data']; [discriminate |].
  assert (r0' = r0) by (simpl in Hr0; congruence). subst r0'.
  destruct (fillin2_unfold r0 data' Hnd)
    as (mx & st0 & Hlast & Hle & Hinv0 & Hnew0 & Hrow0 & Hfill).
  set (data := r0 :: data') in *. set (mn := frame r0) in *.
  set (N := mx + 1 - mn) in *.
  assert (Hlast' : map frame data !! (length data - 1)%nat = Some mx).
  { subst data. cbn [length]. rewrite Nat.sub_succ, Nat.sub_0_r. exact Hlast. }
  assert (Hne : data <> []) by discriminate.
  set (I := fun (num : Z) (st : Fill.state F) =>
    fill_inv mn N st
    /\ Fill.filledin st !! 0%nat = Some r0
    /\ (forall (k : nat) (src : row F), (1 <= k <= g)%nat -> Z.of_nat k < num ->
          data !! (k - 1)%nat = Some src ->
          Fill.filledin st !! k = Some (relabel src (mn + Z.of_nat k)))
    /\ (forall (k : nat) (o : row F), (g < k)%nat -> Z.of_nat k < num ->
          Fill.filledin st !! k = Some o -> carried data o)
    /\ (num <= Z.of_nat g + 1 -> Fill.new st = 0)
    /\ (Z.of_nat g + 1 < num -> num < N -> exists rp rj : row F,
          1 <= num - Fill.new st - 1
          /\ data !! Z.to_nat (num - Fill.new st - 2) = Some rp
          /\ data !! Z.to_nat (num - Fill.new st - 1) = Some rj
          /\ frame rp < mn + num <= frame rj)).
  destruct (for_each_range_inv (Fill.step data) I 1 N st0) as (st' & Hloop & HI).
  - subst N. lia.
  - split; [exact Hinv0 |]. split; [exact Hrow0 |].
    split; [intros k src Hk Hlt; lia |]. split; [intros k o Hk Hlt; lia |].
    split; [intros _; exact Hnew0 | intros Hlt; lia].
  - intros num st Hnum (Hinv & Hfirst & Hlag & Hcar & Hflag & Hsync).
    destruct (fill_inv_lookup _ _ _ num Hinv) as (cur & Hcur & Hcurf); [lia |].
    assert (Hcurlt : (Z.to_nat num < length (Fill.filledin st))%nat)
      by (apply lookup_lt_Some in Hcur; exact Hcur).
    destruct (Z_le_gt_dec num (Z.of_nat g + 1)) as [Hphase|Hphase].
    + (* the run at consecutive frames: the cursor stays one row behind *)
      specialize (Hflag Hphase).
      destruct (lookup_lt_is_Some_2 data (Z.to_nat (num - 1)) ltac:(lia))
        as (src & Hsrc).
      pose proof (Hrun (Z.to_nat (num - 1)) src ltac:(lia) Hsrc) as Hsrcf.
      fold mn in Hsrcf.
      destruct (step_copy data st num cur src ltac:(lia) Hcur ltac:(lia))
        as (st1 & Hstep & Hnew1 & Hfilled).
      { rewrite Hflag. replace (num - 0 - 1) with (num - 1) by lia. exact Hsrc. }
      { lia. }
      exists st1. split; [exact Hstep |].
      split; [exact (fill_inv_relabel _ _ _ _ _ _ _ Hinv Hcur Hfilled) |].
      split; [rewrite Hfilled, list_lookup_insert_ne by lia; exact Hfirst |].
      split; [| split; [| split]].
      * intros k src' Hk Hlt Hsrc'. rewrite Hfilled.
        destruct (decide (k = Z.to_nat num)) as [->|Hneq].
        -- rewrite list_lookup_insert_eq by exact Hcurlt.
           replace (Z.to_nat num - 1)%nat with (Z.to_nat (num - 1)) in Hsrc' by lia.
           assert (src' = src) by congruence. subst src'.
           do 2 f_equal. lia.
        -- rewrite list_lookup_insert_ne by congruence.
           apply Hlag; [exact Hk | lia | exact Hsrc'].
      * intros k o Hk Hlt Ho. rewrite Hfilled in Ho.
        destruct (decide (k = Z.to_nat num)) as [->|Hneq].
        -- rewrite list_lookup_insert_eq in Ho by exact Hcurlt.
           inversion Ho; subst o.
           apply (carried_intro data (Z.to_nat (num - 1)) src); [exact Hinc | exact Hsrc | lia |].
           intros r' Hr'. replace (S (Z.to_nat (num - 1))) with (S g) in Hr' by lia.
           pose proof (Hgap r' Hr'). fold mn in H0. lia.
        -- rewrite list_lookup_insert_ne in Ho by congruence.
           apply (Hcar k o); [exact Hk | lia | exact Ho].
      * intros _. rewrite Hnew1. exact Hflag.
      * intros Hg1 Hnext. rewrite Hnew1, Hflag.
        assert (Hnum' : num = Z.of_nat g + 1) by lia.
        assert (Hnl : (S (Z.to_nat (num - 1)) < length data)%nat).
        { apply (not_last_row data mx _ src Hne Hlast' Hsrc). subst N. lia. }
        destruct (lookup_lt_is_Some_2 data _ Hnl) as (rj & Hrj).
        exists src, rj. split; [lia |].
        replace (Z.to_nat (num + 1 - 0 - 2)) with (Z.to_nat (num - 1)) by lia.
        split; [exact Hsrc |].
        replace (Z.to_nat (num + 1 - 0 - 1)) with (S (Z.to_nat (num - 1))) by lia.
        split; [exact Hrj |].
        replace (S (Z.to_nat (num - 1))) with (S g) in Hrj by lia.
        pose proof (Hgap rj Hrj). fold mn in H0. lia.
    + (* after the first gap: the cursor is on the next observation *)
      destruct (Hsync ltac:(lia) ltac:(lia)) as (rp & rj & Hj1 & Hrp & Hrj & Hbetween).
      assert (HSj : S (Z.to_nat (num - Fill.new st - 2))
                    = Z.to_nat (num - Fill.new st - 1)) by lia.
      destruct (Z_le_gt_dec (frame rj) (frame cur)) as [Hle'|Hgt].
      * destruct (step_copy data st num cur rj ltac:(lia) Hcur ltac:(lia) Hrj Hle')
          as (st1 & Hstep & Hnew1 & Hfilled).
        exists st1. split; [exact Hstep |].
        split; [exact (fill_inv_relabel _ _ _ _ _ _ _ Hinv Hcur Hfilled) |].
        split; [rewrite Hfilled, list_lookup_insert_ne by lia; exact Hfirst |].
        split; [| split; [| split]].
        -- intros k src' Hk Hlt Hsrc'. rewrite Hfilled.
           rewrite list_lookup_insert_ne by lia.
           apply Hlag; [exact Hk | lia | exact Hsrc'].
        -- intros k o Hk Hlt Ho. rewrite Hfilled in Ho.
           destruct (decide (k = Z.to_nat num)) as [->|Hneq].
           ++ rewrite list_lookup_insert_eq in Ho by exact Hcurlt.
              inversion Ho; subst o.
              apply (carried_intro data _ rj (frame cur) Hinc Hrj Hle').
              intros r' Hr'.
              pose proof (frames_lt data (Z.to_nat (num - Fill.new st - 1))
                            (S (Z.to_nat (num - Fill.new st - 1))) rj r' Hinc
                            ltac:(lia) Hrj Hr'). lia.
           ++ rewrite list_lookup_insert_ne in Ho by congruence.
              apply (Hcar k o); [exact Hk | lia | exact Ho].
        -- intros Hlt. lia.
        -- intros _ Hnext. rewrite Hnew1.
           assert (Hnl : (S (Z.to_nat (num - Fill.new st - 1)) < length data)%nat).
           { apply (not_last_row data mx _ rj Hne Hlast' Hrj). subst N. lia. }
           destruct (lookup_lt_is_Some_2 data _ Hnl) as (rj' & Hrj').
           exists rj, rj'. split; [lia |].
           replace (Z.to_nat (num + 1 - Fill.new st - 2))
             with (Z.to_nat (num - Fill.new st - 1)) by lia.
           split; [exact Hrj |].
           replace (Z.to_nat (num + 1 - Fill.new st - 1))
             with (S (Z.to_nat (num - Fill.new st - 1))) by lia.
           split; [exact Hrj' |].
           pose proof (frames_lt data (Z.to_nat (num - Fill.new st - 1))
                         (S (Z.to_nat (num - Fill.new st - 1))) rj rj' Hinc
                         ltac:(lia) Hrj Hrj'). lia.
      * destruct (step_wait data st num cur rj rp ltac:(lia) Hcur Hj1 Hrj Hrp ltac:(lia))
          as (st1 & Hstep & Hnew1 & Hfilled).
        exists st1. split; [exact Hstep |].
        split; [exact (fill_inv_relabel _ _ _ _ _ _ _ Hinv Hcur Hfilled) |].
        split; [rewrite Hfilled, list_lookup_insert_ne by lia; exact Hfirst |].
        split; [| split; [| split]].
        -- intros k src' Hk Hlt Hsrc'. rewrite Hfilled.
           rewrite list_lookup_insert_ne by lia.
           apply Hlag; [exact Hk | lia | exact Hsrc'].
        -- intros k o Hk Hlt Ho. rewrite Hfilled in Ho.
           destruct (decide (k = Z.to_nat num)) as [->|Hneq].
           ++ rewrite list_lookup_insert_eq in Ho by exact Hcurlt.
              inversion Ho; subst o.
              apply (carried_intro data _ rp (frame cur) Hinc Hrp ltac:(lia)).
              intros r' Hr'. rewrite HSj in Hr'.
              assert (r' = rj) by congruence. subst r'. lia.
           ++ rewrite list_lookup_insert_ne in Ho by congruence.
              apply (Hcar k o); [exact Hk | lia | exact Ho].
        -- intros Hlt. lia.
        -- intros _ Hnext. rewrite Hnew1. exists rp, rj. split; [lia |].
           replace (num + 1 - (Fill.new st + 1) - 2) with (num - Fill.new st - 2) by lia.
           replace (num + 1 - (Fill.new st + 1) - 1) with (num - Fill.new st - 1) by lia.
           split; [exact Hrp |]. split; [exact Hrj | lia].
  - destruct HI as (Hinv & Hfirst & Hlag & Hcar & _).
    exists (Fill.filledin st'). rewrite Hfill, Hloop. cbn [mbind result_bind].
    split; [reflexivity |]. split; [exact Hfirst |].
    assert (Hbound : forall (k : nat) (o : row F),
              Fill.filledin st' !! k = Some o -> Z.of_nat k < N).
    { intros k o Hk. apply lookup_lt_Some in Hk.
      rewrite (fill_inv_length _ _ _ Hinv) in Hk. lia. }
    split.
    + intros k src Hk Hsrc. apply Hlag; [exact Hk | | exact Hsrc].
      (* row k exists: frame r0 + k is a frame of the run *)
      assert (Hkl : (k < length data)%nat) by lia.
      destruct (lookup_lt_is_Some_2 data k Hkl) as (rk & Hrk).
      pose proof (Hrun k rk ltac:(lia) Hrk) as Hrkf. fold mn in Hrkf.
      pose proof (nondecreasing_le _ k (length data - 1) _ _ Hnd ltac:(lia)
                    (frame_lookup _ _ _ Hrk) Hlast').
      subst N. lia.
    + intros k o Hk Ho. apply (Hcar k o Hk); [| exact Ho]. exact (Hbound k o Ho).
Qed.

End FillCarry.

(** ** The filler: further properties *)

(** X1.  When the frames are strictly increasing and a gap follows the
    first observation (the second frame is at least the first plus two),
    [fillin2] is last-observation-carried-forward: every output row
    repeats the latest input row observed at its frame or before. *)
Theorem fillin2_carry_forward {F : Type} `{Float F} (data : list (row F)) (r0 : row F) :
  increasing (map frame data) ->
  data !! 0%nat = Some r0 ->
  (forall r : row F, data !! 1%nat = Some r -> frame r0 + 2 <= frame r) ->
  exists out : list (row F),
    Fill.fillin2 data = Ok out /\ (forall o : row F, o ∈ out -> carried data o).
Proof.
  intros Hinc Hr0 Hgap.
  destruct (fillin2_rows data r0 0 Hinc Hr0) as (out & Hout & Hfirst & _ & Hcar).
  - apply lookup_lt_Some in Hr0. exact Hr0.
  - intros k r Hk Hr. assert (k = 0%nat) by lia. subst k.
    assert (r = r0) by congruence. subst r. lia.
  - intros r Hr. specialize (Hgap r Hr). lia.
  - exists out. split; [exact Hout |].
    intros o Ho. apply list_elem_of_lookup in Ho as ([|k] & Hk).
    + rewrite Hfirst in Hk. inversion Hk; subst o.
      assert (Heq : relabel r0 (frame r0) = r0) by (destruct r0; reflexivity).
      rewrite <- Heq.
      apply (carried_intro data 0 r0 (frame r0) Hinc Hr0); [lia |].
      intros r' Hr'. specialize (Hgap r' Hr'). lia.
    + apply (Hcar (S k) o); [lia | exact Hk].
Qed.

Lemma fillin2_carry_forward_witness :
  exists out : list (row Q),
    Fill.fillin2 [qrow 1 0 10 10 0; qrow 1 3 20 20 0; qrow 1 4 30 30 0] = Ok out
    /\ (forall o : row Q, o ∈ out ->
          carried [qrow 1 0 10 10 0; qrow 1 3 20 20 0; qrow 1 4 30 30 0] o).
Proof.
  apply (fillin2_carry_forward
           [qrow 1 0 10 10 0; qrow 1 3 20 20 0; qrow 1 4 30 30 0] (qrow 1 0 10 10 0)).
  - intros [|[|[|i]]] a b Ha Hb; simpl in Ha, Hb; inversion Ha; inversion Hb; lia.
  - reflexivity.
  - intros r Hr. simpl in Hr. inversion Hr. simpl. lia.
Defined.

(** X2.  On strictly increasing frames in general: if the input starts
    with [g + 1] rows at consecutive frames and a gap (or nothing) follows
    them, the output keeps the first row, its rows 1 to [g] repeat the
    input row before them (the observation of their own frame is lost),
    and every later row carries the last observation forward. *)
Theorem fillin2_lag_then_carry {F : Type} `{Float F}
    (data : list (row F)) (r0 : row F) (g : nat) :
  increasing (map frame data) ->
  data !! 0%nat = Some r0 ->
  (g < length data)%nat ->
  (forall (k : nat) (r : row F), (k <= g)%nat -> data !! k = Some r ->
     frame r = frame r0 + Z.of_nat k) ->
  (forall r : row F, data !! S g = Some r -> frame r0 + Z.of_nat g + 2 <= frame r) ->
  exists out : list (row F),
    Fill.fillin2 data = Ok out /\ lag_then_carry data r0 g out.
Proof.
  intros Hinc Hr0 Hg Hrun Hgap.
  destruct (fillin2_rows data r0 g Hinc Hr0 Hg Hrun Hgap)
    as (out & Hout & Hfirst & Hlag & Hcar).
  exists out. split; [exact Hout |]. split; [exact Hfirst |]. split; assumption.
Qed.

Lemma fillin2_lag_then_carry_witness :
  exists out : list (row Q),
    Fill.fillin2 [qrow 1 0 10 10 0; qrow 1 1 20 20 0; qrow 1 2 30 30 0;
                  qrow 1 5 40 40 0] = Ok out
    /\ lag_then_carry [qrow 1 0 10 10 0; qrow 1 1 20 20 0; qrow 1 2 30 30 0;
                       qrow 1 5 40 40 0] (qrow 1 0 10 10 0) 2 out.
Proof.
  apply (fillin2_lag_then_carry
           [qrow 1 0 10 10 0; qrow 1 1 20 20 0; qrow 1 2 30 30 0; qrow 1 5 40 40 0]
           (qrow 1 0 10 10 0) 2).
  - intros [|[|[|[|i]]]] a b Ha Hb; simpl in Ha, Hb; inversion Ha; inversion Hb; lia.
  - reflexivity.
  - simpl. lia.
  - intros [|[|[|k]]] r Hk Hr; simpl in Hr; inversion Hr; simpl; lia.
  - intros r Hr. simpl in Hr. inversion Hr. simpl. lia.
Defined.

(** X3.  No look-ahead: on every input that passes the assertions
    (non-empty, frames non-decreasing), every output row repeats an input
    row, track id and coordinates, observed at its frame or before, and
    the first output row is the first input row. *)
Theorem fillin2_no_look_ahead {F : Type} `{Float F} (data : list (row F)) :
  data <> [] -> nondecreasing (map frame data) ->
  exists out : list (row F),
    Fill.fillin2 data = Ok out
    /\ out !! 0%nat = data !! 0%nat
    /\ (forall o : row F, o ∈ out -> copied data o).
Proof. exact (fillin2_copies data). Qed.

Lemma fillin2_no_look_ahead_witness :
  exists out : list (row Q),
    Fill.fillin2 [qrow 1 0 10 10 0; qrow 1 0 20 20 0; qrow 1 3 30 30 0] = Ok out
    /\ out !! 0%nat = [qrow 1 0 10 10 0; qrow 1 0 20 20 0; qrow 1 3 30 30 0] !! 0%nat
    /\ (forall o : row Q, o ∈ out ->
          copied [qrow 1 0 10 10 0; qrow 1 0 20 20 0; qrow 1 3 30 30 0] o).
Proof.
  apply (fillin2_no_look_ahead
           [qrow 1 0 10 10 0; qrow 1 0 20 20 0; qrow 1 3 30 30 0]).
  - discriminate.
  - apply frames_check_true. reflexivity.
Defined.

(** X4.  On every trajectory without gaps, [fillin2] returns the input
    lagged by one row: the first row, then each row but the last under the
    frame number of the row after it. *)
Theorem fillin2_dense_lagged {F : Type} `{Float F} (data : list (row F)) :
  data <> [] -> dense (map frame data) -> Fill.fillin2 data = Ok (lagged data).
Proof. exact (fillin2_dense data). Qed.

Lemma fillin2_dense_lagged_witness :
  Fill.fillin2 [qrow 1 4 10 10 0; qrow 1 5 20 20 0; qrow 1 6 30 30 0]
  = Ok (lagged [qrow 1 4 10 10 0; qrow 1 5 20 20 0; qrow 1 6 30 30 0]).
Proof.
  apply (fillin2_dense_lagged [qrow 1 4 10 10 0; qrow 1 5 20 20 0; qrow 1 6 30 30 0]).
  - discriminate.
  - intros [|[|[|i]]] a b Ha Hb; simpl in Ha, Hb; inversion Ha; inversion Hb; lia.
Defined.

(** ** The MSD engine: the loop over the lags *)

Lemma for_each_fail {S A : Type} (body : S -> A -> result S) (l1 l2 : list A)
    (a : A) (st s1 : S) (e : pyerror) :
  for_each body l1 st = Ok s1 -> body s1 a = Err e ->
  for_each body (l1 ++ a :: l2) st = Err e.
Proof.
  revert st. induction l1 as [|b l1 IH]; intros st Hrun Hfail.
  - simpl in Hrun. inversion Hrun; subst. simpl. now rewrite Hfail.
  - simpl in Hrun |- *. destruct (body st b) as [s|e']; [| discriminate].
    exact (IH s Hrun Hfail).
Qed.

Section LagLoop.
Context {F : Type} `{Float F}.

Lemma set_row_Ok (SM : list (list F)) (r c : nat) (frame : Z) (v : list F) :
  has_shape r c SM -> 0 <= frame < Z.of_nat r -> length v = c ->
  MMSD.set_row SM frame v = Ok (<[Z.to_nat frame := v]> SM)
  /\ has_shape r c (<[Z.to_nat frame := v]> SM).
Proof.
  intros [Hr Hc] Hframe Hv. unfold MMSD.set_row.
  rewrite norm_index_nonneg by (unfold len; lia). cbn [mbind result_bind].
  destruct (lookup_lt_is_Some_2 SM (Z.to_nat frame) ltac:(lia)) as (old & Hold).
  rewrite Hold.
  assert (Hlen : length old = c).
  { rewrite Forall_forall in Hc. apply Hc. apply list_elem_of_lookup. eauto. }
  rewrite Hlen. destruct (decide (length v = c)); [| contradiction].
  split; [reflexivity |]. split; [rewrite length_insert; exact Hr |].
  apply Forall_insert; assumption.
Qed.

Lemma lag_loop (xs_m ys_m : list (list F)) (n P : nat) (frames L : Z)
    (SM0 : list (list F)) :
  has_shape n P xs_m -> has_shape n P ys_m ->
  has_shape (Z.to_nat frames) P SM0 ->
  (forall k : nat, (k < Z.to_nat frames)%nat -> SM0 !! k = Some (replicate P f0)) ->
  1 <= L -> L <= Z.of_nat n -> L <= frames ->
  exists st : MMSD.state F,
    for_each (MMSD.lag_step (MMSD.masked_equal0 xs_m) (MMSD.masked_equal0 ys_m))
      (py_range 1 L) (MMSD.State SM0 SM0 None None) = Ok st
    /\ lags_stored xs_m ys_m (Z.to_nat frames) P L st.
Proof.
  intros Hxs Hys HSM Hzero HL Hn Hframes.
  apply (for_each_range_inv _ (lags_stored xs_m ys_m (Z.to_nat frames) P) 1 L);
    [exact HL | |].
  - split; [exact HSM |]. split; [exact HSM |].
    split; [intros k Hk; lia |].
    split; [intros k _ Hk; split; apply Hzero; exact Hk | intros Hlt; lia].
  - intros num st Hnum (Hsx & Hsy & Hstored & Hfree & _).
    destruct (lag_means_Ok xs_m num n P Hxs ltac:(lia)) as (mxa & Hmxa & Hlx).
    destruct (lag_means_Ok ys_m num n P Hys ltac:(lia)) as (mya & Hmya & Hly).
    destruct (set_row_Ok (MMSD.SM1x st) _ P num (MMSD.ma_data mxa) Hsx ltac:(lia))
      as [Hsetx Hsx'];
      [unfold MMSD.ma_data; rewrite length_map; exact Hlx |].
    destruct (set_row_Ok (MMSD.SM1y st) _ P num (MMSD.ma_data mya) Hsy ltac:(lia))
      as [Hsety Hsy'];
      [unfold MMSD.ma_data; rewrite length_map; exact Hly |].
    unfold MMSD.lag_step. rewrite Hmxa. cbn [mbind result_bind].
    rewrite Hmya. cbn [mbind result_bind]. rewrite Hsetx. cbn [mbind result_bind].
    rewrite Hsety. cbn [mbind result_bind].
    eexists. split; [reflexivity |]. unfold lags_stored.
    cbn [MMSD.SM1x MMSD.SM1y MMSD.Mxa MMSD.Mya].
    assert (Hltx : (Z.to_nat num < length (MMSD.SM1x st))%nat)
      by (destruct Hsx as [Hr _]; lia).
    assert (Hlty : (Z.to_nat num < length (MMSD.SM1y st))%nat)
      by (destruct Hsy as [Hr _]; lia).
    split; [exact Hsx' |]. split; [exact Hsy' |]. split; [| split].
    + intros k Hk. destruct (decide (k = Z.to_nat num)) as [->|Hneq].
      * exists mxa, mya. rewrite Z2Nat.id by lia.
        split; [exact Hmxa |]. split; [exact Hmya |].
        split; apply list_lookup_insert_eq; assumption.
      * destruct (Hstored k ltac:(lia)) as (a & b & Ha & Hb & Hka & Hkb).
        exists a, b. split; [exact Ha |]. split; [exact Hb |].
        rewrite !list_lookup_insert_ne by congruence. split; assumption.
    + intros k Hk Hkf. rewrite !list_lookup_insert_ne by lia.
      apply Hfree; [lia | exact Hkf].
    + intros _. exists mxa, mya. repeat split; assumption.
Qed.

End LagLoop.

(** X5.  A call whose accumulators can be allocated and whose [frame_m]
    is 0 or 1 runs no lag and stops at [dist = np.log(Mya+Mxa)], where
    [Mya] is not bound: it raises [UnboundLocalError]. *)
Theorem vectorized_MMSD_calcs_no_lag {F : Type} `{Float F}
    (np_log : F -> F) (stat_sem : list (option F) -> F) (frames total1 : Z)
    (xs_m ys_m x_m y_m : list (list F)) (frame_m : Z) :
  0 <= frames -> 1 <= total1 -> 0 <= frame_m <= 1 ->
  MMSD.vectorized_MMSD_calcs np_log stat_sem frames total1 xs_m ys_m x_m y_m frame_m
  = Err UnboundLocalError.
Proof.
  intros Hframes Htotal Hm. unfold MMSD.vectorized_MMSD_calcs.
  destruct (np_zeros_shape (F:=F) frames (total1 - 1)) as (SM & HSM & _); [lia | lia |].
  rewrite HSM. cbn [mbind result_bind].
  unfold MMSD.np_zeros1. destruct (Z.ltb_spec frame_m 0); [lia |].
  cbn [mbind result_bind]. rewrite py_range_nil by lia. reflexivity.
Qed.

Lemma vectorized_MMSD_calcs_no_lag_witness :
  MMSD.vectorized_MMSD_calcs any_log any_sem 3 3
    (qmat [[1; 1]; [2; 3]; [4; 9]]) (qmat [[1; 1]; [2; 3]; [4; 9]])
    (qmat [[1; 1]; [2; 3]; [4; 9]]) (qmat [[1; 1]; [2; 3]; [4; 9]]) 1
  = Err UnboundLocalError.
Proof. apply vectorized_MMSD_calcs_no_lag; lia. Defined.

(** X6.  When the two relative matrices have the shape the accumulators
    expect ([total1 - 1] columns) and at least [frame_m] rows, and
    [frames] is at least [frame_m] (itself at least 2), the loop goes
    through every lag: row [k] of [SM1x] and of [SM1y] receives the
    per-particle means of lag [k] for every [k] from 1 to [frame_m - 1],
    the other rows stay zero; the call then raises [TypeError]. *)
Theorem vectorized_MMSD_calcs_lags {F : Type} `{Float F}
    (np_log : F -> F) (stat_sem : list (option F) -> F) (frames total1 : Z)
    (xs_m ys_m x_m y_m : list (list F)) (frame_m : Z) (n P : nat) :
  has_shape n P xs_m -> has_shape n P ys_m ->
  total1 = Z.of_nat P + 1 ->
  2 <= frame_m -> frame_m <= Z.of_nat n -> frame_m <= frames ->
  exists (SM0 : list (list F)) (st : MMSD.state F),
    np_zeros frames (total1 - 1) = Ok SM0
    /\ for_each (MMSD.lag_step (MMSD.masked_equal0 xs_m) (MMSD.masked_equal0 ys_m))
         (py_range 1 frame_m) (MMSD.State SM0 SM0 None None) = Ok st
    /\ lags_stored xs_m ys_m (Z.to_nat frames) P frame_m st
    /\ MMSD.vectorized_MMSD_calcs np_log stat_sem frames total1
         xs_m ys_m x_m y_m frame_m = Err TypeError.
Proof.
  intros Hxs Hys -> Hm Hn Hframes.
  destruct (np_zeros_shape (F:=F) frames (Z.of_nat P + 1 - 1)) as (SM0 & HSM & Hshape);
    [lia | lia |].
  replace (Z.to_nat (Z.of_nat P + 1 - 1)) with P in Hshape by lia.
  assert (Hzero : forall k : nat, (k < Z.to_nat frames)%nat ->
            SM0 !! k = Some (replicate P f0)).
  { intros k Hk. unfold np_zeros in HSM.
    destruct ((frames <? 0) || (Z.of_nat P + 1 - 1 <? 0)); [discriminate |].
    inversion HSM; subst SM0. rewrite lookup_replicate_2 by exact Hk.
    do 2 f_equal. lia. }
  destruct (lag_loop xs_m ys_m n P frames frame_m SM0 Hxs Hys Hshape Hzero)
    as (st & Hloop & Hstored); [lia | lia | lia |].
  exists SM0, st. split; [exact HSM |]. split; [exact Hloop |].
  split; [exact Hstored |].
  destruct Hstored as (_ & _ & _ & _ & Hbound).
  destruct (Hbound ltac:(lia)) as (mxa & mya & Hmxa & Hmya & Hlx & Hly).
  unfold MMSD.vectorized_MMSD_calcs. rewrite HSM. cbn [mbind result_bind].
  unfold MMSD.np_zeros1. destruct (Z.ltb_spec frame_m 0); [lia |].
  cbn [mbind result_bind]. rewrite Hloop. cbn [mbind result_bind].
  rewrite Hmya, Hmxa. cbn [MMSD.local mbind result_bind].
  unfold MMSD.ma_add. destruct (decide (length mya = length mxa)); [| congruence].
  cbn [mbind result_bind]. rewrite np_ma_mean_axix. reflexivity.
Qed.

Lemma vectorized_MMSD_calcs_lags_witness :
  exists (SM0 : list (list Q)) (st : MMSD.state Q),
    np_zeros 3 (3 - 1) = Ok SM0
    /\ for_each (MMSD.lag_step (MMSD.masked_equal0 (qmat [[1; 1]; [2; 0]; [4; 9]]))
                               (MMSD.masked_equal0 (qmat [[1; 1]; [2; 3]; [4; 9]])))
         (py_range 1 3) (MMSD.State SM0 SM0 None None) = Ok st
    /\ lags_stored (qmat [[1; 1]; [2; 0]; [4; 9]]) (qmat [[1; 1]; [2; 3]; [4; 9]])
         (Z.to_nat 3) 2 3 st
    /\ MMSD.vectorized_MMSD_calcs any_log any_sem 3 3
         (qmat [[1; 1]; [2; 0]; [4; 9]]) (qmat [[1; 1]; [2; 3]; [4; 9]])
         (qmat [[1; 1]; [2; 0]; [4; 9]]) (qmat [[1; 1]; [2; 3]; [4; 9]]) 3
       = Err TypeError.
Proof.
  apply (vectorized_MMSD_calcs_lags any_log any_sem 3 3
           (qmat [[1; 1]; [2; 0]; [4; 9]]) (qmat [[1; 1]; [2; 3]; [4; 9]])
           (qmat [[1; 1]; [2; 0]; [4; 9]]) (qmat [[1; 1]; [2; 3]; [4; 9]]) 3 3 2).
  - split; [reflexivity |]. repeat constructor.
  - split; [reflexivity |]. repeat constructor.
  - reflexivity.
  - lia.
  - lia.
  - lia.
Defined.

Lemma norm_index_out (n i : Z) : 0 <= n <= i -> norm_index n i = Err IndexError.
Proof.
  intros Hi. unfold norm_index.
  destruct (Z.ltb_spec i 0); [lia |].
  destruct (Z.leb_spec 0 i); [| lia].
  destruct (Z.ltb_spec i n); [lia | reflexivity].
Qed.

Section LagBounds.
Context {F : Type} `{Float F}.

(** The first lag that does not fit the matrices or the accumulators
    raises [IndexError]. *)
Lemma lag_step_out (xs_m ys_m : list (list F)) (n P nframes : nat)
    (st : MMSD.state F) (L : Z) :
  has_shape n P xs_m -> has_shape n P ys_m ->
  has_shape nframes P (MMSD.SM1x st) ->
  1 <= L -> (Z.of_nat n <= L \/ Z.of_nat nframes <= L) ->
  MMSD.lag_step (MMSD.masked_equal0 xs_m) (MMSD.masked_equal0 ys_m) st L
  = Err IndexError.
Proof.
  intros Hxs Hys Hsx HL Hout. unfold MMSD.lag_step.
  destruct (Z_le_gt_dec (Z.of_nat n) L) as [Hn|Hn].
  - assert (Hx : MMSD.lag_means (MMSD.masked_equal0 xs_m) L = Err IndexError).
    { unfold MMSD.lag_means, py_index. rewrite norm_index_out; [reflexivity |].
      unfold len, MMSD.masked_equal0. rewrite length_map.
      destruct Hxs as [Hr _]. lia. }
    rewrite Hx. reflexivity.
  - destruct Hout as [Hout|Hout]; [lia |].
    destruct (lag_means_Ok xs_m L n P Hxs ltac:(lia)) as (mxa & Hmxa & _).
    destruct (lag_means_Ok ys_m L n P Hys ltac:(lia)) as (mya & Hmya & _).
    rewrite Hmxa. cbn [mbind result_bind]. rewrite Hmya. cbn [mbind result_bind].
    assert (Hs : MMSD.set_row (MMSD.SM1x st) L (MMSD.ma_data mxa) = Err IndexError).
    { unfold MMSD.set_row. rewrite norm_index_out; [reflexivity |].
      unfold len. destruct Hsx as [Hr _]. lia. }
    rewrite Hs. reflexivity.
Qed.

End LagBounds.

(** X7.  With matrices of the shape the accumulators expect, a
    [frame_m] (at least 2) larger than the number of rows of the matrices
    or than [frames] makes the call raise [IndexError], at the first lag
    that does not fit. *)
Theorem vectorized_MMSD_calcs_index_error {F : Type} `{Float F}
    (np_log : F -> F) (stat_sem : list (option F) -> F) (frames total1 : Z)
    (xs_m ys_m x_m y_m : list (list F)) (frame_m : Z) (n P : nat) :
  has_shape n P xs_m -> has_shape n P ys_m ->
  total1 = Z.of_nat P + 1 ->
  0 <= frames -> 2 <= frame_m ->
  (Z.of_nat n < frame_m \/ frames < frame_m) ->
  MMSD.vectorized_MMSD_calcs np_log stat_sem frames total1 xs_m ys_m x_m y_m frame_m
  = Err IndexError.
Proof.
  intros Hxs Hys -> Hframes Hm Hout.
  destruct (np_zeros_shape (F:=F) frames (Z.of_nat P + 1 - 1)) as (SM0 & HSM & Hshape);
    [lia | lia |].
  replace (Z.to_nat (Z.of_nat P + 1 - 1)) with P in Hshape by lia.
  assert (Hzero : forall k : nat, (k < Z.to_nat frames)%nat ->
            SM0 !! k = Some (replicate P f0)).
  { intros k Hk. unfold np_zeros in HSM.
    destruct ((frames <? 0) || (Z.of_nat P + 1 - 1 <? 0)); [discriminate |].
    inversion HSM; subst SM0. rewrite lookup_replicate_2 by exact Hk.
    do 2 f_equal. lia. }
  set (L := Z.max 1 (Z.min (Z.of_nat n) frames)).
  assert (Hprefix : exists st : MMSD.state F,
    for_each (MMSD.lag_step (MMSD.masked_equal0 xs_m) (MMSD.masked_equal0 ys_m))
      (py_range 1 L) (MMSD.State SM0 SM0 None None) = Ok st
    /\ has_shape (Z.to_nat frames) P (MMSD.SM1x st)).
  { destruct (Z_le_gt_dec 1 (Z.min (Z.of_nat n) frames)) as [Hmin|Hmin].
    - destruct (lag_loop xs_m ys_m n P frames L SM0 Hxs Hys Hshape Hzero)
        as (st & Hloop & Hsx & _); [subst L; lia.. |].
      exists st. split; assumption.
    - exists (MMSD.State SM0 SM0 None None).
      rewrite py_range_nil by (subst L; lia). split; [reflexivity | exact Hshape]. }
  destruct Hprefix as (st & Hloop & Hsx).
  unfold MMSD.vectorized_MMSD_calcs. rewrite HSM. cbn [mbind result_bind].
  unfold MMSD.np_zeros1. destruct (Z.ltb_spec frame_m 0); [lia |].
  cbn [mbind result_bind].
  rewrite (py_range_split 1 L frame_m) by (subst L; lia).
  rewrite (py_range_cons L frame_m) by (subst L; lia).
  rewrite (for_each_fail _ _ _ L _ st IndexError Hloop); [reflexivity |].
  apply (lag_step_out xs_m ys_m n P (Z.to_nat frames) st L Hxs Hys Hsx);
    subst L; lia.
Qed.

Lemma vectorized_MMSD_calcs_index_error_witness :
  MMSD.vectorized_MMSD_calcs any_log any_sem 5 3
    (qmat [[1; 1]; [2; 3]; [4; 9]]) (qmat [[1; 1]; [2; 3]; [4; 9]])
    (qmat [[1; 1]; [2; 3]; [4; 9]]) (qmat [[1; 1]; [2; 3]; [4; 9]]) 5
  = Err IndexError.
Proof.
  apply (vectorized_MMSD_calcs_index_error any_log any_sem 5 3
           (qmat [[1; 1]; [2; 3]; [4; 9]]) (qmat [[1; 1]; [2; 3]; [4; 9]])
           (qmat [[1; 1]; [2; 3]; [4; 9]]) (qmat [[1; 1]; [2; 3]; [4; 9]]) 5 3 2).
  - split; [reflexivity |]. repeat constructor.
  - split; [reflexivity |]. repeat constructor.
  - reflexivity.
  - lia.
  - lia.
  - left. simpl. lia.
Defined.

(** ** The assembler: the records of a particle *)

Lemma increasing_lower_bound (l : list Z) (a : Z) (k : nat) (x : Z) :
  increasing (a :: l) -> (a :: l) !! k = Some x -> a + Z.of_nat k <= x.
Proof.
  intros Hinc. revert x. induction k as [|k IH]; intros x Hx.
  - simpl in Hx. inversion Hx. lia.
  - destruct ((a :: l) !! k) as [y|] eqn:Hy.
    + specialize (IH y eq_refl). specialize (Hinc k y x Hy Hx). lia.
    + apply lookup_ge_None in Hy. apply lookup_lt_Some in Hx. lia.
Qed.

(** [np.where] from an offset: the indices of the cells equal to [num] in
    a column that starts at index [o]. *)
Lemma where_from_cons (num : Z) (o : nat) (p : Z) (l : list Z) :
  omap (fun '(i, q) => if q =? num then Some (Z.of_nat i) else None)
       (imap (fun i q => ((o + i)%nat, q)) (p :: l))
  = (if p =? num then [Z.of_nat o] else [])
    ++ omap (fun '(i, q) => if q =? num then Some (Z.of_nat i) else None)
            (imap (fun i q => ((S o + i)%nat, q)) l).
Proof.
  assert (Hext : imap ((fun i q => ((o + i)%nat, q)) ∘ S) l
                 = imap (fun i q => ((S o + i)%nat, q)) l).
  { apply imap_ext. intros i q _. simpl. f_equal. lia. }
  rewrite imap_cons, Hext, Nat.add_0_r. cbn [omap list_omap].
  destruct (p =? num); reflexivity.
Qed.

Lemma where_from_facts (num : Z) (l : list Z) (o : nat) :
  let w := omap (fun '(i, q) => if q =? num then Some (Z.of_nat i) else None)
                (imap (fun i q => ((o + i)%nat, q)) l) in
  Forall (fun i => Z.of_nat o <= i) w
  /\ increasing w
  /\ length w = length (filter (fun p => p = num) l).
Proof.
  revert o. induction l as [|p l IH]; intros o; cbv zeta.
  - simpl. split; [constructor |]. split; [| reflexivity].
    intros i a b Ha. discriminate.
  - rewrite where_from_cons. destruct (IH (S o)) as (Hge & Hinc & Hlen).
    cbv zeta in Hge, Hinc, Hlen.
    set (w := omap _ (imap (fun i q => ((S o + i)%nat, q)) l)) in *.
    rewrite filter_cons.
    destruct (Z.eqb_spec p num) as [Heq|Hneq].
    + destruct (decide (p = num)); [| contradiction].
      split; [| split].
      * constructor; [lia |]. eapply Forall_impl; [exact Hge |]. simpl. lia.
      * intros [|i] a b Ha Hb.
        -- simpl in Ha, Hb. inversion Ha; subst a.
           rewrite Forall_forall in Hge.
           assert (Hin : b ∈ w) by (apply list_elem_of_lookup; eauto).
           specialize (Hge b Hin). simpl in Hge. lia.
        -- exact (Hinc i a b Ha Hb).
      * simpl. rewrite Hlen. reflexivity.
    + destruct (decide (p = num)); [contradiction |].
      split; [| split].
      * simpl. eapply Forall_impl; [exact Hge |]. simpl. lia.
      * exact Hinc.
      * exact Hlen.
Qed.

Lemma where_eq_increasing (particles : list Z) (num : Z) :
  increasing (where_eq particles num).
Proof.
  pose proof (where_from_facts num particles 0) as (_ & Hinc & _).
  exact Hinc.
Qed.

Lemma where_eq_length (particles : list Z) (num : Z) :
  len (where_eq particles num) = records particles num.
Proof.
  pose proof (where_from_facts num particles 0) as (_ & _ & Hlen).
  unfold records, len. f_equal. exact Hlen.
Qed.

(** The span of the indices of a particle is at least the number of its
    records minus one, and is zero for a single record. *)
Lemma index_span_records (particles : list Z) (num min1 max1 : Z) :
  py_min (where_eq particles num) = Ok min1 ->
  py_max (where_eq particles num) = Ok max1 ->
  records particles num - 1 <= max1 - min1
  /\ (records particles num = 1 -> max1 - min1 = 0).
Proof.
  intros Hmin Hmax. rewrite <- where_eq_length.
  pose proof (where_eq_increasing particles num) as Hinc.
  destruct (where_eq particles num) as [|a w]; [discriminate |].
  simpl in Hmin, Hmax. inversion Hmin; inversion Hmax; subst; clear Hmin Hmax.
  pose proof (increasing_nondecreasing _ Hinc) as Hnd.
  rewrite (foldl_min_first w a Hnd).
  pose proof (foldl_max_last w a Hnd) as Hlast.
  pose proof (increasing_lower_bound w a (length w) _ Hinc Hlast) as Hlow.
  unfold len. cbn [length]. split; [lia |].
  intros Hone. assert (w = []) by (destruct w; [reflexivity | simpl in Hone; lia]).
  subst w. simpl. lia.
Qed.

(** X8.  In an iteration of the loop over the particles that raises
    nothing, a particle with more records than the cutoff is always kept,
    and with the default cutoff of 1 a particle is kept exactly when it
    has at least two records. *)
Theorem particle_step_records {F : Type} `{Float F}
    (fixed : list (row F)) (particles : list Z) (cutoff : Z)
    (st st' : Assemble.state F) (num : Z) :
  Assemble.particle_step fixed particles cutoff st num = Ok st' ->
  1 <= records particles num
  /\ (cutoff < records particles num -> Assemble.nones st' = Assemble.nones st)
  /\ (cutoff = 1 ->
      (Assemble.nones st' = Assemble.nones st <-> 2 <= records particles num)).
Proof.
  intros Hstep.
  destruct (particle_step_allocation fixed particles cutoff st st' num Hstep)
    as (min1 & max1 & Hmin & Hmax & _ & Hkeep & _).
  destruct (index_span_records particles num min1 max1 Hmin Hmax) as [Hspan Hone].
  assert (Hpos : 1 <= records particles num).
  { rewrite <- where_eq_length.
    destruct (where_eq particles num); [discriminate |]. unfold len. simpl. lia. }
  split; [exact Hpos |]. split.
  - intros Hlt. apply Hkeep. lia.
  - intros ->. rewrite Hkeep. split; [| lia].
    intros Hle. destruct (Z_le_gt_dec 2 (records particles num)); [assumption |].
    specialize (Hone ltac:(lia)). lia.
Qed.

Lemma particle_step_records_witness :
  1 <= records [1; 1; 2] 2
  /\ (1 < records [1; 1; 2] 2 -> 1 = 0)
  /\ (1 = 1 -> (1 = 0 <-> 2 <= records [1; 1; 2] 2)).
Proof.
  apply (particle_step_records
           [qrow 1 0 10 10 0; qrow 1 2 20 20 0; qrow 2 1 5 5 0] [1; 1; 2] 1
           (Assemble.State 0 [[0%Q]] [[0%Q]] [[0%Q]] [[0%Q]])
           (Assemble.State 1 [[0%Q]] [[0%Q]] [[0%Q]] [[0%Q]]) 2).
  vm_compute. reflexivity.
Defined.

(** ** The assembler: the loading of the videos *)

Lemma foldl_max_assoc (l : list Z) (a b : Z) :
  foldl Z.max (Z.max a b) l = Z.max a (foldl Z.max b l).
Proof.
  revert a b. induction l as [|c l IH]; intros a b; [reflexivity |].
  simpl. rewrite <- Z.max_assoc. apply IH.
Qed.

Lemma drop_middle {A : Type} (p m s : list A) :
  drop (length p + length m) (p ++ m ++ s) = s.
Proof.
  rewrite app_assoc, <- length_app. apply drop_app_length.
Qed.

Lemma set_slice_middle {A : Type} (p m s v : list A) (a b : Z) :
  a = len p -> b = a + len m -> length v = length m ->
  set_slice (p ++ m ++ s) a b v = Ok (p ++ v ++ s).
Proof.
  intros Ha Hb Hv. unfold set_slice, slice_bounds, norm_bound, len in *.
  rewrite !length_app.
  destruct (Z.ltb_spec a 0); [lia |]. destruct (Z.ltb_spec b 0); [lia |].
  replace (Z.to_nat (Z.min a _)) with (length p) by lia.
  replace (Z.to_nat (Z.max _ 0)) with (length m) by lia.
  destruct (decide (length v = length m)); [| contradiction].
  rewrite take_app_length, drop_middle. reflexivity.
Qed.

Lemma py_slice_middle {A : Type} (p m s : list A) (a b : Z) :
  a = len p -> b = a + len m -> py_slice (p ++ m ++ s) a b = m.
Proof.
  intros Ha Hb. unfold py_slice, slice_bounds, norm_bound, len in *.
  rewrite !length_app.
  destruct (Z.ltb_spec a 0); [lia |]. destruct (Z.ltb_spec b 0); [lia |].
  replace (Z.to_nat (Z.min a _)) with (length p) by lia.
  replace (Z.to_nat (Z.max _ 0)) with (length m) by lia.
  rewrite drop_app_length. apply take_app_length.
Qed.

Lemma py_index_last {A : Type} (l : list A) :
  l <> [] -> exists r : A, last l = Some r /\ py_index l (-1) = Ok r.
Proof.
  intros Hne. destruct (last l) as [r|] eqn:Hl.
  - exists r. split; [reflexivity |].
    rewrite last_lookup in Hl. apply lookup_lt_Some in Hl as Hlt.
    unfold py_index, norm_index, len.
    destruct (Z.ltb_spec (-1) 0); [| lia].
    destruct (Z.leb_spec 0 (-1 + Z.of_nat (length l))); [| lia].
    destruct (Z.ltb_spec (-1 + Z.of_nat (length l)) (Z.of_nat (length l))); [| lia].
    simpl. replace (Z.to_nat (-1 + Z.of_nat (length l))) with (pred (length l)) by lia.
    rewrite Hl. reflexivity.
  - apply last_None in Hl. contradiction.
Qed.

Section Load.
Context {F : Type} `{Float F}.

Lemma ids_before_snoc (vs : list (list (row F))) (t : list (row F)) :
  ids_before (vs ++ [t]) = ids_before vs + last_tid t.
Proof.
  unfold ids_before. induction vs as [|u vs IH]; simpl; [lia |].
  rewrite IH. lia.
Qed.

Lemma shifted_concat_snoc (vs : list (list (row F))) (t : list (row F)) (off : Z) :
  shifted_concat off (vs ++ [t])
  = shifted_concat off vs ++ map (Assemble.add_tid (off + ids_before vs)) t.
Proof.
  revert off. induction vs as [|u vs IH]; intros off; simpl.
  - rewrite app_nil_r. unfold ids_before. simpl. do 2 f_equal. lia.
  - assert (Hoff : off + last_tid u + ids_before vs = off + ids_before (u :: vs))
      by (unfold ids_before; simpl; lia).
    rewrite IH, <- app_assoc, Hoff. reflexivity.
Qed.

Lemma shifted_concat_length (vs : list (list (row F))) (off : Z) :
  length (shifted_concat off vs) = length (concat vs).
Proof.
  revert off. induction vs as [|u vs IH]; intros off; simpl; [reflexivity |].
  rewrite !length_app, length_map, IH. reflexivity.
Qed.

Lemma max_frame_snoc (vs : list (list (row F))) (t : list (row F)) :
  max_frame (vs ++ [t]) = foldl Z.max (max_frame vs) (map frame t).
Proof.
  unfold max_frame. rewrite map_app, concat_app, foldl_app. simpl.
  rewrite app_nil_r. reflexivity.
Qed.

Lemma concat_snoc_length (vs : list (list (row F))) (t : list (row F)) :
  len (concat (vs ++ [t])) = len (concat vs) + len t.
Proof.
  unfold len. rewrite concat_app, length_app. simpl. rewrite app_nil_r. lia.
Qed.

Lemma concat_take_length (vs : list (list (row F))) (k : nat) :
  (length (concat (take k vs)) <= length (concat vs))%nat.
Proof.
  rewrite <- (take_drop k vs) at 2. rewrite concat_app, length_app. lia.
Qed.

End Load.
Section Load2.
Context {F : Type} `{Float F}.

Lemma take_snoc_video (videos : list (list (row F))) (num : Z) (traj : list (row F)) :
  1 <= num -> videos !! Z.to_nat (num - 1) = Some traj ->
  take (Z.to_nat num) videos = take (Z.to_nat (num - 1)) videos ++ [traj].
Proof.
  intros Hnum Hv. replace (Z.to_nat num) with (S (Z.to_nat (num - 1))) by lia.
  apply take_S_r. exact Hv.
Qed.

Lemma videos_loaded_init (videos : list (list (row F))) :
  videos_loaded videos 0 (Assemble.VideosState 0 ∅ ∅ {[0 := 0]} ∅ {[0 := 0]}).
Proof.
  unfold videos_loaded. cbn [Assemble.frames Assemble.trajectory Assemble.newtots
                             Assemble.tlength].
  split; [reflexivity |]. split; [intros j Hj; lia |].
  split; intros j Hj; assert (j = 0) by lia; subst j;
    rewrite lookup_singleton_eq; reflexivity.
Qed.

Lemma video_step_loaded (videos : list (list (row F))) (st : Assemble.videos_state F)
    (num : Z) (traj : list (row F)) :
  1 <= num -> videos !! Z.to_nat (num - 1) = Some traj -> traj <> [] ->
  videos_loaded videos (num - 1) st ->
  exists st' : Assemble.videos_state F,
    Assemble.video_step videos st num = Ok st' /\ videos_loaded videos num st'.
Proof.
  intros Hnum Hv Hne (Hfr & Htr & Hnt & Htl).
  destruct (py_index_last traj Hne) as (lastrow & Hlast & Hidx).
  unfold Assemble.video_step, Assemble.read_video. rewrite Hv. cbn [mbind result_bind].
  rewrite Hidx. cbn [mbind result_bind].
  unfold dict_get. rewrite (Hnt (num - 1)) by lia. cbn [mbind result_bind].
  rewrite (Htl (num - 1)) by lia. cbn [mbind result_bind].
  destruct traj as [|r traj'] eqn:Htraj; [congruence |]. rewrite <- Htraj in *.
  assert (Hmax : py_max (map frame traj) = Ok (foldl Z.max (frame r) (map frame traj')))
    by (rewrite Htraj; reflexivity).
  rewrite Hmax. cbn [mbind result_bind].
  eexists. split; [reflexivity |].
  pose proof (take_snoc_video videos num traj Hnum Hv) as Htake.
  unfold videos_loaded. cbn [Assemble.frames Assemble.trajectory Assemble.newtots
                             Assemble.tlength].
  split; [| split; [| split]].
  - rewrite Htake, max_frame_snoc, <- Hfr, Htraj. simpl.
    rewrite foldl_max_assoc.
    destruct (Z.ltb_spec (Assemble.frames st) (foldl Z.max (frame r) (map frame traj')));
      lia.
  - intros j Hj. destruct (decide (j = num)) as [->|Hjn].
    + rewrite lookup_insert_eq. symmetry. exact Hv.
    + rewrite lookup_insert_ne by congruence. apply Htr. lia.
  - intros j Hj. destruct (decide (j = num)) as [->|Hjn].
    + rewrite lookup_insert_eq, Htake, ids_before_snoc. unfold last_tid.
      rewrite Hlast. reflexivity.
    + rewrite lookup_insert_ne by congruence. apply Hnt. lia.
  - intros j Hj. destruct (decide (j = num)) as [->|Hjn].
    + rewrite lookup_insert_eq, Htake, concat_snoc_length. reflexivity.
    + rewrite lookup_insert_ne by congruence. apply Htl. lia.
Qed.

Lemma video_step_empty (videos : list (list (row F))) (st : Assemble.videos_state F)
    (num : Z) :
  videos !! Z.to_nat (num - 1) = Some [] ->
  Assemble.video_step videos st num = Err IndexError.
Proof.
  intros Hv. unfold Assemble.video_step, Assemble.read_video. rewrite Hv. reflexivity.
Qed.

Lemma place_step_placed (videos : list (list (row F))) (st : Assemble.videos_state F)
    (ph : list (row F)) (num : Z) (traj : list (row F)) :
  videos_loaded videos (len videos) st ->
  1 <= num <= len videos -> videos !! Z.to_nat (num - 1) = Some traj ->
  videos_placed videos (num - 1) ph ->
  exists ph' : list (row F),
    Assemble.place_step st ph num = Ok ph' /\ videos_placed videos num ph'.
Proof.
  intros (_ & Htr & Hnt & Htl) Hnum Hv Hph.
  pose proof (take_snoc_video videos num traj ltac:(lia) Hv) as Htake.
  set (pre := take (Z.to_nat (num - 1)) videos) in *.
  assert (Hlen : len (concat (take (Z.to_nat num) videos))
                 = len (concat pre) + len traj)
    by (rewrite Htake; apply concat_snoc_length).
  pose proof (concat_take_length videos (Z.to_nat num)) as Hle.
  unfold len in Hlen.
  assert (Hrep : replicate (length (concat videos) - length (concat pre))
                   (Fill.zero_row (F:=F))
                 = replicate (length traj) Fill.zero_row
                   ++ replicate (length (concat videos)
                                 - length (concat (take (Z.to_nat num) videos)))
                        Fill.zero_row).
  { rewrite <- replicate_add. f_equal. lia. }
  unfold videos_placed in Hph. fold pre in Hph. rewrite Hrep in Hph.
  unfold Assemble.place_step, dict_get.
  rewrite (Htl (num - 1)) by lia. cbn [mbind result_bind].
  rewrite (Htl num) by lia. cbn [mbind result_bind].
  rewrite (Htr num) by lia. rewrite Hv. cbn [mbind result_bind].
  fold pre. subst ph.
  assert (Ha : len (concat pre) = len (shifted_concat 0 pre))
    by (unfold len; now rewrite shifted_concat_length).
  rewrite (set_slice_middle _ (replicate (length traj) Fill.zero_row) _ traj
             _ _ Ha)
    by (unfold len; rewrite ?length_replicate; lia).
  cbn [mbind result_bind].
  rewrite (Hnt (num - 1)) by lia. cbn [mbind result_bind]. fold pre.
  rewrite (py_slice_middle _ traj _ _ _ Ha) by (unfold len; lia).
  rewrite (set_slice_middle _ traj _ (map (Assemble.add_tid (ids_before pre)) traj)
             _ _ Ha)
    by (unfold len; rewrite ?length_map; lia).
  eexists. split; [reflexivity |].
  assert (Hsc : shifted_concat 0 (take (Z.to_nat num) videos)
                = shifted_concat 0 pre ++ map (Assemble.add_tid (ids_before pre)) traj)
    by (rewrite Htake, shifted_concat_snoc; reflexivity).
  unfold videos_placed. rewrite Hsc, <- app_assoc. reflexivity.
Qed.

(** The two loops on tables none of which is empty. *)
Lemma load_concat (videos : list (list (row F))) :
  Forall (fun t => t <> []) videos ->
  Assemble.load videos = Ok (max_frame videos, shifted_concat 0 videos).
Proof.
  intros Hall. unfold Assemble.load.
  destruct (for_each_range_inv (Assemble.video_step videos)
              (fun num s => videos_loaded videos (num - 1) s)
              1 (len videos + 1) (Assemble.VideosState 0 ∅ ∅ {[0 := 0]} ∅ {[0 := 0]}))
    as (st & Hst & Hinv).
  { unfold len. lia. }
  { apply videos_loaded_init. }
  { intros num s Hnum Hs.
    destruct (lookup_lt_is_Some_2 videos (Z.to_nat (num - 1))) as (traj & Hv);
      [unfold len in Hnum; lia |].
    replace (num + 1 - 1) with num by lia.
    apply (video_step_loaded videos s num traj); [lia | exact Hv | | exact Hs].
    rewrite Forall_forall in Hall. apply Hall. apply list_elem_of_lookup. eauto. }
  replace (len videos + 1 - 1) with (len videos) in Hinv by lia.
  rewrite Hst. cbn [mbind result_bind].
  pose proof Hinv as (Hfr & _ & _ & Htl).
  unfold dict_get at 1. rewrite (Htl (len videos)) by (unfold len; lia).
  cbn [mbind result_bind].
  assert (Hall_take : take (Z.to_nat (len videos)) videos = videos)
    by (apply take_ge; unfold len; lia).
  rewrite Hall_take in *.
  destruct (for_each_range_inv (Assemble.place_step st)
              (fun num ph => videos_placed videos (num - 1) ph)
              1 (len videos + 1)
              (replicate (Z.to_nat (len (concat videos))) Fill.zero_row))
    as (ph & Hph & Hplaced).
  { unfold len. lia. }
  { unfold videos_placed. simpl. f_equal. unfold len. lia. }
  { intros num s Hnum Hs.
    destruct (lookup_lt_is_Some_2 videos (Z.to_nat (num - 1))) as (traj & Hv);
      [unfold len in Hnum; lia |].
    replace (num + 1 - 1) with num by lia.
    apply (place_step_placed videos st s num traj);
      [exact Hinv | lia | exact Hv | exact Hs]. }
  rewrite Hph. cbn [mbind result_bind].
  replace (len videos + 1 - 1) with (len videos) in Hplaced by lia.
  unfold videos_placed in Hplaced. rewrite Hall_take in Hplaced.
  rewrite Nat.sub_diag in Hplaced. simpl in Hplaced. rewrite app_nil_r in Hplaced.
  rewrite Hfr, Hplaced. reflexivity.
Qed.

(** A table without rows makes the first loop raise. *)
Lemma load_empty_table (videos : list (list (row F))) :
  [] ∈ videos -> Assemble.load videos = Err IndexError.
Proof.
  intros Hin.
  assert (Hex : exists k : nat, videos !! k = Some []
                /\ Forall (fun t => t <> []) (take k videos)).
  { induction videos as [|t vs IH]; [inversion Hin |].
    destruct t as [|r t].
    - exists 0%nat. split; [reflexivity | constructor].
    - apply elem_of_cons in Hin as [Hin|Hin]; [discriminate |].
      destruct (IH Hin) as (k & Hk & Hpre). exists (S k). split; [exact Hk |].
      simpl. constructor; [discriminate | exact Hpre]. }
  destruct Hex as (k & Hk & Hpre).
  apply lookup_lt_Some in Hk as Hlt.
  unfold Assemble.load.
  rewrite (py_range_split 1 (Z.of_nat k + 1) (len videos + 1)) by (unfold len; lia).
  rewrite (py_range_cons (Z.of_nat k + 1)) by (unfold len; lia).
  destruct (for_each_range_inv (Assemble.video_step videos)
              (fun num s => videos_loaded videos (num - 1) s)
              1 (Z.of_nat k + 1)
              (Assemble.VideosState 0 ∅ ∅ {[0 := 0]} ∅ {[0 := 0]}))
    as (st & Hst & _).
  { lia. }
  { apply videos_loaded_init. }
  { intros num s Hnum Hs.
    destruct (lookup_lt_is_Some_2 videos (Z.to_nat (num - 1))) as (traj & Hv);
      [lia |].
    replace (num + 1 - 1) with num by lia.
    apply (video_step_loaded videos s num traj); [lia | exact Hv | | exact Hs].
    rewrite Forall_forall in Hpre. apply Hpre. apply list_elem_of_lookup.
    exists (Z.to_nat (num - 1)). rewrite lookup_take_lt by lia. exact Hv. }
  rewrite (for_each_fail _ _ _ _ _ st IndexError Hst); [reflexivity |].
  apply video_step_empty. replace (Z.to_nat (Z.of_nat k + 1 - 1)) with k by lia.
  exact Hk.
Qed.

(** What a returning [load] has returned. *)
Lemma load_Ok (videos : list (list (row F))) (frames : Z) (placeholder : list (row F)) :
  Assemble.load videos = Ok (frames, placeholder) ->
  Forall (fun t => t <> []) videos
  /\ frames = max_frame videos /\ placeholder = shifted_concat 0 videos.
Proof.
  intros Hload.
  assert (Hall : Forall (fun t => t <> []) videos).
  { apply Forall_forall. intros t Ht ->.
    rewrite (load_empty_table videos Ht) in Hload. discriminate. }
  split; [exact Hall |]. rewrite (load_concat videos Hall) in Hload.
  inversion Hload. split; reflexivity.
Qed.

End Load2.

(** X9.  On tables of at least two rows each (the files numpy reads as
    two-dimensional arrays) the two loops over the videos return: the
    number of frames is the largest frame of any table, or 0 if none is
    positive, and the record table is the tables one after the other, the
    ids of each shifted by the sum of the last-row ids of the tables
    before it. *)
Theorem load_concatenates {F : Type} `{Float F} (videos : list (list (row F))) :
  Forall (fun t => 2 <= len t) videos ->
  Assemble.load videos = Ok (max_frame videos, shifted_concat 0 videos).
Proof.
  intros Hall. apply load_concat. eapply Forall_impl; [exact Hall |].
  intros t Ht ->. unfold len in Ht. simpl in Ht. lia.
Qed.

Lemma load_concatenates_witness :
  Forall (fun t : list (row Q) => 2 <= len t)
    [[qrow 1 0 1 1 0; qrow 2 4 2 2 0]; [qrow 1 1 3 3 0; qrow 1 2 4 4 0]]
  /\ Assemble.load
       [[qrow 1 0 1 1 0; qrow 2 4 2 2 0]; [qrow 1 1 3 3 0; qrow 1 2 4 4 0]]
     = Ok (4, [qrow 1 0 1 1 0; qrow 2 4 2 2 0; qrow 3 1 3 3 0; qrow 3 2 4 4 0]).
Proof.
  assert (Hall : Forall (fun t : list (row Q) => 2 <= len t)
                   [[qrow 1 0 1 1 0; qrow 2 4 2 2 0];
                    [qrow 1 1 3 3 0; qrow 1 2 4 4 0]]).
  { repeat constructor; vm_compute; discriminate. }
  split; [exact Hall |].
  exact (load_concatenates _ Hall).
Defined.

(** ** The assembler: the columns of the matrices *)

Lemma foldl_bounds (l : list Z) (a lo hi : Z) :
  Forall (fun x => lo <= x <= hi) (a :: l) ->
  lo <= foldl Z.min a l /\ foldl Z.max a l <= hi.
Proof.
  revert a. induction l as [|b l IH]; intros a Hall.
  - inversion Hall; subst. simpl. lia.
  - inversion Hall as [|? ? Ha Hl]; subst. inversion Hl as [|? ? Hb Hl']; subst.
    simpl. split.
    + apply (IH (Z.min a b)). constructor; [lia | exact Hl'].
    + apply (IH (Z.max a b)). constructor; [lia | exact Hl'].
Qed.

Section Scatter.
Context {F : Type} `{Float F}.

Lemma fillin2_Ok_inv (data out : list (row F)) :
  Fill.fillin2 data = Ok out -> data <> [] /\ nondecreasing (map frame data).
Proof.
  unfold Fill.fillin2. intros Hfill.
  destruct (frames_check (map frame data)) eqn:Hchk; [| discriminate].
  cbn [negb] in Hfill. split; [| apply frames_check_true; exact Hchk].
  intros ->. discriminate.
Qed.

Lemma fillin2_frames_within (data out : list (row F)) (lo hi : Z) :
  Forall (fun r => lo <= frame r <= hi) data ->
  Fill.fillin2 data = Ok out ->
  exists mn mx : Z,
    lo <= mn /\ mn <= mx /\ mx <= hi /\ map frame out = py_range mn (mx + 1).
Proof.
  intros Hall Hfill. destruct (fillin2_Ok_inv data out Hfill) as [Hne Hnd].
  destruct (fillin2_ok data Hne Hnd) as (out' & mn & mx & Hmn & Hmx & Hle & Hout & Hfr).
  assert (out' = out) by congruence. subst out'.
  exists mn, mx.
  assert (Hb : Forall (fun x => lo <= x <= hi) (map frame data))
    by (apply Forall_fmap; exact Hall).
  destruct (map frame data) as [|a l]; [discriminate |].
  simpl in Hmn, Hmx. inversion Hmn; inversion Hmx; subst.
  destruct (foldl_bounds l a lo hi Hb). auto.
Qed.

Lemma hold_rows (hold : list (row F)) (mn mx : Z) :
  mn <= mx -> map frame hold = py_range mn (mx + 1) ->
  hold <> [] /\ len hold = mx + 1 - mn
  /\ Assemble.abs_rows hold = Ok (mn, mx + 1)
  /\ Assemble.rel_rows hold = Ok (0, mx + 1 - mn).
Proof.
  intros Hle Hfr.
  assert (Hlen : length hold = Z.to_nat (mx + 1 - mn))
    by (rewrite <- (length_map frame), Hfr; apply py_range_length).
  assert (Hne : hold <> []) by (intros ->; simpl in Hlen; lia).
  destruct (py_index_last hold Hne) as (hl & Hlast & Hidx).
  destruct hold as [|h0 hold'] eqn:Hh; [congruence |]. rewrite <- Hh in *.
  assert (Hi0 : py_index hold 0 = Ok h0)
    by (apply py_index_nonneg; [lia | rewrite Hh; reflexivity]).
  assert (Hf0 : frame h0 = mn).
  { assert (Hl : map frame hold !! 0%nat = Some (frame h0)) by (rewrite Hh; reflexivity).
    rewrite Hfr, py_range_lookup in Hl by lia. inversion Hl. lia. }
  assert (Hfl : frame hl = mx).
  { rewrite last_lookup in Hlast.
    assert (Hl : map frame hold !! pred (length hold) = Some (frame hl))
      by (rewrite list_lookup_fmap, Hlast; reflexivity).
    rewrite Hfr, py_range_lookup in Hl by lia. inversion Hl. lia. }
  split; [exact Hne |]. split; [unfold len; lia |].
  unfold Assemble.abs_rows, Assemble.rel_rows.
  rewrite Hi0, Hidx. cbn [mbind result_bind]. rewrite Hf0, Hfl. auto.
Qed.

Lemma set_slice_zeros (nrows a : nat) (v : list F) :
  (a + length v <= nrows)%nat ->
  set_slice (replicate nrows f0) (Z.of_nat a) (Z.of_nat a + len v) v
  = Ok (replicate a f0 ++ v ++ replicate (nrows - a - length v) f0).
Proof.
  intros Hle.
  assert (Hrep : replicate nrows f0
                 = replicate a f0 ++ replicate (length v) f0
                   ++ replicate (nrows - a - length v) f0).
  { rewrite <- !replicate_add. f_equal. lia. }
  rewrite Hrep. apply set_slice_middle.
  - unfold len. now rewrite length_replicate.
  - unfold len. now rewrite length_replicate.
  - now rewrite length_replicate.
Qed.

(** The columns of a particle when every frame of the record table is a
    row of the matrices. *)
Lemma particle_column_scattered (fixed : list (row F)) (particles : list Z)
    (nrows : nat) (s : Z) (cxs cys cx cy : list F) :
  Forall (fun r => 0 <= frame r <= Z.of_nat nrows - 1) fixed ->
  particle_column fixed particles nrows Assemble.rel_rows px s = Ok cxs ->
  particle_column fixed particles nrows Assemble.rel_rows py s = Ok cys ->
  particle_column fixed particles nrows Assemble.abs_rows px s = Ok cx ->
  particle_column fixed particles nrows Assemble.abs_rows py s = Ok cy ->
  exists hold : list (row F),
    holdplease fixed particles s = Ok hold /\ scattered nrows hold cxs cys cx cy.
Proof.
  intros Hall Hxs Hys Hx Hy. unfold particle_column, holdplease in *.
  apply bind_Ok in Hxs as (min1 & Hmin & Hxs). rewrite Hmin in Hys, Hx, Hy |- *.
  cbn [mbind result_bind] in Hys, Hx, Hy |- *.
  apply bind_Ok in Hxs as (max1 & Hmax & Hxs). rewrite Hmax in Hys, Hx, Hy |- *.
  cbn [mbind result_bind] in Hys, Hx, Hy |- *.
  apply bind_Ok in Hxs as (hold & Hhold & Hxs). rewrite Hhold in Hys, Hx, Hy.
  cbn [mbind result_bind] in Hys, Hx, Hy.
  exists hold. split; [exact Hhold |].
  unfold Assemble.fill_particle in Hhold.
  destruct (fillin2_frames_within _ hold 0 (Z.of_nat nrows - 1)
              (py_slice_Forall _ _ min1 (max1 + 1) Hall) Hhold)
    as (mn & mx & Hlo & Hle & Hhi & Hfr).
  destruct (hold_rows hold mn mx Hle Hfr) as (Hne & Hlen & Habs & Hrel).
  rewrite Hrel in Hxs, Hys. rewrite Habs in Hx, Hy.
  cbn [mbind result_bind fst snd] in Hxs, Hys, Hx, Hy.
  unfold len in Hlen.
  assert (Hfit : (Z.to_nat mn + length hold <= nrows)%nat) by lia.
  exists (Z.to_nat mn).
  split; [exact Hne |]. split; [exact Hfit |]. split.
  { rewrite Hfr. f_equal; unfold len; lia. }
  assert (Hrelx := set_slice_zeros nrows 0 (map px hold)).
  assert (Hrely := set_slice_zeros nrows 0 (map py hold)).
  assert (Habsx := set_slice_zeros nrows (Z.to_nat mn) (map px hold)).
  assert (Habsy := set_slice_zeros nrows (Z.to_nat mn) (map py hold)).
  unfold len in Hrelx, Hrely, Habsx, Habsy. rewrite !length_map in *.
  replace (Z.of_nat 0 + Z.of_nat (length hold)) with (mx + 1 - mn)
    in Hrelx, Hrely by lia.
  replace (Z.of_nat (Z.to_nat mn) + Z.of_nat (length hold)) with (mx + 1)
    in Habsx, Habsy by lia.
  replace (Z.of_nat (Z.to_nat mn)) with mn in Habsx, Habsy by lia.
  change (Z.of_nat 0) with 0 in Hrelx, Hrely.
  rewrite Hrelx in Hxs by lia. rewrite Hrely in Hys by lia.
  rewrite Habsx in Hx by lia. rewrite Habsy in Hy by lia.
  inversion Hxs; inversion Hys; inversion Hx; inversion Hy; subst.
  rewrite !Nat.sub_0_r. simpl. auto.
Qed.

Lemma shifted_concat_frames (vs : list (list (row F))) (off : Z) :
  map frame (shifted_concat off vs) = concat (map (map frame) vs).
Proof.
  revert off. induction vs as [|t vs IH]; intros off; [reflexivity |].
  simpl. rewrite map_app, map_map, IH. reflexivity.
Qed.

Lemma max_frame_bounds (vs : list (list (row F))) :
  0 <= max_frame vs
  /\ Forall (fun f => f <= max_frame vs) (concat (map (map frame) vs)).
Proof.
  unfold max_frame. split; [apply foldl_max_ge |].
  apply Forall_forall. intros f Hf. apply foldl_max_elem.
  apply elem_of_cons. right. exact Hf.
Qed.

Lemma MSD_iteration_columns (videos : list (list (row F))) (cut : Z)
    (conversion : F * F * F) (total1 : Z) (xs_m ys_m x_m y_m : list (list F))
    (k : nat) :
  Forall (Forall (fun r => 0 <= frame r)) videos ->
  Assemble.MSD_iteration videos cut conversion = Ok (total1, xs_m, ys_m, x_m, y_m) ->
  Z.of_nat k < total1 ->
  kth_column videos cut conversion xs_m ys_m x_m y_m k.
Proof.
  intros Hpos Hrun Hk. unfold Assemble.MSD_iteration in Hrun.
  apply bind_Ok in Hrun as ([frames placeholder] & Hload & Hasm).
  destruct (load_Ok videos frames placeholder Hload) as (_ & -> & ->).
  cbn [fst snd] in Hasm.
  destruct (assemble_assembled _ _ _ _ _ _ _ _ _ Hasm)
    as (total & Htotal & _ & _ & Hdrop & Hkept & _ & _ & _ & _ & Hcols).
  cbv zeta in Hdrop, Hkept, Hcols.
  assert (Htot : 0 <= total).
  { destruct (Z_le_gt_dec 0 total) as [Hge|Hlt]; [exact Hge |].
    pose proof (Nat2Z.is_nonneg
                  (length (dropped (map tid (shifted_concat 0 videos)) cut total))).
    unfold len in Hdrop. lia. }
  specialize (Hkept Htot).
  destruct (lookup_lt_is_Some_2
              (survivors (map tid (shifted_concat 0 videos)) cut (total + 1)) k)
    as (s & Hs); [unfold len in Hkept; lia |].
  destruct (Hcols k s Hs) as (Hxs & Hys & Hx & Hy).
  pose proof (max_frame_bounds videos) as [Hmf0 Hmf].
  assert (Hrows : Forall (fun r => 0 <= frame r
                                  <= Z.of_nat (Z.to_nat (max_frame videos + 1)) - 1)
                    (map (Assemble.convert conversion) (shifted_concat 0 videos))).
  { apply Forall_fmap. apply Forall_forall. intros r Hr. simpl.
    assert (Hfr : frame r ∈ concat (map (map frame) videos)).
    { rewrite <- (shifted_concat_frames videos 0). apply list_elem_of_fmap. eauto. }
    assert (Hconv : frame (Assemble.convert conversion r) = frame r)
      by (destruct conversion as [[c0 c1] c2]; reflexivity).
    rewrite Hconv. split.
    - assert (Hall : Forall (fun f => 0 <= f) (concat (map (map frame) videos))).
      { apply Forall_concat, Forall_fmap. eapply Forall_impl; [exact Hpos |].
        intros t Ht. apply Forall_fmap. exact Ht. }
      rewrite Forall_forall in Hall. exact (Hall _ Hfr).
    - rewrite Forall_forall in Hmf. specialize (Hmf _ Hfr). simpl in Hmf. lia. }
  destruct (particle_column_scattered _ _ _ s _ _ _ _ Hrows Hxs Hys Hx Hy)
    as (hold & Hhold & Hscat).
  exists total, s, hold. cbv zeta.
  split; [exact Hload |]. split; [exact Htotal |]. split; [exact Hs |].
  split; [exact Hhold | exact Hscat].
Qed.

End Scatter.

(** X10.  When no frame is negative and [MSD_iteration] returns, column
    [k] of the returned matrices belongs to the [k]-th kept particle and
    holds its filled trajectory, the result of [fillin2] on its records,
    and zeros: the trajectory, of consecutive frames from its first frame
    on, stands from row 0 in the relative matrices and from the row of its
    first frame in the absolute ones, and the matrices have one row more
    than the largest frame. *)
Theorem MSD_iteration_scattered {F : Type} `{Float F}
    (videos : list (list (row F))) (cut : Z) (conversion : F * F * F)
    (total1 : Z) (xs_m ys_m x_m y_m : list (list F)) (k : nat) :
  Forall (Forall (fun r => 0 <= frame r)) videos ->
  Assemble.MSD_iteration videos cut conversion = Ok (total1, xs_m, ys_m, x_m, y_m) ->
  Z.of_nat k < total1 ->
  kth_column videos cut conversion xs_m ys_m x_m y_m k.
Proof. apply MSD_iteration_columns. Qed.

Lemma MSD_iteration_scattered_witness :
  kth_column
    [[qrow 1 0 10 10 0; qrow 1 2 20 20 0; qrow 2 1 5 5 0;
      qrow 3 0 7 7 0; qrow 3 1 8 8 0];
     [qrow 1 1 3 3 0; qrow 1 3 4 4 0]] 1 qone
     [[10%Q; 7%Q; 3%Q]; [10%Q; 7%Q; 3%Q]; [20%Q; 0%Q; 4%Q]; [0%Q; 0%Q; 0%Q]]
     [[10%Q; 7%Q; 3%Q]; [10%Q; 7%Q; 3%Q]; [20%Q; 0%Q; 4%Q]; [0%Q; 0%Q; 0%Q]]
     [[10%Q; 7%Q; 0%Q]; [10%Q; 7%Q; 3%Q]; [20%Q; 0%Q; 3%Q]; [0%Q; 0%Q; 4%Q]]
     [[10%Q; 7%Q; 0%Q]; [10%Q; 7%Q; 3%Q]; [20%Q; 0%Q; 3%Q]; [0%Q; 0%Q; 4%Q]]
     2.
Proof.
  apply (MSD_iteration_scattered _ 1 qone 3).
  - repeat constructor; vm_compute; discriminate.
  - vm_compute. reflexivity.
  - lia.
Defined.

(** ** What the program discards: the z column *)

Lemma py_index_fmap {A B : Type} (f : A -> B) (l : list A) (i : Z) :
  py_index (map f l) i = result_map f (py_index l i).
Proof.
  unfold py_index, result_map, len. rewrite length_map.
  destruct (norm_index (Z.of_nat (length l)) i) as [j|e]; [| reflexivity].
  cbn [mbind result_bind].
  change (map f l) with (f <$> l). rewrite list_lookup_fmap.
  destruct (l !! j); reflexivity.
Qed.

Lemma for_each_ext {S A : Type} (f g : S -> A -> result S) (l : list A) (st : S) :
  (forall s a, f s a = g s a) -> for_each f l st = for_each g l st.
Proof.
  intros Hfg. revert st. induction l as [|a l IH]; intros st; [reflexivity |].
  simpl. rewrite Hfg. destruct (g st a); [apply IH | reflexivity].
Qed.

Section DropZ.
Context {F : Type} `{Float F}.

Lemma step_drop_z (data : list (row F)) (st : Fill.state F) (num : Z) :
  Fill.step (map drop_z data) (drop_z_state st) num
  = result_map drop_z_state (Fill.step data st num).
Proof.
  unfold Fill.step, drop_z_state. cbn [Fill.filledin Fill.new Fill.count Fill.other].
  rewrite !py_index_fmap. unfold len. rewrite length_map.
  destruct (py_index (Fill.filledin st) num) as [cur|e]; [| reflexivity].
  cbn [result_map mbind result_bind].
  destruct (py_index data (num - Fill.new st - 1)) as [fr|e]; [| reflexivity].
  cbn [result_map mbind result_bind drop_z frame].
  set (d := frame cur - frame fr). rewrite py_index_fmap.
  destruct (py_index data _) as [src|e]; [| reflexivity].
  cbn [result_map mbind result_bind].
  destruct (norm_index _ num) as [i|e]; [| reflexivity].
  cbn [result_map mbind result_bind Fill.filledin Fill.new Fill.count Fill.other
       Fill.tot].
  change (map drop_z) with (fmap (M:=list) (drop_z (F:=F))).
  rewrite list_fmap_insert. reflexivity.
Qed.

Lemma loop_drop_z (data : list (row F)) (l : list Z) (st : Fill.state F) :
  for_each (Fill.step (map drop_z data)) l (drop_z_state st)
  = result_map drop_z_state (for_each (Fill.step data) l st).
Proof.
  revert st. induction l as [|num l IH]; intros st; [reflexivity |].
  simpl. rewrite step_drop_z.
  destruct (Fill.step data st num) as [st'|e]; [| reflexivity].
  cbn [result_map mbind result_bind]. apply IH.
Qed.

Lemma set_frames_drop_z (shape1 : Z) (l : list (row F)) :
  Fill.set_frames shape1 (map drop_z l) = map drop_z (Fill.set_frames shape1 l).
Proof.
  unfold Fill.set_frames. change (map drop_z) with (fmap (M:=list) (drop_z (F:=F))).
  rewrite imap_fmap, fmap_imap. apply imap_ext. reflexivity.
Qed.

(** [fillin2] never reads the z column. *)
Lemma fillin2_drop_z (data : list (row F)) :
  Fill.fillin2 (map drop_z data) = result_map (map drop_z) (Fill.fillin2 data).
Proof.
  unfold Fill.fillin2.
  assert (Hfr : map frame (map drop_z data) = map frame data)
    by (rewrite map_map; reflexivity).
  rewrite Hfr. unfold len. rewrite length_map.
  destruct (negb (frames_check (map frame data))); [reflexivity |].
  destruct (negb _); [reflexivity |].
  destruct (py_max (map frame data)) as [mx|e]; [| reflexivity].
  cbn [mbind result_bind].
  destruct (py_min (map frame data)) as [mn|e]; [| reflexivity].
  cbn [mbind result_bind]. rewrite py_index_fmap.
  destruct (py_index data 0) as [first|e]; [| reflexivity].
  cbn [result_map mbind result_bind].
  destruct (norm_index _ 0) as [i0|e]; [| reflexivity].
  cbn [mbind result_bind].
  set (zeros := replicate (Z.to_nat (mx + 1 - mn)) Fill.zero_row).
  assert (Hinit : Fill.State 0 0 0 0 (Fill.set_frames mn (<[i0 := drop_z first]> zeros))
                  = drop_z_state
                      (Fill.State 0 0 0 0 (Fill.set_frames mn (<[i0 := first]> zeros)))).
  { unfold drop_z_state. cbn [Fill.count Fill.new Fill.other Fill.tot Fill.filledin].
    f_equal. rewrite <- set_frames_drop_z. f_equal.
    change (map drop_z) with (fmap (M:=list) (drop_z (F:=F))).
    rewrite list_fmap_insert. f_equal. unfold zeros. rewrite fmap_replicate.
    reflexivity. }
  rewrite Hinit, loop_drop_z.
  destruct (for_each _ _ _) as [st|e]; reflexivity.
Qed.

End DropZ.

Section DropZAssemble.
Context {F : Type} `{Float F}.

Lemma result_map_Ok_eq {A B : Type} (f : A -> B) (m m' : result A) :
  result_map f m = result_map f m' ->
  (exists e, m = Err e /\ m' = Err e)
  \/ (exists a a', m = Ok a /\ m' = Ok a' /\ f a = f a').
Proof.
  unfold result_map. destruct m as [a|e], m' as [a'|e']; simpl; intros Heq;
    try discriminate.
  - right. exists a, a'. repeat split. congruence.
  - left. exists e. split; congruence.
Qed.

Lemma fill_particle_drop_z (fixed fixed' : list (row F)) (min1 max1 : Z) :
  map drop_z fixed = map drop_z fixed' ->
  result_map (map drop_z) (Assemble.fill_particle fixed min1 max1)
  = result_map (map drop_z) (Assemble.fill_particle fixed' min1 max1).
Proof.
  intros Heq. unfold Assemble.fill_particle.
  rewrite <- !fillin2_drop_z, <- !py_slice_map, Heq. reflexivity.
Qed.

Lemma hold_drop_z (hold hold' : list (row F)) :
  map drop_z hold = map drop_z hold' ->
  Assemble.abs_rows hold = Assemble.abs_rows hold'
  /\ Assemble.rel_rows hold = Assemble.rel_rows hold'
  /\ map px hold = map px hold' /\ map py hold = map py hold'.
Proof.
  intros Heq.
  assert (Hidx : forall i, result_map frame (py_index hold i)
                           = result_map frame (py_index hold' i)).
  { intros i.
    assert (Hi : py_index (map drop_z hold) i = py_index (map drop_z hold') i)
      by (rewrite Heq; reflexivity).
    rewrite !py_index_fmap in Hi.
    destruct (py_index hold i) as [r|e], (py_index hold' i) as [r'|e'];
      simpl in Hi |- *; try congruence.
    inversion Hi. reflexivity. }
  assert (Hpx : forall l : list (row F), map px l = map px (map drop_z l))
    by (intros l; rewrite map_map; reflexivity).
  assert (Hpy : forall l : list (row F), map py l = map py (map drop_z l))
    by (intros l; rewrite map_map; reflexivity).
  split; [| split; [| split]].
  - unfold Assemble.abs_rows. pose proof (Hidx 0) as H0. pose proof (Hidx (-1)) as H1.
    destruct (py_index hold 0), (py_index hold' 0),
      (py_index hold (-1)), (py_index hold' (-1));
      simpl in H0, H1 |- *; congruence.
  - unfold Assemble.rel_rows. pose proof (Hidx 0) as H0. pose proof (Hidx (-1)) as H1.
    destruct (py_index hold 0), (py_index hold' 0),
      (py_index hold (-1)), (py_index hold' (-1));
      simpl in H0, H1 |- *; congruence.
  - rewrite (Hpx hold), (Hpx hold'), Heq. reflexivity.
  - rewrite (Hpy hold), (Hpy hold'), Heq. reflexivity.
Qed.

Lemma particle_step_drop_z (fixed fixed' : list (row F)) (particles : list Z)
    (cutoff : Z) (st : Assemble.state F) (num : Z) :
  map drop_z fixed = map drop_z fixed' ->
  Assemble.particle_step fixed particles cutoff st num
  = Assemble.particle_step fixed' particles cutoff st num.
Proof.
  intros Heq. unfold Assemble.particle_step.
  destruct (py_min _) as [min1|e]; [| reflexivity]. cbn [mbind result_bind].
  destruct (py_max _) as [max1|e]; [| reflexivity]. cbn [mbind result_bind].
  destruct (max1 - min1 <? cutoff); [reflexivity |].
  destruct (result_map_Ok_eq _ _ _ (fill_particle_drop_z fixed fixed' min1 max1 Heq))
    as [(e & -> & ->) | (hold & hold' & -> & -> & Hh)]; [reflexivity |].
  cbn [mbind result_bind].
  destruct (hold_drop_z hold hold' Hh) as (-> & -> & -> & ->). reflexivity.
Qed.

Lemma assemble_drop_z (frames : Z) (ph ph' : list (row F)) (cut : Z)
    (c c' : F * F * F) :
  map tid ph = map tid ph' ->
  map drop_z (map (Assemble.convert c) ph) = map drop_z (map (Assemble.convert c') ph') ->
  Assemble.assemble frames ph cut c = Assemble.assemble frames ph' cut c'.
Proof.
  intros Htid Hfix. unfold Assemble.assemble. rewrite Htid.
  destruct (py_max (map tid ph')) as [total|e]; [| reflexivity].
  cbn [mbind result_bind].
  destruct (np_zeros (frames + 1) (total + 1)) as [z|e]; [| reflexivity].
  cbn [mbind result_bind].
  rewrite (for_each_ext _ _ _ _
             (fun s a => particle_step_drop_z _ _ (map tid ph') cut s a Hfix)).
  reflexivity.
Qed.

Lemma nonempty_or_empty (videos : list (list (row F))) :
  Forall (fun t => t <> []) videos \/ [] ∈ videos.
Proof.
  induction videos as [|t vs [IH|IH]].
  - left. constructor.
  - destruct t as [|r t].
    + right. apply elem_of_cons. auto.
    + left. constructor; [discriminate | exact IH].
  - right. apply elem_of_cons. auto.
Qed.

Lemma last_tid_drop_z (t : list (row F)) : last_tid (map drop_z t) = last_tid t.
Proof.
  unfold last_tid. change (map drop_z t) with (drop_z <$> t). rewrite fmap_last.
  destruct (last t); reflexivity.
Qed.

Lemma shifted_concat_drop_z (vs : list (list (row F))) (off : Z) :
  shifted_concat off (map (map drop_z) vs) = map drop_z (shifted_concat off vs).
Proof.
  revert off. induction vs as [|t vs IH]; intros off; [reflexivity |].
  simpl. rewrite map_app, IH, last_tid_drop_z, !map_map. reflexivity.
Qed.

Lemma max_frame_drop_z (vs : list (list (row F))) :
  max_frame (map (map drop_z) vs) = max_frame vs.
Proof.
  unfold max_frame. rewrite map_map. f_equal. f_equal.
  apply map_ext. intros t. rewrite map_map. reflexivity.
Qed.

(** [load] in terms of its argument without the z column. *)
Lemma load_drop_z (videos videos' : list (list (row F))) :
  map (map drop_z) videos = map (map drop_z) videos' ->
  (exists e, Assemble.load videos = Err e /\ Assemble.load videos' = Err e)
  \/ (exists frames ph ph',
        Assemble.load videos = Ok (frames, ph)
        /\ Assemble.load videos' = Ok (frames, ph')
        /\ map drop_z ph = map drop_z ph').
Proof.
  intros Heq.
  assert (Hempty : forall vs : list (list (row F)),
            [] ∈ vs <-> [] ∈ map (map drop_z) vs).
  { intros vs. split.
    - intros Hin. apply (list_elem_of_fmap_2 (map drop_z)) in Hin. exact Hin.
    - intros Hin. apply list_elem_of_fmap in Hin as (t & Ht & Hin).
      destruct t; [exact Hin | discriminate]. }
  destruct (nonempty_or_empty videos) as [Hne|Hin].
  - destruct (nonempty_or_empty videos') as [Hne'|Hin'].
    + right. exists (max_frame videos), (shifted_concat 0 videos),
        (shifted_concat 0 videos').
      split; [apply load_concat, Hne |]. split.
      * rewrite (load_concat videos' Hne'). do 2 f_equal.
        rewrite <- (max_frame_drop_z videos), <- (max_frame_drop_z videos'), Heq.
        reflexivity.
      * rewrite <- !shifted_concat_drop_z, Heq. reflexivity.
    + exfalso. apply (proj1 (Hempty videos')) in Hin'. rewrite <- Heq in Hin'.
      apply (proj2 (Hempty videos)) in Hin'.
      rewrite Forall_forall in Hne. exact (Hne _ Hin' eq_refl).
  - left. exists IndexError. split; [apply load_empty_table, Hin |].
    apply load_empty_table. apply (proj2 (Hempty videos')). rewrite <- Heq.
    apply (proj1 (Hempty videos)), Hin.
Qed.

Lemma MSD_iteration_drop_z (videos videos' : list (list (row F))) (cut : Z)
    (c0 c1 c2 c1' c2' : F) :
  map (map drop_z) videos = map (map drop_z) videos' ->
  Assemble.MSD_iteration videos cut (c0, c1, c2)
  = Assemble.MSD_iteration videos' cut (c0, c1', c2').
Proof.
  intros Heq. unfold Assemble.MSD_iteration.
  destruct (load_drop_z videos videos' Heq)
    as [(e & -> & ->) | (frames & ph & ph' & -> & -> & Hph)]; [reflexivity |].
  cbn [mbind result_bind fst snd]. apply assemble_drop_z.
  - assert (Htid : forall l : list (row F), map tid l = map tid (map drop_z l))
      by (intros l; rewrite map_map; reflexivity).
    rewrite (Htid ph), (Htid ph'), Hph. reflexivity.
  - assert (Hconv : forall (a b : F) (l : list (row F)),
              map drop_z (map (Assemble.convert (c0, a, b)) l)
              = map (fun r => Row (tid r) (frame r) (fmul c0 (px r)) (fmul c0 (py r)) f0)
                  (map drop_z l)).
    { intros a b l. rewrite !map_map. apply map_ext. intros r. reflexivity. }
    rewrite !Hconv, Hph. reflexivity.
Qed.

End DropZAssemble.

(** X11.  [MSD_iteration] discards the z column and the second and third
    conversion factors: two calls whose tables agree outside the z column
    and whose first conversion factor is the same return the same result,
    or raise the same exception. *)
Theorem MSD_iteration_discards_z {F : Type} `{Float F}
    (videos videos' : list (list (row F))) (cut : Z) (c0 c1 c2 c1' c2' : F) :
  map (map drop_z) videos = map (map drop_z) videos' ->
  Assemble.MSD_iteration videos cut (c0, c1, c2)
  = Assemble.MSD_iteration videos' cut (c0, c1', c2').
Proof. apply MSD_iteration_drop_z. Qed.

Lemma MSD_iteration_discards_z_witness :
  Assemble.MSD_iteration [[qrow 1 0 10 10 0; qrow 1 2 20 20 0]] 1 (1%Q, 1%Q, 1%Q)
  = Assemble.MSD_iteration [[qrow 1 0 10 10 7; qrow 1 2 20 20 9]] 1 (1%Q, 2%Q, 3%Q).
Proof.
  apply (MSD_iteration_discards_z
           [[qrow 1 0 10 10 0; qrow 1 2 20 20 0]]
           [[qrow 1 0 10 10 7; qrow 1 2 20 20 9]] 1 1%Q 1%Q 1%Q 2%Q 3%Q).
  vm_compute. reflexivity.
Defined.

(** ** The MSD engine: the allocation of the accumulators *)

(** X12.  A call with a negative number of frames, with [total1] below 1
    or with a negative [frame_m] fails at the allocation of its zero
    arrays, before any lag is computed: it raises [ValueError]. *)
Theorem vectorized_MMSD_calcs_negative_dimension {F : Type} `{Float F}
    (np_log : F -> F) (stat_sem : list (option F) -> F) (frames total1 : Z)
    (xs_m ys_m x_m y_m : list (list F)) (frame_m : Z) :
  frames < 0 \/ total1 < 1 \/ frame_m < 0 ->
  MMSD.vectorized_MMSD_calcs np_log stat_sem frames total1 xs_m ys_m x_m y_m frame_m
  = Err ValueError.
Proof.
  intros Hneg. unfold MMSD.vectorized_MMSD_calcs, np_zeros, MMSD.np_zeros1.
  destruct (Z.ltb_spec frames 0) as [Hf|Hf]; [reflexivity |].
  destruct (Z.ltb_spec (total1 - 1) 0) as [Ht|Ht]; [reflexivity |].
  cbn [orb mbind result_bind].
  destruct (Z.ltb_spec frame_m 0) as [Hm|Hm]; [reflexivity | lia].
Qed.

Lemma vectorized_MMSD_calcs_negative_dimension_witness :
  MMSD.vectorized_MMSD_calcs any_log any_sem 3 0
    [[1%Q]; [2%Q]; [4%Q]] [[1%Q]; [2%Q]; [4%Q]] [[1%Q]; [2%Q]; [4%Q]]
    [[1%Q]; [2%Q]; [4%Q]] 3
  = Err ValueError.
Proof.
  apply (vectorized_MMSD_calcs_negative_dimension any_log any_sem 3 0).
  right. left. lia.
Defined.

(** ** The MSD engine: what the zero cells take part in *)

Section EngineReductions.
Context {F : Type} `{Float F}.

Lemma masked_means (m : list (list F)) (frame : Z) (n P : nat)
    (means : list (option F)) :
  has_shape n P m ->
  MMSD.lag_means (MMSD.masked_equal0 m) frame = Ok means ->
  masked_means_spec m frame means /\ length means = P.
Proof.
  intros Hshape Hmeans.
  destruct (lag_means_spec m frame n P means Hshape Hmeans)
    as (brow & Hbrow & Hlen & Hcells).
  split; [| exact Hlen].
  exists brow. split; [exact Hbrow |]. split; [| exact Hcells].
  apply py_index_elem in Hbrow. destruct Hshape as [_ HP].
  rewrite Forall_forall in HP. rewrite (HP _ Hbrow). exact Hlen.
Qed.

(** One completed iteration of the loop over the lags. *)
Lemma lag_step_means (xs_m ys_m : list (list F)) (n P : nat)
    (st st' : MMSD.state F) (k : Z) :
  has_shape n P xs_m -> has_shape n P ys_m ->
  MMSD.lag_step (MMSD.masked_equal0 xs_m) (MMSD.masked_equal0 ys_m) st k = Ok st' ->
  exists mxa mya : list (option F),
    MMSD.Mxa st' = Some mxa /\ MMSD.Mya st' = Some mya
    /\ masked_means_spec xs_m k mxa /\ masked_means_spec ys_m k mya
    /\ length mxa = P /\ length mya = P.
Proof.
  intros Hxs Hys Hstep. unfold MMSD.lag_step in Hstep.
  apply bind_Ok in Hstep as (mxa & Hmxa & Hstep).
  apply bind_Ok in Hstep as (mya & Hmya & Hstep).
  apply bind_Ok in Hstep as (sm1x & _ & Hstep).
  apply bind_Ok in Hstep as (sm1y & _ & Hstep).
  inversion Hstep; subst st'; clear Hstep.
  destruct (masked_means xs_m k n P mxa Hxs Hmxa) as [Hsx Hlx].
  destruct (masked_means ys_m k n P mya Hys Hmya) as [Hsy Hly].
  exists mxa, mya. cbn [MMSD.Mxa MMSD.Mya]. auto 10.
Qed.

Lemma engine_masks_zero_cells (np_log : F -> F) (frames total1 : Z)
    (xs_m ys_m : list (list F)) (frame_m : Z) (n P : nat) :
  has_shape n P xs_m -> has_shape n P ys_m ->
  zero_cells_masked np_log frames total1 xs_m ys_m frame_m.
Proof.
  intros Hxs Hys SM0 _. split.
  - intros k st st' _ _ Hstep.
    destruct (lag_step_means xs_m ys_m n P st st' k Hxs Hys Hstep)
      as (mxa & mya & Hx & Hy & Hsx & Hsy & _).
    exists mxa, mya. auto.
  - intros st mya mxa sum Hloop Hmya Hmxa Hsum.
    destruct (Z_lt_le_dec 1 frame_m) as [Hm|Hm].
    + replace frame_m with (frame_m - 1 + 1) in Hloop by lia.
      rewrite py_range_snoc in Hloop by lia.
      apply for_each_app in Hloop as (s1 & _ & Hlast). simpl in Hlast.
      destruct (MMSD.lag_step _ _ s1 (frame_m - 1)) as [s2|e] eqn:Hstep;
        [| discriminate].
      inversion Hlast; subst s2; clear Hlast.
      destruct (lag_step_means xs_m ys_m n P s1 st (frame_m - 1) Hxs Hys Hstep)
        as (mxa' & mya' & Hx & Hy & Hsx & Hsy & Hlx & Hly).
      rewrite Hy in Hmya. rewrite Hx in Hmxa. simpl in Hmya, Hmxa.
      inversion Hmya; inversion Hmxa; subst mya' mxa'.
      split; [exact Hsy |]. split; [exact Hsx |].
      intros p v. apply ma_log_add_unmasked; [congruence | exact Hsum].
    + rewrite py_range_nil in Hloop by lia. simpl in Hloop.
      inversion Hloop; subst st. discriminate.
Qed.

Lemma engine_raises_alike (frames total1 : Z) (xs_m ys_m x_m y_m : list (list F))
    (frame_m : Z) :
  standard_error_unreached frames total1 xs_m ys_m x_m y_m frame_m.
Proof.
  unfold standard_error_unreached, MMSD.vectorized_MMSD_calcs.
  destruct (np_zeros frames (total1 - 1)) as [SM|e]; cbn [mbind result_bind]; [| eauto].
  destruct (MMSD.np_zeros1 frame_m) as [g|e]; cbn [mbind result_bind]; [| eauto].
  destruct (for_each _ _ _) as [st|e]; cbn [mbind result_bind]; [| eauto].
  destruct (MMSD.local (MMSD.Mya st)) as [mya|e]; cbn [mbind result_bind]; [| eauto].
  destruct (MMSD.local (MMSD.Mxa st)) as [mxa|e]; cbn [mbind result_bind]; [| eauto].
  destruct (MMSD.ma_add mya mxa) as [sum|e]; cbn [mbind result_bind]; [| eauto].
  exists TypeError. intros np_log stat_sem. rewrite np_ma_mean_axix. reflexivity.
Qed.

End EngineReductions.



(** The same matrix by hand.  At lag 2 the second particle's mean is 4,
    from its one sample (3 - 1)^2: the cell 0 of frame 1 is left out, not
    counted as a position 0.  The loop stores 4 for it, the logarithm is
    taken of 4 + 4, and the call raises [TypeError] before the standard
    error. *)
Example masked_mean_by_hand :
  masked_means_spec (qmat [[1; 1]; [2; 0]; [4; 3]; [7; 6]]) 2
    [Some (13 # 2)%Q; Some 4%Q]
  /\ for_each (MMSD.lag_step (MMSD.masked_equal0 (qmat [[1; 1]; [2; 0]; [4; 3]; [7; 6]]))
                             (MMSD.masked_equal0 (qmat [[1; 1]; [2; 0]; [4; 3]; [7; 6]])))
       (py_range 1 3)
       (MMSD.State (replicate 4 [0%Q; 0%Q]) (replicate 4 [0%Q; 0%Q]) None None)
     = Ok (MMSD.State [[0%Q; 0%Q]; [(5 # 3)%Q; 0%Q]; [(13 # 2)%Q; 4%Q]; [0%Q; 0%Q]]
             [[0%Q; 0%Q]; [(5 # 3)%Q; 0%Q]; [(13 # 2)%Q; 4%Q]; [0%Q; 0%Q]]
             (Some [Some (13 # 2)%Q; Some 4%Q]) (Some [Some (13 # 2)%Q; Some 4%Q]))
  /\ MMSD.vectorized_MMSD_calcs any_log any_sem 4 3
       (qmat [[1; 1]; [2; 0]; [4; 3]; [7; 6]]) (qmat [[1; 1]; [2; 0]; [4; 3]; [7; 6]])
       (qmat [[1; 1]; [2; 0]; [4; 3]; [7; 6]]) (qmat [[1; 1]; [2; 0]; [4; 3]; [7; 6]]) 3
     = Err TypeError.
Proof.
  split; [| split; vm_compute; reflexivity].
  destruct (masked_means (qmat [[1; 1]; [2; 0]; [4; 3]; [7; 6]]) 2 4 2
              [Some (13 # 2)%Q; Some 4%Q]) as [Hspec _].
  - split; [reflexivity |]. repeat constructor.
  - vm_compute. reflexivity.
  - exact Hspec.
Qed.

(** ** The assembler: the returned count *)

Lemma foldl_min_elem (l : list Z) (a x : Z) : x ∈ a :: l -> foldl Z.min a l <= x.
Proof.
  revert a. induction l as [|b l IH]; intros a Hx.
  - apply list_elem_of_singleton in Hx. simpl. lia.
  - simpl. pose proof (foldl_min_le l (Z.min a b)) as Hle.
    apply elem_of_cons in Hx as [->|Hx]; [lia |].
    apply elem_of_cons in Hx as [->|Hx]; [lia |].
    apply (IH (Z.min a b)). apply elem_of_cons. auto.
Qed.

Lemma filter_all {A : Type} (P : A -> Prop) `{forall x, Decision (P x)} (l : list A) :
  Forall P l -> filter P l = l.
Proof.
  induction 1 as [|x l Hx Hl IH]; [reflexivity |].
  rewrite filter_cons. destruct (decide (P x)); [| contradiction].
  rewrite IH. reflexivity.
Qed.

Lemma ascending_tail (x : Z) (l : list Z) :
  ascending (x :: l) -> ascending l /\ Forall (fun y => x < y) l.
Proof.
  intros Hasc. split.
  - intros i j a b Hij Ha Hb. exact (Hasc (S i) (S j) a b ltac:(lia) Ha Hb).
  - apply Forall_forall. intros y Hy. apply list_elem_of_lookup in Hy as (k & Hk).
    exact (Hasc 0%nat (S k) x y ltac:(lia) eq_refl Hk).
Qed.

Lemma ascending_filter (P : Z -> Prop) `{forall x, Decision (P x)} (l : list Z) :
  ascending l -> ascending (filter P l).
Proof.
  induction l as [|x l IH]; intros Hasc; [exact Hasc |].
  destruct (ascending_tail x l Hasc) as [Hl Hx]. specialize (IH Hl).
  rewrite filter_cons. destruct (decide (P x)); [| exact IH].
  intros [|i] [|j] a b Hij Ha Hb; try lia.
  - simpl in Ha, Hb. inversion Ha; subst a.
    assert (Hin : b ∈ filter P l) by (apply list_elem_of_lookup; eauto).
    apply list_elem_of_filter in Hin as [_ Hin].
    rewrite Forall_forall in Hx. exact (Hx b Hin).
  - exact (IH i j a b ltac:(lia) Ha Hb).
Qed.

Lemma ascending_py_range (a b : Z) : ascending (py_range a b).
Proof.
  intros i j x y Hij Hx Hy.
  apply lookup_lt_Some in Hx as Hi. apply lookup_lt_Some in Hy as Hj.
  rewrite py_range_length in Hi, Hj.
  rewrite py_range_lookup in Hx, Hy by lia. inversion Hx; inversion Hy. lia.
Qed.

(** The ids of a column that holds exactly the ids 1 to [m]. *)
Lemma particle_ids_full (l : list Z) (m : Z) :
  1 <= m ->
  Forall (fun x => 1 <= x <= m) l ->
  (forall j : Z, 1 <= j <= m -> j ∈ l) ->
  particle_ids l = py_range 1 (m + 1).
Proof.
  intros Hm Hall Hin. unfold particle_ids.
  destruct l as [|a l]; [specialize (Hin 1 ltac:(lia)); inversion Hin |].
  cbn [py_min py_max].
  destruct (foldl_bounds l a 1 m Hall) as [Hlo Hhi].
  pose proof (foldl_min_elem l a 1 (Hin 1 ltac:(lia))) as Hmin.
  pose proof (foldl_max_elem l a m (Hin m ltac:(lia))) as Hmax.
  replace (foldl Z.min a l) with 1 by lia.
  replace (foldl Z.max a l) with m by lia.
  apply filter_all. apply Forall_forall. intros j Hj.
  apply py_range_elem in Hj. apply Hin. lia.
Qed.

Section Count.
Context {F : Type} `{Float F}.

Lemma last_tid_nonneg (t : list (row F)) :
  Forall (fun r => 1 <= tid r) t -> 0 <= last_tid t /\ (t <> [] -> 1 <= last_tid t).
Proof.
  intros Hall. unfold last_tid. destruct (last t) as [r|] eqn:Hl.
  - assert (Hin : r ∈ t).
    { rewrite last_lookup in Hl. apply list_elem_of_lookup. eauto. }
    rewrite Forall_forall in Hall. specialize (Hall r Hin). simpl in Hall. lia.
  - apply last_None in Hl. subst t. split; [lia | congruence].
Qed.

Lemma ids_before_nonneg (vs : list (list (row F))) :
  Forall (Forall (fun r => 1 <= tid r)) vs -> 0 <= ids_before vs.
Proof.
  induction 1 as [|t vs Ht Hvs IH]; [unfold ids_before; simpl; lia |].
  unfold ids_before in *. simpl. destruct (last_tid_nonneg t Ht). lia.
Qed.

(** The global ids of the tables [vs] shifted from [off] lie above [off]
    and reach at most [off] plus the last-row ids. *)
Lemma shifted_concat_ids (vs : list (list (row F))) (off : Z) (r : row F) :
  Forall (Forall (fun r => 1 <= tid r)) vs ->
  Forall (fun t => Forall (fun r => tid r <= last_tid t) t) vs ->
  r ∈ shifted_concat off vs -> off < tid r <= off + ids_before vs.
Proof.
  intros H1 H2. revert off. induction H1 as [|t vs Ht Hvs IH]; intros off Hr.
  - inversion Hr.
  - inversion H2 as [|? ? Hlast H2']; subst. specialize (IH H2').
    pose proof (ids_before_nonneg vs Hvs) as Hnn.
    destruct (last_tid_nonneg t Ht) as [Hl0 _].
    assert (Hids : ids_before (t :: vs) = last_tid t + ids_before vs) by reflexivity.
    rewrite Hids. simpl in Hr. apply elem_of_app in Hr as [Hr|Hr].
    + apply list_elem_of_fmap in Hr as (r' & -> & Hr'). simpl.
      rewrite Forall_forall in Ht, Hlast.
      specialize (Ht r' Hr'). specialize (Hlast r' Hr'). simpl in Ht, Hlast. lia.
    + specialize (IH _ Hr). lia.
Qed.

(** The last row of the last table carries the largest global id. *)
Lemma shifted_concat_last (vs : list (list (row F))) (off : Z) :
  vs <> [] -> Forall (fun t => t <> []) vs ->
  off + ids_before vs ∈ map tid (shifted_concat off vs).
Proof.
  intros Hne Hall. revert off. induction Hall as [|t vs Ht Hvs IH]; intros off;
    [congruence |].
  assert (Hids : ids_before (t :: vs) = last_tid t + ids_before vs) by reflexivity.
  rewrite Hids. simpl. rewrite map_app. apply elem_of_app.
  destruct vs as [|u vs].
  - left. destruct (last t) as [r|] eqn:Hl; [| apply last_None in Hl; contradiction].
    assert (Hin : r ∈ t).
    { rewrite last_lookup in Hl. apply list_elem_of_lookup. eauto. }
    apply list_elem_of_fmap. exists (Assemble.add_tid off r). split.
    + unfold last_tid. rewrite Hl. unfold ids_before. simpl. lia.
    + apply list_elem_of_fmap. eauto.
  - right. replace (off + (last_tid t + ids_before (u :: vs)))
      with (off + last_tid t + ids_before (u :: vs)) by lia.
    apply IH. discriminate.
Qed.

(** When every global id up to the largest occurs, each session holds
    exactly the ids 1 to its last-row id, and the input particles are as
    many as the largest global id. *)
Lemma input_particles_ids (vs : list (list (row F))) (off : Z) :
  Forall (Forall (fun r => 1 <= tid r)) vs ->
  Forall (fun t => Forall (fun r => tid r <= last_tid t) t) vs ->
  (forall j : Z, off < j <= off + ids_before vs ->
     j ∈ map tid (shifted_concat off vs)) ->
  input_particles vs = ids_before vs.
Proof.
  intros H1 H2. revert off. induction H1 as [|t vs Ht Hvs IH]; intros off Hin;
    [reflexivity |].
  inversion H2 as [|? ? Hlast H2']; subst.
  assert (Hids : ids_before (t :: vs) = last_tid t + ids_before vs) by reflexivity.
  assert (Hinp : input_particles (t :: vs) = session_particles t + input_particles vs)
    by reflexivity.
  destruct (last_tid_nonneg t Ht) as [Hl0 Hl1].
  pose proof (ids_before_nonneg vs Hvs) as Hnn.
  rewrite Hids in Hin |- *. rewrite Hinp.
  assert (Hsplit : forall j : Z, j ∈ map tid (shifted_concat off (t :: vs)) ->
            (off < j <= off + last_tid t /\ j - off ∈ map tid t)
            \/ (off + last_tid t < j
                /\ j ∈ map tid (shifted_concat (off + last_tid t) vs))).
  { intros j Hj. simpl in Hj. rewrite map_app in Hj.
    apply elem_of_app in Hj as [Hj|Hj].
    - left. apply list_elem_of_fmap in Hj as (r & -> & Hr).
      apply list_elem_of_fmap in Hr as (r' & -> & Hr'). simpl.
      rewrite Forall_forall in Ht, Hlast.
      specialize (Ht r' Hr'). specialize (Hlast r' Hr'). simpl in Ht, Hlast.
      split; [lia |]. replace (tid r' + off - off) with (tid r') by lia.
      apply list_elem_of_fmap. eauto.
    - right. split; [| exact Hj].
      apply list_elem_of_fmap in Hj as (r & -> & Hr).
      pose proof (shifted_concat_ids vs (off + last_tid t) r Hvs H2' Hr). lia. }
  f_equal.
  - unfold session_particles. destruct t as [|r0 t'] eqn:Ht0.
    + reflexivity.
    + rewrite <- Ht0 in *. specialize (Hl1 ltac:(subst t; discriminate)).
      rewrite (particle_ids_full (map tid t) (last_tid t) Hl1).
      * unfold len. rewrite py_range_length. lia.
      * apply Forall_fmap. apply Forall_forall. intros r Hr. simpl.
        rewrite Forall_forall in Ht, Hlast.
        specialize (Ht r Hr). specialize (Hlast r Hr). simpl in Ht, Hlast. lia.
      * intros j Hj. destruct (Hsplit (off + j) (Hin (off + j) ltac:(lia)))
          as [[_ Hl]|[Hr _]]; [| lia].
        replace (off + j - off) with j in Hl by lia. exact Hl.
  - apply (IH H2' (off + last_tid t)). intros j Hj.
    destruct (Hsplit j (Hin j ltac:(lia))) as [[Hl _]|[_ Hr]]; [lia | exact Hr].
Qed.

Lemma MSD_iteration_count (videos : list (list (row F))) (cut : Z)
    (conversion : F * F * F)
    (out : Z * list (list F) * list (list F) * list (list F) * list (list F)) :
  Forall (Forall (fun r => 1 <= tid r)) videos ->
  Forall (fun t => Forall (fun r => tid r <= last_tid t) t) videos ->
  Assemble.MSD_iteration videos cut conversion = Ok out ->
  surviving videos cut conversion out.
Proof.
  intros H1 H2 Hrun. unfold Assemble.MSD_iteration in Hrun.
  apply bind_Ok in Hrun as ([frames placeholder] & Hload & Hasm).
  destruct out as [[[[total1 xs_m] ys_m] x_m] y_m]. cbn [fst snd] in Hasm.
  destruct (load_Ok videos frames placeholder Hload) as (Hne & Hfr & Hph).
  destruct (assemble_assembled _ _ _ _ _ _ _ _ _ Hasm)
    as (total & Htotal & Hall & _ & Hdrop & Hkept & Hsxs & Hsys & Hsx & Hsy & Hcols).
  cbv zeta in Hall, Hdrop, Hkept, Hsxs, Hsys, Hsx, Hsy, Hcols.
  exists frames, placeholder. split; [exact Hload |]. cbv zeta.
  set (particles := map tid placeholder) in *.
  assert (Hvs : videos <> []).
  { intros ->. subst placeholder. discriminate. }
  assert (Hbound : Forall (fun x => 1 <= x <= ids_before videos) particles).
  { unfold particles. apply Forall_fmap, Forall_forall. intros r Hr. simpl.
    subst placeholder. pose proof (shifted_concat_ids videos 0 r H1 H2 Hr). lia. }
  assert (Htop : ids_before videos ∈ particles).
  { unfold particles. subst placeholder.
    pose proof (shifted_concat_last videos 0 Hvs Hne) as Hl. exact Hl. }
  assert (Htot : total = ids_before videos).
  { pose proof (py_max_ge _ _ _ Htotal Htop) as Hge.
    destruct particles as [|a l] eqn:Hp; [discriminate |].
    simpl in Htotal. inversion Htotal as [Hmax].
    destruct (foldl_bounds l a 1 (ids_before videos) Hbound) as [_ Hhi]. lia. }
  assert (Hone : 1 <= total).
  { rewrite Forall_forall in Hbound. specialize (Hbound _ Htop). simpl in Hbound. lia. }
  assert (Hids : particle_ids particles = py_range 1 (total + 1)).
  { apply particle_ids_full; [exact Hone | | exact Hall].
    rewrite Htot. exact Hbound. }
  assert (Hinput : input_particles videos = total).
  { rewrite Htot. apply (input_particles_ids videos 0 H1 H2).
    intros j Hj. unfold particles in Hall. subst placeholder.
    apply Hall. lia. }
  specialize (Hkept ltac:(lia)).
  rewrite Hids.
  change (filter (fun s => survives particles cut s = true) (py_range 1 (total + 1)))
    with (survivors particles cut (total + 1)).
  change (filter (fun s => survives particles cut s = false) (py_range 1 (total + 1)))
    with (dropped particles cut total).
  assert (Hcolumns : Z.to_nat total1 = length (survivors particles cut (total + 1)))
    by (unfold len in Hkept; lia).
  rewrite Hcolumns in Hsxs, Hsys, Hsx, Hsy.
  split; [rewrite Hinput; unfold len; rewrite py_range_length; lia |].
  split; [rewrite Hinput; exact Hdrop |].
  split; [exact Hkept |].
  split; [apply ascending_filter, ascending_py_range |].
  auto 10.
Qed.

End Count.

(** C5 as stated fails.  Two particles with the ids 0 and 1, two records
    each, cutoff 1: no particle fails the test, and the count returned is
    1, with one column, since the loop starts at id 1.  Two sessions, the
    first with the ids 2 and 1 in that order, the second with the id 1:
    the second session is shifted by the last-row id 1 of the first, its
    particle takes the global id 2 of another one, and the count returned
    for three particles, none dropped, is 2. *)
Lemma MSD_iteration_count_counterexample :
  Assemble.MSD_iteration
    [[qrow 0 0 10 10 0; qrow 0 1 20 20 0; qrow 1 0 5 5 0; qrow 1 1 6 6 0]] 1 qone
  = Ok (1, [[5%Q]; [5%Q]], [[5%Q]; [5%Q]], [[5%Q]; [5%Q]], [[5%Q]; [5%Q]])
  /\ input_particles
       [[qrow 0 0 10 10 0; qrow 0 1 20 20 0; qrow 1 0 5 5 0; qrow 1 1 6 6 0]] = 2
  /\ filter (fun s => survives [0; 0; 1; 1] 1 s = false) (particle_ids [0; 0; 1; 1]) = []
  /\ ~ surviving
         [[qrow 0 0 10 10 0; qrow 0 1 20 20 0; qrow 1 0 5 5 0; qrow 1 1 6 6 0]] 1 qone
         (1, [[5%Q]; [5%Q]], [[5%Q]; [5%Q]], [[5%Q]; [5%Q]], [[5%Q]; [5%Q]])
  /\ (exists xs_m x_m : list (list Q),
        Assemble.MSD_iteration
          [[qrow 2 0 10 10 0; qrow 2 1 20 20 0; qrow 1 1 5 5 0; qrow 1 2 6 6 0];
           [qrow 1 5 7 7 0; qrow 1 6 8 8 0]] 1 qone
        = Ok (2, xs_m, xs_m, x_m, x_m)
        /\ input_particles
             [[qrow 2 0 10 10 0; qrow 2 1 20 20 0; qrow 1 1 5 5 0; qrow 1 2 6 6 0];
              [qrow 1 5 7 7 0; qrow 1 6 8 8 0]] = 3
        /\ filter (fun s => survives [2; 2; 1; 1; 2; 2] 1 s = false)
             (particle_ids [2; 2; 1; 1; 2; 2]) = []
        /\ ~ surviving
               [[qrow 2 0 10 10 0; qrow 2 1 20 20 0; qrow 1 1 5 5 0; qrow 1 2 6 6 0];
                [qrow 1 5 7 7 0; qrow 1 6 8 8 0]] 1 qone (2, xs_m, xs_m, x_m, x_m)).
Proof.
  split; [vm_compute; reflexivity |]. split; [vm_compute; reflexivity |].
  split; [vm_compute; reflexivity |]. split.
  - intros (frames & ph & Hload & _ & Hcount & _).
    vm_compute in Hload. inversion Hload; subst frames ph; clear Hload.
    vm_compute in Hcount. discriminate.
  - eexists _, _. split; [vm_compute; reflexivity |].
    split; [vm_compute; reflexivity |]. split; [vm_compute; reflexivity |].
    intros (frames & ph & Hload & _ & Hcount & _).
    vm_compute in Hload. inversion Hload; subst frames ph; clear Hload.
    vm_compute in Hcount. discriminate.
Qed.

(** C5, amended.  When every track id is at least 1 and the last record of
    each session carries the largest track id of the session, a returning
    [MSD_iteration] returns as count the total number of input particles
    (the distinct track ids of the sessions, added up) minus the number of
    dropped particles, which is the number of kept ones and never
    negative; the kept particles occupy the columns 0, 1, .. in the
    ascending order of their global ids, each column holding the filled
    trajectory of its particle; and the four returned matrices have
    exactly that many columns. *)
Theorem MSD_iteration_surviving_count {F : Type} `{Float F}
    (videos : list (list (row F))) (cut : Z) (conversion : F * F * F)
    (out : Z * list (list F) * list (list F) * list (list F) * list (list F)) :
  Forall (Forall (fun r => 1 <= tid r)) videos ->
  Forall (fun t => Forall (fun r => tid r <= last_tid t) t) videos ->
  Assemble.MSD_iteration videos cut conversion = Ok out ->
  surviving videos cut conversion out.
Proof. apply MSD_iteration_count. Qed.

Lemma MSD_iteration_surviving_count_witness :
  surviving
    [[qrow 1 0 10 10 0; qrow 1 2 20 20 0; qrow 2 1 5 5 0;
      qrow 3 0 7 7 0; qrow 3 1 8 8 0];
     [qrow 1 1 3 3 0; qrow 1 3 4 4 0]] 1 qone
    (3,
     [[10%Q; 7%Q; 3%Q]; [10%Q; 7%Q; 3%Q]; [20%Q; 0%Q; 4%Q]; [0%Q; 0%Q; 0%Q]],
     [[10%Q; 7%Q; 3%Q]; [10%Q; 7%Q; 3%Q]; [20%Q; 0%Q; 4%Q]; [0%Q; 0%Q; 0%Q]],
     [[10%Q; 7%Q; 0%Q]; [10%Q; 7%Q; 3%Q]; [20%Q; 0%Q; 3%Q]; [0%Q; 0%Q; 4%Q]],
     [[10%Q; 7%Q; 0%Q]; [10%Q; 7%Q; 3%Q]; [20%Q; 0%Q; 3%Q]; [0%Q; 0%Q; 4%Q]]).
Proof.
  apply MSD_iteration_surviving_count.
  - repeat constructor; vm_compute; discriminate.
  - repeat constructor; vm_compute; discriminate.
  - vm_compute. reflexivity.
Defined.

(** The witness by hand: four input particles, the second one dropped
    for its single record, three columns. *)
Example surviving_count_by_hand :
  input_particles
    [[qrow 1 0 10 10 0; qrow 1 2 20 20 0; qrow 2 1 5 5 0;
      qrow 3 0 7 7 0; qrow 3 1 8 8 0];
     [qrow 1 1 3 3 0; qrow 1 3 4 4 0]] = 4
  /\ particle_ids [1; 1; 2; 3; 3; 4; 4] = [1; 2; 3; 4]
  /\ filter (fun s => survives [1; 1; 2; 3; 3; 4; 4] 1 s = false) [1; 2; 3; 4] = [2]
  /\ filter (fun s => survives [1; 1; 2; 3; 3; 4; 4] 1 s = true) [1; 2; 3; 4] = [1; 3; 4].
Proof. repeat split; vm_compute; reflexivity. Qed.
